(** * put-to-postgres.js: a shallow embedding of [putToPostgres]

    The development follows src/put-to-postgres.js (the live function, from
    the line [async function putToPostgres] on).  JavaScript values, objects
    with their property order, the object heap, the [idsRegistry] object of
    [Map]s, the Postgres tables reached through [knex], and the console are
    modelled explicitly; the function itself is written stage by stage in
    the order of the source.  Where the source reads a configuration object
    or the registry by a computed key ([links[key]],
    [idsRegistry[collection]]), the read goes through the prototype chain:
    a name of [Object.prototype] finds its member.  An assignment under the
    name [__proto__] reaches the setter of [Object.prototype] and replaces
    the prototype of the copy instead of adding a property.  The store is
    Postgres as the source reaches it inside [knex.transaction]: a rejected
    statement aborts the transaction, which then ignores every statement
    and is rolled back at its end, and the serial counters of the tables
    are not part of what is rolled back. *)

From Stdlib Require Import ZArith String Ascii List DecimalString.
From stdpp Require Import gmap strings list fin_maps.

Open Scope string_scope.
Open Scope list_scope.
Set Warnings "-register-all".

(** ** JavaScript values *)

Module JS.

(** Numbers are the integers the function handles (sql ids, counters);
    arrays and nested objects are never written to by [putToPostgres], so
    they are carried as immutable values.  Top-level records live in the
    heap below. *)
Inductive value : Type :=
| VUndef
| VNull
| VBool (b : bool)
| VNum (z : Z)
| VStr (s : string)
| VArr (elems : list value)
| VObj (props : list (string * value)).

(** [x == null] *)
Definition nullish (v : value) : bool :=
  match v with
  | VUndef | VNull => true
  | _ => false
  end.

(** [Boolean(x)], the test of [if (x)], [!x], [x && y], [.filter(Boolean)] *)
Definition truthy (v : value) : bool :=
  match v with
  | VUndef | VNull => false
  | VBool b => b
  | VNum z => negb (z =? 0)%Z
  | VStr s => negb (bool_decide (s = ""))
  | VArr _ | VObj _ => true
  end.

(** [Array.isArray(x)] *)
Definition isArray (v : value) : bool :=
  match v with
  | VArr _ => true
  | _ => false
  end.

(** *** [String] of a number

    A number is the Number value of its integer: the nearest integer that
    53 bits hold, ties to even.  [String] gives the digits of an integer
    below 2^53 as they are, and from there on the shortest digits that
    still name the Number, followed by zeros up to 21 digits and in
    exponent form beyond. *)

Definition decimal (z : Z) : string := NilZero.string_of_int (Z.to_int z).

Definition number_value (x : Z) : Z :=
  if (x <? 2 ^ 53)%Z then x
  else
    let e := (Z.log2 x - 52)%Z in
    let q := Z.shiftr x e in
    let r := (x - Z.shiftl q e)%Z in
    let half := Z.shiftl 1 (e - 1) in
    if (half <? r)%Z || ((r =? half)%Z && Z.odd q) then Z.shiftl (q + 1) e
    else Z.shiftl q e.

(** the digits [s] and the exponent [n] of [Number::toString]: [s] has [k]
    digits, [s * 10^(n-k)] has the Number value [m], and [k] is as small as
    can be; of two such [s] the one nearer to [m] (the even one in a tie) *)
Fixpoint shortest_digits (fuel : nat) (m D k : Z) : Z * Z :=
  match fuel with
  | O => (m, D)
  | S fuel' =>
      let scale := (10 ^ (D - k))%Z in
      let lo := (m / scale)%Z in
      let hi := (lo + 1)%Z in
      let ok_lo := (number_value (lo * scale) =? m)%Z in
      let ok_hi := (number_value (hi * scale) =? m)%Z in
      let pick (s : Z) := if (s =? 10 ^ k)%Z then (1%Z, (D + 1)%Z) else (s, D) in
      if ok_lo && ok_hi then
        let d1 := (m - lo * scale)%Z in
        let d2 := (hi * scale - m)%Z in
        if (d1 <? d2)%Z then pick lo
        else if (d2 <? d1)%Z then pick hi
        else if Z.even lo then pick lo else pick hi
      else if ok_lo then pick lo
      else if ok_hi then pick hi
      else shortest_digits fuel' m D (k + 1)%Z
  end.

Fixpoint zeros (n : nat) : string :=
  match n with
  | O => ""
  | S n' => String "0" (zeros n')
  end.

(** [String(x)] for a positive Number *)
Definition positive_number_string (x : Z) : string :=
  if (2 ^ 1024 - 2 ^ 970 <=? x)%Z then "Infinity"
  else
    let m := number_value x in
    if (m <? 2 ^ 53)%Z then decimal m
    else
      let (s, n) := shortest_digits 17 m (Z.of_nat (String.length (decimal m))) 1 in
      let ds := decimal s in
      let k := Z.of_nat (String.length ds) in
      if (n <=? 21)%Z then (ds ++ zeros (Z.to_nat (n - k)))%string
      else
        match ds with
        | String c rest =>
            (String c (if bool_decide (rest = "") then "" else "." ++ rest)
             ++ "e+" ++ decimal (n - 1))%string
        | EmptyString => ""
        end.

Definition number_string (z : Z) : string :=
  if (z =? 0)%Z then "0"
  else if (z <? 0)%Z then ("-" ++ positive_number_string (- z))%string
  else positive_number_string z.

(** [String(x)] *)
Fixpoint String_ (v : value) : string :=
  match v with
  | VUndef => "undefined"
  | VNull => "null"
  | VBool true => "true"
  | VBool false => "false"
  | VNum z => number_string z
  | VStr s => s
  | VArr elems =>
      (fix join (l : list value) : string :=
         match l with
         | [] => ""
         | x :: l' =>
             let sx := if nullish x then "" else String_ x in
             match l' with
             | [] => sx
             | _ :: _ => (sx ++ "," ++ join l')%string
             end
         end) elems
  | VObj _ => "[object Object]"
  end.

(** What an awaited call does: it returns or it throws an error, of which
    the message is kept. *)
Inductive outcome (A : Type) : Type :=
| Returned (a : A)
| Thrown (msg : string).
Arguments Returned {A} a.
Arguments Thrown {A} msg.

(** What a [redefine] mapper does when it is called: it returns, or it
    throws a value, which can be any value. *)
Inductive completion (A : Type) : Type :=
| Normal (a : A)
| Throw (e : value).
Arguments Normal {A} a.
Arguments Throw {A} e.

Definition is_thrown {A} (r : outcome A) : bool :=
  match r with
  | Thrown _ => true
  | Returned _ => false
  end.

(** ** Objects: own properties in enumeration order

    An object is the list of its own properties in the order of
    [Object.entries]: array-index keys first, ascending, then the other keys
    in creation order.  Lookups are own-property lookups. *)

Definition jsobj (A : Type) : Type := list (string * A).

Definition digit_of (c : ascii) : option N :=
  let n := N_of_ascii c in
  if ((48 <=? n) && (n <=? 57))%N then Some (n - 48)%N else None.

Fixpoint digits_value (s : string) (acc : N) : option N :=
  match s with
  | EmptyString => Some acc
  | String c s' =>
      match digit_of c with
      | Some d => digits_value s' (10 * acc + d)%N
      | None => None
      end
  end.

(** A key is an array index when it is the canonical decimal form of an
    integer below 2^32 - 1. *)
Definition array_index (k : string) : option N :=
  match k with
  | EmptyString => None
  | String c rest =>
      match digits_value k 0 with
      | Some n =>
          if (bool_decide (c = "0"%char) && negb (bool_decide (rest = ""))) then None
          else if (n <? 4294967295)%N then Some n else None
      | None => None
      end
  end.

Section Objects.
Context {A : Type}.

Fixpoint obj_get (o : jsobj A) (k : string) : option A :=
  match o with
  | [] => None
  | (k', v) :: o' => if decide (k' = k) then Some v else obj_get o' k
  end.

(** [Object.prototype.hasOwnProperty.call(o, k)] *)
Definition obj_has (o : jsobj A) (k : string) : bool :=
  match obj_get o k with
  | Some _ => true
  | None => false
  end.

(** assignment to a property that exists keeps its place *)
Fixpoint obj_update (k : string) (v : A) (o : jsobj A) : jsobj A :=
  match o with
  | [] => []
  | (k', v') :: o' =>
      if decide (k' = k) then (k', v) :: o' else (k', v') :: obj_update k v o'
  end.

(** a new array-index key goes among the index keys, in numeric order *)
Fixpoint obj_add_index (n : N) (k : string) (v : A) (o : jsobj A) : jsobj A :=
  match o with
  | [] => [(k, v)]
  | (k', v') :: o' =>
      match array_index k' with
      | Some n' =>
          if (n' <? n)%N then (k', v') :: obj_add_index n k v o'
          else (k, v) :: o
      | None => (k, v) :: o
      end
  end.

(** any other new key goes last *)
Definition obj_add (k : string) (v : A) (o : jsobj A) : jsobj A :=
  match array_index k with
  | Some n => obj_add_index n k v o
  | None => o ++ [(k, v)]
  end.

(** [o[k] = v] *)
Definition obj_set (k : string) (v : A) (o : jsobj A) : jsobj A :=
  if obj_has o k then obj_update k v o else obj_add k v o.

(** [delete o[k]] *)
Definition obj_delete (k : string) (o : jsobj A) : jsobj A :=
  List.filter (fun p => negb (bool_decide (fst p = k))) o.

(** [{ ...base, ...extra }] on top of an object under construction *)
Definition obj_assign (base extra : jsobj A) : jsobj A :=
  foldl (fun o p => obj_set (fst p) (snd p) o) base extra.

Definition keys (o : jsobj A) : list string := map fst o.
End Objects.

(** [o[k]] read as a value: a missing property reads as [undefined] *)
Definition prop (o : jsobj value) (k : string) : value :=
  match obj_get o k with
  | Some v => v
  | None => VUndef
  end.

(** [e.message] for a value that is not [null] or [undefined]: the
    property of an object (an [Error] has it), nothing on another value *)
Definition message_of (e : value) : value :=
  match e with
  | VObj props => prop props "message"
  | _ => VUndef
  end.

(** [new Error(msg)], as far as its properties are read *)
Definition Error_ (msg : string) : value := VObj [("message", VStr msg)].

(** the members of [Object.prototype], which every object literal inherits *)
Definition object_prototype_keys : list string :=
  ["constructor"; "hasOwnProperty"; "isPrototypeOf"; "propertyIsEnumerable";
   "toLocaleString"; "toString"; "valueOf"; "__proto__";
   "__defineGetter__"; "__defineSetter__"; "__lookupGetter__"; "__lookupSetter__"].

End JS.
Export JS.

(** ** The heap of records

    The elements of [rows] are references to objects; [{ ...row }] allocates
    a new object.  A reference is an index into the heap. *)

Definition loc : Type := nat.

(** ** The target store reached through [knex]

    A table keeps its rows with the [id] the store assigned, whether it has
    the [mongo_id] column and whether that column is unique
    ([t.text("mongo_id").unique().index()]), and what else it asks of the
    rows it is given (its other columns, their types, NOT NULL, checks,
    references): [t_check stored batch] is [None] when the table takes the
    batch, and the number of ids the statement had drawn when it rejects
    it (none when it is rejected before it runs, as for a column the table
    does not have).  [t_alter] is whether the connection may change the
    schema of the table: the safeguard of the function allows for a store
    that prohibits it.  The serial counters of the tables are kept apart
    from the tables: a rollback does not touch them. *)

Record pg_table : Type := PgTable {
  t_mongo_id : bool;
  t_unique : bool;
  t_rows : list (Z * jsobj value);
  t_check : (string -> list (Z * jsobj value)) -> list (jsobj value) -> option nat;
  t_alter : bool
}.

Abbreviation database := (gmap string pg_table).
Abbreviation sequences := (gmap string Z).

(** the next [id] of the serial column of a table *)
Definition serial_of (sq : sequences) (table : string) : Z := default 1%Z (sq !! table).

(** [n] ids are drawn *)
Definition draw (table : string) (n : nat) (sq : sequences) : sequences :=
  <[table := (serial_of sq table + Z.of_nat n)%Z]> sq.

Definition rows_of (d : database) (table : string) : list (Z * jsobj value) :=
  match d !! table with
  | Some t => t_rows t
  | None => []
  end.

(** The text a value is stored as in the [mongo_id] text column; on the
    scalars identifiers are made of it is [String]. *)
Definition pg_text (v : value) : string := String_ v.

(** The [mongo_id] of a stored row, when it is not NULL. *)
Definition mongo_text (cols : jsobj value) : option string :=
  match obj_get cols "mongo_id" with
  | Some (VStr s) => Some s
  | _ => None
  end.

(** A row as the store keeps it: [mongo_id] as text. *)
Definition pg_store_row (o : jsobj value) : jsobj value :=
  match obj_get o "mongo_id" with
  | Some v => if nullish v then o else obj_update "mongo_id" (VStr (pg_text v)) o
  | None => o
  end.

(** [select("id", "mongo_id").whereIn("mongo_id", ids)] on a table *)
Definition pg_select_ids (d : database) (table : string) (ids : list value)
  : outcome (list (Z * string)) :=
  match d !! table with
  | None => Thrown "relation does not exist"
  | Some t =>
      if t_mongo_id t then
        Returned
          (omap (fun x : Z * jsobj value =>
                   match mongo_text (snd x) with
                   | Some s =>
                       if bool_decide (s ∈ map pg_text ids) then Some (fst x, s) else None
                   | None => None
                   end) (t_rows t))
      else Thrown "column mongo_id does not exist"
  end.

Fixpoint number_rows (next : Z) (batch : list (jsobj value)) : list (Z * jsobj value) :=
  match batch with
  | [] => []
  | o :: batch' => (next, o) :: number_rows (next + 1) batch'
  end.

(** The unique constraint on [mongo_id]: no text twice in the batch, none
    already in the table (NULLs never collide). *)
Definition unique_ok (t : pg_table) (stored : list (jsobj value)) : bool :=
  negb (t_unique t)
  || bool_decide (NoDup (omap mongo_text stored)
                  ∧ Forall (fun s => s ∉ omap (fun x => mongo_text (snd x)) (t_rows t))
                           (omap mongo_text stored)).

(** the rows of a batch are written one by one, each with the next id: the
    number of ids drawn when a row breaks the unique constraint, the one of
    that row included *)
Fixpoint drawn_at_clash (seen : list string) (stored : list (jsobj value)) : nat :=
  match stored with
  | [] => 0
  | o :: rest =>
      match mongo_text o with
      | Some s => if bool_decide (s ∈ seen) then 1 else S (drawn_at_clash (s :: seen) rest)
      | None => S (drawn_at_clash seen rest)
      end
  end.

(** [insert(batch).returning(["id", "mongo_id"])] on a table: the new
    tables and the returned [(id, mongo_id)] pairs, or the error of the
    store; and the serial counters, which a rejected batch may have moved. *)
Definition pg_insert (d : database) (sq : sequences) (table : string)
    (batch : list (jsobj value)) : outcome (database * list (Z * value)) * sequences :=
  match d !! table with
  | None => (Thrown "relation does not exist", sq)
  | Some t =>
      let stored := map pg_store_row batch in
      if negb (t_mongo_id t) && existsb (fun o => obj_has o "mongo_id") stored
      then (Thrown "column mongo_id does not exist", sq)
      else
        match t_check t (rows_of d) stored with
        | Some drawn =>
            (Thrown "rejected by the table", draw table (Nat.min drawn (length batch)) sq)
        | None =>
            if unique_ok t stored then
              let new := number_rows (serial_of sq table) stored in
              (Returned
                 (<[table := PgTable (t_mongo_id t) (t_unique t) (t_rows t ++ new)
                                     (t_check t) (t_alter t)]> d,
                  map (fun x => (fst x, prop (snd x) "mongo_id")) new),
               draw table (length batch) sq)
            else
              (Thrown "duplicate key value violates unique constraint",
               draw table
                    (drawn_at_clash (omap (fun x => mongo_text (snd x)) (t_rows t)) stored)
                    sq)
        end
  end.

(** ** Configuration: [PutOptions] *)

(** One entry of [links]: [[linkTable, selfIdCol, foreignIdCol, transform?]].
    The optional [transform(selfSqlId, foreignSqlId, raw)] returns the extra
    attributes, or nothing. *)
Record link_cfg : Type := LinkCfg {
  linkTable : string;
  selfIdCol : string;
  foreignIdCol : string;
  transform : option (Z -> Z -> jsobj value -> outcome (option (jsobj value)))
}.

Record PutOptions : Type := Options {
  rename : jsobj string;
  redefine : jsobj (value -> jsobj value -> completion value);
  foreignKeys : jsobj string;
  links : jsobj link_cfg
}.

(** a name every object inherits from [Object.prototype] *)
Definition inherited (name : string) : bool :=
  bool_decide (name ∈ object_prototype_keys).

(** [links[key]] read for its truth, as in [!links[key]]: an entry of
    [links] (an array, which is truthy) or a member of [Object.prototype] *)
Definition links_has (lk : jsobj link_cfg) (key : string) : bool :=
  obj_has lk key || inherited key.

(** ** The console *)

Inductive event : Type :=
| LogNothingToInsert (table : string)
| LogAddedColumn (table : string)
| LogSchemaCheck (table msg : string)
| WarnRedefineFail (table field msg : string)
| WarnMissingCollectionMap (table field foreignCollection : string)
| WarnLostFks (table field : string) (lost : nat)
| WarnMissingFk (table field : string) (oldVal : value)
| WarnDroppedArray (table key : string)
| LogAlreadyExist (table : string) (n : nat)
| LogInserted (table : string) (n : nat)
| WarnLinkSkipNoSqlId (selfCollectionName : string) (mongo_id : value)
| WarnLinkSkipMissingFk (foreignOldId : value)
| WarnLinkInsert (linkTable msg : string)
| LogLinkInserted (table linkTable : string) (n : nat).

(** ** The world [putToPostgres] runs in

    [idsRegistry] is an object whose properties are [Map]s from [mongo_id]
    to sql id; it is shared with the caller and mutated in place, so it is
    part of the state and survives whatever the call does.  [aborted] says
    whether the open transaction has been aborted by a rejected statement;
    outside of a transaction it is [false]. *)

Abbreviation idmap := (gmap string Z).

(** [idsRegistry[name]]: one of the [Map]s of the registry, a member of
    [Object.prototype] (a function or an object, truthy, and no [Map]), or
    [undefined] *)
Inductive member : Type :=
| OwnMap (m : idmap)
| Inherited
| Missing.

Definition registry_get (registry : jsobj idmap) (name : string) : member :=
  match obj_get registry name with
  | Some m => OwnMap m
  | None => if inherited name then Inherited else Missing
  end.

Record world : Type := World {
  heap : list (jsobj value);
  db : database;
  idsRegistry : jsobj idmap;
  console : list event;
  serials : sequences;
  aborted : bool
}.

Definition with_heap (h : list (jsobj value)) (w : world) : world :=
  World h (db w) (idsRegistry w) (console w) (serials w) (aborted w).
Definition with_db (d : database) (w : world) : world :=
  World (heap w) d (idsRegistry w) (console w) (serials w) (aborted w).
Definition with_registry (r : jsobj idmap) (w : world) : world :=
  World (heap w) (db w) r (console w) (serials w) (aborted w).
Definition with_serials (sq : sequences) (w : world) : world :=
  World (heap w) (db w) (idsRegistry w) (console w) sq (aborted w).
Definition with_aborted (b : bool) (w : world) : world :=
  World (heap w) (db w) (idsRegistry w) (console w) (serials w) b.

(** [console.log] / [console.warn] *)
Definition emit (e : event) (w : world) : world :=
  World (heap w) (db w) (idsRegistry w) (console w ++ [e]) (serials w) (aborted w).
Definition emit_all (es : list event) (w : world) : world :=
  World (heap w) (db w) (idsRegistry w) (console w ++ es) (serials w) (aborted w).

(** the object a reference points to *)
Definition object_at (w : world) (l : loc) : jsobj value :=
  default [] (heap w !! l).

(** [{ ...row }]: a new object with the own properties of [row] *)
Definition alloc_copy (row : loc) (w : world) : world * loc :=
  (with_heap (heap w ++ [object_at w row]) w, length (heap w)).

(** the object behind [r] is replaced by what a block of statements that
    assigns to and deletes from [r] makes of it; the block may warn *)
Definition mutate (r : loc) (block : jsobj value -> jsobj value * list event)
    (w : world) : world :=
  let res := block (object_at w r) in
  emit_all (snd res) (with_heap (<[r := fst res]> (heap w)) w).

(** *** Statements inside the transaction: [trx(table)...]

    A statement sent to an aborted transaction is answered with an error;
    a statement the store rejects aborts the transaction. *)

Definition aborted_msg : string :=
  "current transaction is aborted, commands ignored until end of transaction block".

Definition trx_select (w : world) (table : string) (ids : list value)
  : outcome (list (Z * string)) * world :=
  if aborted w then (Thrown aborted_msg, w)
  else
    match pg_select_ids (db w) table ids with
    | Returned existing => (Returned existing, w)
    | Thrown msg => (Thrown msg, with_aborted true w)
    end.

Definition trx_insert (w : world) (table : string) (batch : list (jsobj value))
  : outcome (list (Z * value)) * world :=
  if aborted w then (Thrown aborted_msg, w)
  else
    match pg_insert (db w) (serials w) table batch with
    | (Returned (d, inserted), sq) => (Returned inserted, with_serials sq (with_db d w))
    | (Thrown msg, sq) => (Thrown msg, with_aborted true (with_serials sq w))
    end.

(** ** [putToPostgres], stage by stage *)

Module Put.

(** *** Preparing a row: the callback of [rows.map]

    Each stage is the body of one [for] loop over the entries of a
    configuration object; it works on the copy [r] and collects the warnings
    it prints. *)

Definition stage : Type := jsobj value * list event.

(** What the copy inherits from: [Object.prototype], as every object
    literal does, or what an assignment to [r.__proto__] has put in its
    place (an object, an array or [null]). *)
Inductive prototype : Type :=
| ObjectPrototype
| Proto (p : value).

(** whether an assignment to [r.__proto__], for a copy without such a
    property of its own, ends in the setter of [Object.prototype]: it does
    unless the chain ends before ([null]) or an object on it has a property
    of that name *)
Definition reaches_setter (proto : prototype) : bool :=
  match proto with
  | ObjectPrototype => true
  | Proto VNull => false
  | Proto (VObj props) => negb (obj_has props "__proto__")
  | Proto _ => true
  end.

(** [r[newName] = v]: an assignment makes or updates a property of the
    copy, except that [r.__proto__ = v] through the setter replaces the
    prototype when [v] is an object or [null] and does nothing otherwise *)
Definition assign (newName : string) (v : value) (c : jsobj value * prototype)
  : jsobj value * prototype :=
  let (r, proto) := c in
  if bool_decide (newName = "__proto__") && negb (obj_has r newName) && reaches_setter proto
  then match v with
       | VObj _ | VArr _ | VNull => (r, Proto v)
       | _ => c
       end
  else (obj_set newName v r, proto).

(** rename stage: [r[newName] = r[oldName]; delete r[oldName]] *)
Definition rename_entry (c : jsobj value * prototype) (e : string * string)
  : jsobj value * prototype :=
  let (oldName, newName) := e in
  if obj_has (fst c) oldName
  then let c' := assign newName (prop (fst c) oldName) c in
       (obj_delete oldName (fst c'), snd c')
  else c.

(** the copy after the loop over the entries of [rename] *)
Definition rename_stage (rn : jsobj string) (r : jsobj value) : stage :=
  (fst (foldl rename_entry (r, ObjectPrototype) rn), []).

(** redefine stage: [try { r[field] = mapper(r[field], r) } catch (e) { warn }];
    the handler reads [e.message], which throws in its turn when the mapper
    threw [null] or [undefined] *)
Definition redefine_entry (table : string) (s : stage)
    (e : string * (value -> jsobj value -> completion value)) : outcome unit * stage :=
  let (r, warns) := s in
  let (field, mapper) := e in
  if obj_has r field then
    match mapper (prop r field) r with
    | Normal v => (Returned tt, (obj_set field v r, warns))
    | Throw e =>
        if nullish e
        then (Thrown ("Cannot read properties of " ++ String_ e ++ " (reading 'message')"), s)
        else (Returned tt,
              (r, warns ++ [WarnRedefineFail table field (String_ (message_of e))]))
    end
  else (Returned tt, s).

(** a [for] loop over the entries of a configuration object whose body may
    throw: it stops where the body throws, with the copy and the warnings
    as they are by then *)
Fixpoint stage_loop {E : Type} (body : stage -> E -> outcome unit * stage)
    (es : list E) (s : stage) : outcome unit * stage :=
  match es with
  | [] => (Returned tt, s)
  | e :: es' =>
      match body s e with
      | (Returned _, s') => stage_loop body es' s'
      | (Thrown msg, s') => (Thrown msg, s')
      end
  end.

Definition redefine_stage (table : string)
    (rd : jsobj (value -> jsobj value -> completion value)) (r : jsobj value)
  : outcome unit * stage :=
  stage_loop (redefine_entry table) rd (r, []).

(** [oldVal.map((id) => (id == null ? null : fkMap.get(String(id)))).filter((v) => v != null)] *)
Definition map_fk_array (fkMap : idmap) (ids : list value) : list Z :=
  omap (fun id => if nullish id then None else fkMap !! String_ id) ids.

(** the assignment to [r[field]] once [fkMap] is found to be a [Map] *)
Definition fk_assign (table : string) (fkMap : idmap) (field : string) (oldVal : value)
    (s : stage) : stage :=
  let (r, warns) := s in
  match oldVal with
  | VArr ids =>
      let mapped := map_fk_array fkMap ids in
      let warns' :=
        if bool_decide (length mapped = length ids) then warns
        else warns ++ [WarnLostFks table field (length ids - length mapped)] in
      (obj_set field (match mapped with
                      | first :: _ => VNum first
                      | [] => VNull
                      end) r,
       warns')
  | _ =>
      match fkMap !! String_ oldVal with
      | None => (obj_set field VNull r, warns ++ [WarnMissingFk table field oldVal])
      | Some newId => (obj_set field (VNum newId) r, warns)
      end
  end.

(** foreign keys mapping; when [idsRegistry[foreignCollection]] is a member
    of [Object.prototype], the first call of [fkMap.get] throws *)
Definition fk_entry (table : string) (registry : jsobj idmap) (s : stage)
    (e : string * string) : outcome unit * stage :=
  let (field, foreignCollection) := e in
  if negb (obj_has (fst s) field) then (Returned tt, s)
  else
    let oldVal := prop (fst s) field in
    if nullish oldVal then (Returned tt, s)
    else
      match registry_get registry foreignCollection with
      | Missing =>
          (Returned tt,
           (obj_set field VNull (fst s),
            snd s ++ [WarnMissingCollectionMap table field foreignCollection]))
      | OwnMap fkMap => (Returned tt, fk_assign table fkMap field oldVal s)
      | Inherited =>
          match oldVal with
          | VArr ids =>
              if forallb nullish ids
              then (Returned tt, fk_assign table ∅ field oldVal s)
              else (Thrown "fkMap.get is not a function", s)
          | _ => (Thrown "fkMap.get is not a function", s)
          end
      end.

Definition fk_stage (table : string) (registry : jsobj idmap) (fks : jsobj string)
    (r : jsobj value) : outcome unit * stage :=
  stage_loop (fk_entry table registry) fks (r, []).

(** array fields that [links] does not handle are dropped; the loop runs
    over the entries [r] has when it starts *)
Definition elide_entry (table : string) (lk : jsobj link_cfg) (s : stage)
    (e : string * value) : stage :=
  let (r, warns) := s in
  let (key, val) := e in
  if isArray val && negb (links_has lk key)
  then (obj_delete key r, warns ++ [WarnDroppedArray table key])
  else s.

Definition elide_stage (table : string) (lk : jsobj link_cfg) (r : jsobj value) : stage :=
  foldl (elide_entry table lk) (r, []) r.

(** a block that may throw: the object behind [r] and the console are as
    the block left them when it threw *)
Definition mutate_try (r : loc) (block : jsobj value -> outcome unit * stage)
    (w : world) : outcome unit * world :=
  let res := block (object_at w r) in
  (fst res, emit_all (snd (snd res)) (with_heap (<[r := fst (snd res)]> (heap w)) w)).

(** [(row) => { let r = { ...row }; ...; return r; }] *)
Definition prepare_row (table : string) (options : PutOptions) (w : world) (row : loc)
  : outcome loc * world :=
  let (w0, r) := alloc_copy row w in
  let w1 := mutate r (rename_stage (rename options)) w0 in
  match mutate_try r (redefine_stage table (redefine options)) w1 with
  | (Thrown msg, w2) => (Thrown msg, w2)
  | (Returned _, w2) =>
      match mutate_try r (fk_stage table (idsRegistry w2) (foreignKeys options)) w2 with
      | (Thrown msg, w3) => (Thrown msg, w3)
      | (Returned _, w3) =>
          let w4 := mutate r (elide_stage table (links options)) w3 in
          (Returned r, w4)
      end
  end.

(** [rows.map(f)] for a callback that works on the world and may throw *)
Fixpoint map_rows (f : world -> loc -> outcome loc * world) (w : world) (rows : list loc)
  : outcome (list loc) * world :=
  match rows with
  | [] => (Returned [], w)
  | row :: rest =>
      match f w row with
      | (Thrown msg, w1) => (Thrown msg, w1)
      | (Returned r, w1) =>
          match map_rows f w1 rest with
          | (Thrown msg, w2) => (Thrown msg, w2)
          | (Returned rs, w2) => (Returned (r :: rs), w2)
          end
      end
  end.

(** *** The schema safeguard: [hasColumn] / [alterTable] inside [try];
    an error is caught and logged, and has aborted the transaction *)
Definition ensure_mongo_id_column (table : string) (w : world) : world :=
  if aborted w then emit (LogSchemaCheck table aborted_msg) w
  else
    match db w !! table with
    | Some t =>
        if t_mongo_id t then w
        else if t_alter t then
          emit (LogAddedColumn table)
               (with_db (<[table := PgTable true true (t_rows t) (t_check t) (t_alter t)]>
                           (db w)) w)
        else emit (LogSchemaCheck table ("must be owner of table " ++ table))
                  (with_aborted true w)
    | None => emit (LogSchemaCheck table "relation does not exist") (with_aborted true w)
    end.

(** *** Idempotency: new rows against existing ones *)

Definition mongo_id_of (w : world) (r : loc) : value := prop (object_at w r) "mongo_id".

(** [new Map(existing.map((x) => [x.mongo_id, x.id]))]: a later pair wins *)
Definition make_existingMap (existing : list (Z * string)) : idmap :=
  foldl (fun m x => <[snd x := fst x]> m) ∅ existing.

(** [existingMap.get(v)]: the keys are the strings of the text column, and
    a [Map] finds a key only by the same value *)
Definition existing_get (existingMap : idmap) (v : value) : option Z :=
  match v with
  | VStr s => existingMap !! s
  | _ => None
  end.

Definition existing_has (existingMap : idmap) (v : value) : bool :=
  match existing_get existingMap v with
  | Some _ => true
  | None => false
  end.

Definition toInsert_of (existingMap : idmap) (w : world) (prepared : list loc) : list loc :=
  List.filter (fun r => truthy (mongo_id_of w r)
                        && negb (existing_has existingMap (mongo_id_of w r))) prepared.

Definition toSkip_of (existingMap : idmap) (w : world) (prepared : list loc) : list loc :=
  List.filter (fun r => truthy (mongo_id_of w r)
                        && existing_has existingMap (mongo_id_of w r)) prepared.

(** [idsRegistry[collection].set(key, id)]: the [Map] is updated in place *)
Definition registry_set (collection key : string) (id : Z) (registry : jsobj idmap)
  : jsobj idmap :=
  match obj_get registry collection with
  | Some m => obj_update collection (<[key := id]> m) registry
  | None => registry
  end.

(** a [for ... of] loop whose body may throw: the loop stops at the throw *)
Fixpoint for_each {A S : Type} (body : S -> world -> A -> outcome S * world)
    (xs : list A) (s : S) (w : world) : outcome S * world :=
  match xs with
  | [] => (Returned s, w)
  | x :: xs' =>
      match body s w x with
      | (Returned s', w') => for_each body xs' s' w'
      | (Thrown msg, w') => (Thrown msg, w')
      end
  end.

(** [idsRegistry[selfCollectionName].set(key, id)]: the call throws when
    [idsRegistry[selfCollectionName]] is no [Map] *)
Definition set_id (self key : string) (id : Z) (w : world) : outcome unit * world :=
  match registry_get (idsRegistry w) self with
  | OwnMap _ => (Returned tt, with_registry (registry_set self key id (idsRegistry w)) w)
  | Inherited => (Thrown "idsRegistry[selfCollectionName].set is not a function", w)
  | Missing => (Thrown "Cannot read properties of undefined (reading 'set')", w)
  end.

(** [idsRegistry[self].set(r.mongo_id, existingMap.get(r.mongo_id))], for
    [r] in [toSkip], where [existingMap] has [r.mongo_id] *)
Definition record_existing (self : string) (existingMap : idmap) (_ : unit) (w : world)
    (r : loc) : outcome unit * world :=
  match mongo_id_of w r with
  | VStr s =>
      match existingMap !! s with
      | Some id => set_id self s id w
      | None => (Returned tt, w)
      end
  | _ => (Returned tt, w)
  end.

(** [idsRegistry[self].set(String(row.mongo_id), Number(row.id))] *)
Definition record_inserted (self : string) (_ : unit) (w : world) (row : Z * value)
  : outcome unit * world :=
  set_id self (String_ (snd row)) (fst row) w.

Definition upsert (table self : string) (prepared : list loc) (w : world)
  : outcome unit * world :=
  let mongoIds := List.filter truthy (map (mongo_id_of w) prepared) in
  match trx_select w table mongoIds with
  | (Thrown msg, w0) => (Thrown msg, w0)
  | (Returned existing, w0) =>
      let existingMap := make_existingMap existing in
      let toInsert := toInsert_of existingMap w0 prepared in
      let toSkip := toSkip_of existingMap w0 prepared in
      let skipped :=
        match toSkip with
        | [] => (Returned tt, w0)
        | _ :: _ =>
            for_each (record_existing self existingMap) toSkip tt
                     (emit (LogAlreadyExist table (length toSkip)) w0)
        end in
      match skipped with
      | (Thrown msg, w1) => (Thrown msg, w1)
      | (Returned _, w1) =>
          match toInsert with
          | [] => (Returned tt, emit (LogInserted table 0) w1)
          | _ :: _ =>
              match trx_insert w1 table (map (object_at w1) toInsert) with
              | (Thrown msg, w2) => (Thrown msg, w2)
              | (Returned inserted, w2) =>
                  match for_each (record_inserted self) inserted tt w2 with
                  | (Thrown msg, w3) => (Thrown msg, w3)
                  | (Returned _, w3) =>
                      (Returned tt, emit (LogInserted table (length inserted)) w3)
                  end
              end
          end
      end
  end.

(** *** Link tables *)

(** [for (const [collectionName, idMap] of Object.entries(idsRegistry))
       if (idMap.has(key)) { foreignSqlId = idMap.get(key); break; }] *)
Fixpoint scan_registry (entries : jsobj idmap) (key : string) : option Z :=
  match entries with
  | [] => None
  | (_, idMap) :: rest =>
      match idMap !! key with
      | Some id => Some id
      | None => scan_registry rest key
      end
  end.

(** [!id] for an id that may be missing *)
Definition no_id (id : option Z) : bool :=
  match id with
  | Some z => (z =? 0)%Z
  | None => true
  end.

(** [{ [selfIdCol]: selfSqlId, [foreignIdCol]: foreignSqlId }] *)
Definition link_base (cfg : link_cfg) (selfSqlId foreignSqlId : Z) : jsobj value :=
  obj_set (foreignIdCol cfg) (VNum foreignSqlId)
    (obj_set (selfIdCol cfg) (VNum selfSqlId) []).

(** the body of [for (const foreignOldId of raw[arrayField])] *)
Definition link_element (cfg : link_cfg) (selfSqlId : Z) (raw : jsobj value)
    (linkRows : list (jsobj value)) (w : world) (foreignOldId : value)
  : outcome (list (jsobj value)) * world :=
  let foreignSqlId := scan_registry (idsRegistry w) (String_ foreignOldId) in
  if no_id foreignSqlId then (Returned linkRows, emit (WarnLinkSkipMissingFk foreignOldId) w)
  else
    let fid := default 0%Z foreignSqlId in
    let base := link_base cfg selfSqlId fid in
    match transform cfg with
    | Some f =>
        match f selfSqlId fid raw with
        | Returned extra => (Returned (linkRows ++ [obj_assign base (default [] extra)]), w)
        | Thrown msg => (Thrown msg, w)
        end
    | None => (Returned (linkRows ++ [base]), w)
    end.

(** [idsRegistry[selfCollectionName].get(String(raw.mongo_id))]: the call
    throws when [idsRegistry[selfCollectionName]] is no [Map] *)
Definition self_sql_id (self : string) (w : world) (raw : jsobj value)
  : outcome (option Z) :=
  match registry_get (idsRegistry w) self with
  | OwnMap m => Returned (m !! String_ (prop raw "mongo_id"))
  | Inherited => Thrown "idsRegistry[selfCollectionName].get is not a function"
  | Missing => Thrown "Cannot read properties of undefined (reading 'get')"
  end.

(** the body of [for (const raw of rows)] *)
Definition link_record (self arrayField : string) (cfg : link_cfg)
    (linkRows : list (jsobj value)) (w : world) (row : loc)
  : outcome (list (jsobj value)) * world :=
  let raw := object_at w row in
  match prop raw arrayField with
  | VArr ((_ :: _) as elems) =>
      match self_sql_id self w raw with
      | Thrown msg => (Thrown msg, w)
      | Returned selfSqlId =>
          if no_id selfSqlId
          then (Returned linkRows, emit (WarnLinkSkipNoSqlId self (prop raw "mongo_id")) w)
          else for_each (link_element cfg (default 0%Z selfSqlId) raw) elems linkRows w
      end
  | _ => (Returned linkRows, w)
  end.

(** [linkRows] once the loop over [rows] is through *)
Definition gather_linkRows (self arrayField : string) (cfg : link_cfg) (rows : list loc)
    (w : world) : outcome (list (jsobj value)) * world :=
  for_each (link_record self arrayField cfg) rows [] w.

(** the body of [for (const [arrayField, [linkTable, ...]] of Object.entries(links))];
    an error of the link insert is caught and logged *)
Definition link_field (table self : string) (rows : list loc) (_ : unit) (w : world)
    (e : string * link_cfg) : outcome unit * world :=
  let (arrayField, cfg) := e in
  match gather_linkRows self arrayField cfg rows w with
  | (Thrown msg, w1) => (Thrown msg, w1)
  | (Returned [], w1) => (Returned tt, w1)
  | (Returned ((_ :: _) as linkRows), w1) =>
      let w2 :=
        match trx_insert w1 (linkTable cfg) linkRows with
        | (Returned _, w') => w'
        | (Thrown msg, w') => emit (WarnLinkInsert (linkTable cfg) msg) w'
        end in
      (Returned tt, emit (LogLinkInserted table (linkTable cfg) (length linkRows)) w2)
  end.

(** *** The transaction and the function *)

(** [knex.transaction(async (trx) => body)]: when the body returns, the
    transaction is committed, which rolls it back when a statement had
    aborted it; when the body throws, it is rolled back and the error is
    thrown on.  A rollback restores the tables. *)
Definition transaction (body : world -> outcome unit * world) (w : world)
  : outcome unit * world :=
  match body (with_aborted false w) with
  | (Returned a, w') =>
      (Returned a, with_aborted false (if aborted w' then with_db (db w) w' else w'))
  | (Thrown msg, w') => (Thrown msg, with_aborted false (with_db (db w) w'))
  end.

(** the callback of [knex.transaction] *)
Definition unit_of_work (table : string) (rows : list loc) (options : PutOptions)
    (self : string) (w : world) : outcome unit * world :=
  let w0 := ensure_mongo_id_column table w in
  match map_rows (prepare_row table options) w0 rows with
  | (Thrown msg, w1) => (Thrown msg, w1)
  | (Returned prepared, w1) =>
      match upsert table self prepared w1 with
      | (Thrown msg, w2) => (Thrown msg, w2)
      | (Returned _, w2) => for_each (link_field table self rows) (links options) tt w2
      end
  end.

(** [if (!idsRegistry[selfCollectionName]) idsRegistry[selfCollectionName] = new Map()] *)
Definition ensure_self_map (self : string) (w : world) : world :=
  match registry_get (idsRegistry w) self with
  | Missing => with_registry (obj_set self ∅ (idsRegistry w)) w
  | _ => w
  end.

Definition putToPostgres (table : string) (rows : list loc) (options : PutOptions)
    (self : string) (w : world) : outcome unit * world :=
  match rows with
  | [] => (Returned tt, emit (LogNothingToInsert table) w)
  | _ :: _ => transaction (unit_of_work table rows options self) (ensure_self_map self w)
  end.

End Put.
Export Put.
(** ** Vocabulary for the properties *)

(** [resolve(collection, source_id)]: what the registry holds for a pair *)
Definition resolve (registry : jsobj idmap) (collection key : string) : option Z :=
  match obj_get registry collection with
  | Some m => m !! key
  | None => None
  end.

(** The four stages on the contents of one record, with the warnings of all
    of them: what the copy made by [prepare_row] ends up as. *)
Definition after_rename (options : PutOptions) (raw : jsobj value) : jsobj value :=
  fst (rename_stage (rename options) raw).

Definition after_redefine (table : string) (options : PutOptions) (raw : jsobj value)
  : jsobj value :=
  fst (snd (redefine_stage table (redefine options) (after_rename options raw))).

Definition after_fk (table : string) (options : PutOptions) (registry : jsobj idmap)
    (raw : jsobj value) : jsobj value :=
  fst (snd (fk_stage table registry (foreignKeys options)
              (after_redefine table options raw))).

(** whether preparing a record throws, and with what message: the handler
    of the redefine stage, or the foreign-key stage on a map that is none *)
Definition prepare_throws (table : string) (options : PutOptions) (registry : jsobj idmap)
    (raw : jsobj value) : option string :=
  match fst (redefine_stage table (redefine options) (after_rename options raw)) with
  | Thrown msg => Some msg
  | Returned _ =>
      match fst (fk_stage table registry (foreignKeys options)
                   (after_redefine table options raw)) with
      | Thrown msg => Some msg
      | Returned _ => None
      end
  end.

(** what the copy made by [prepare_row] ends up as, with the warnings
    printed on the way: the outcome of the four stages, or of the first
    ones as far as they got when one of them throws *)
Definition transform_row (table : string) (options : PutOptions) (registry : jsobj idmap)
    (raw : jsobj value) : stage :=
  let s1 := rename_stage (rename options) raw in
  let s2 := redefine_stage table (redefine options) (fst s1) in
  match fst s2 with
  | Thrown _ => (fst (snd s2), snd s1 ++ snd (snd s2))
  | Returned _ =>
      let s3 := fk_stage table registry (foreignKeys options) (fst (snd s2)) in
      match fst s3 with
      | Thrown _ => (fst (snd s3), snd s1 ++ snd (snd s2) ++ snd (snd s3))
      | Returned _ =>
          let s4 := elide_stage table (links options) (fst (snd s3)) in
          (fst s4, snd s1 ++ snd (snd s2) ++ snd (snd s3) ++ snd s4)
      end
  end.

(** the copies [rows.map] makes, in order, read off a heap that grows with
    each of them, up to the one on which preparing throws *)
Fixpoint prepared_objects (table : string) (options : PutOptions) (reg : jsobj idmap)
    (h : list (jsobj value)) (rows : list loc) : list (jsobj value) * list event :=
  match rows with
  | [] => ([], [])
  | row :: rest =>
      let t := transform_row table options reg (default [] (h !! row)) in
      match prepare_throws table options reg (default [] (h !! row)) with
      | Some _ => ([fst t], snd t)
      | None =>
          let rec := prepared_objects table options reg (h ++ [fst t]) rest in
          (fst t :: fst rec, snd t ++ snd rec)
      end
  end.

(** the message [rows.map] throws with, if it throws *)
Fixpoint prepared_throws (table : string) (options : PutOptions) (reg : jsobj idmap)
    (h : list (jsobj value)) (rows : list loc) : option string :=
  match rows with
  | [] => None
  | row :: rest =>
      match prepare_throws table options reg (default [] (h !! row)) with
      | Some msg => Some msg
      | None =>
          prepared_throws table options reg
            (h ++ [fst (transform_row table options reg (default [] (h !! row)))]) rest
      end
  end.

(** preparing throws on no record of [rows], in a call for the collection
    [self] *)
Definition prepares (table : string) (options : PutOptions) (self : string) (w : world)
    (rows : list loc) : Prop :=
  Forall (fun row => prepare_throws table options (idsRegistry (ensure_self_map self w))
                       (object_at w row) = None) rows.

(** the world the schema safeguard of a call leaves *)
Definition checked (table self : string) (w : world) : world :=
  ensure_mongo_id_column table (with_aborted false (ensure_self_map self w)).

(** the world the upsert of a call starts in, and the prepared rows (none
    when preparing them throws) *)
Definition prepared_of (table : string) (rows : list loc) (options : PutOptions)
    (self : string) (w : world) : world * list loc :=
  let res := map_rows (prepare_row table options)
               (ensure_mongo_id_column table (with_aborted false (ensure_self_map self w)))
               rows in
  (snd res, match fst res with
            | Returned prepared => prepared
            | Thrown _ => []
            end).

(** what the callback of [knex.transaction] does in a call *)
Definition unit_result (table : string) (rows : list loc) (options : PutOptions)
    (self : string) (w : world) : outcome unit * world :=
  unit_of_work table rows options self (with_aborted false (ensure_self_map self w)).

(** the transaction of a call committed: its body returned and no
    statement had aborted it *)
Definition committed (table : string) (rows : list loc) (options : PutOptions)
    (self : string) (w : world) : Prop :=
  fst (unit_result table rows options self w) = Returned tt
  /\ aborted (snd (unit_result table rows options self w)) = false.

(** A foreign-key value finds an id: the map of the foreign collection is
    there and has the value, or, for an array, one of its elements. *)
Definition fk_resolves (registry : jsobj idmap) (foreignCollection : string)
    (oldVal : value) : bool :=
  match obj_get registry foreignCollection with
  | None => false
  | Some fkMap =>
      match oldVal with
      | VArr ids =>
          existsb (fun id => negb (nullish id)
                             && bool_decide (is_Some (fkMap !! String_ id))) ids
      | _ => bool_decide (is_Some (fkMap !! String_ oldVal))
      end
  end.

(** the warnings of the foreign-key stage about one field *)
Definition fk_warning (table field : string) (e : event) : bool :=
  match e with
  | WarnMissingCollectionMap t f _ | WarnLostFks t f _ | WarnMissingFk t f _ =>
      bool_decide (t = table ∧ f = field)
  | _ => false
  end.

(** the [mongo_id] texts a table holds *)
Definition table_ids (t : pg_table) : list string :=
  omap (fun x : Z * jsobj value => mongo_text (snd x)) (t_rows t).

(** an identifier as the extractor makes it ([o.mongo_id = String(o._id)]):
    a string, or nothing usable *)
Definition id_is_string (v : value) : bool :=
  match v with
  | VStr _ => true
  | _ => negb (truthy v)
  end.

(** the elements of an array field of a record, and their number over a
    collection *)
Definition array_elems (v : value) : list value :=
  match v with
  | VArr elems => elems
  | _ => []
  end.

Definition element_count (w : world) (arrayField : string) (rows : list loc) : nat :=
  sum_list (map (fun row => length (array_elems (prop (object_at w row) arrayField))) rows).

(** what a phase leaves alone *)
Definition same_heap (w w' : world) : Prop := heap w' = heap w.
Definition same_registry (w w' : world) : Prop := idsRegistry w' = idsRegistry w.
Definition reads_only (w w' : world) : Prop :=
  same_heap w w' /\ same_registry w w' /\ db w' = db w.
Definition keeps_records (w w' : world) : Prop := same_heap w w' /\ same_registry w w'.

(** the keys the elision loop deletes when it runs over the entries [es] *)
Definition dropped (lk : jsobj link_cfg) (es : jsobj value) (key : string) : bool :=
  existsb (fun e => isArray (snd e) && negb (links_has lk (fst e)) && bool_decide (key = fst e)) es.

(** no array-valued field but those [links[key]] is truthy for *)
Definition no_unlinked_array (lk : jsobj link_cfg) (r : jsobj value) : Prop :=
  forall key val, obj_get r key = Some val -> isArray val = true -> links_has lk key = true.

(** a run of [idsRegistry[self].set(key, id)] *)
Definition set_all (self : string) (pairs : list (string * Z)) (registry : jsobj idmap)
  : jsobj idmap :=
  foldl (fun reg kv => registry_set self (fst kv) (snd kv) reg) registry pairs.

(** the pairs the loop over [toSkip] records, and those the loop over
    [inserted] records *)
Definition skip_pairs (existingMap : idmap) (w : world) (toSkip : list loc)
  : list (string * Z) :=
  omap (fun r => match mongo_id_of w r with
                 | VStr s =>
                     match existingMap !! s with
                     | Some id => Some (s, id)
                     | None => None
                     end
                 | _ => None
                 end) toSkip.

Definition inserted_pairs (inserted : list (Z * value)) : list (string * Z) :=
  map (fun row => (String_ (snd row), fst row)) inserted.

(** the error of [idsRegistry[self].set(...)], when [idsRegistry[self]] is
    no [Map] *)
Definition set_error (registry : jsobj idmap) (self : string) : option string :=
  match registry_get registry self with
  | OwnMap _ => None
  | Inherited => Some "idsRegistry[selfCollectionName].set is not a function"
  | Missing => Some "Cannot read properties of undefined (reading 'set')"
  end.

(** how a run of [set]s over [pairs] ends *)
Definition sets_outcome {A} (registry : jsobj idmap) (self : string) (pairs : list A)
  : outcome unit :=
  match set_error registry self, pairs with
  | Some msg, _ :: _ => Thrown msg
  | _, _ => Returned tt
  end.

(** the binding a run of [set]s leaves for a key: the last one *)
Definition last_binding (pairs : list (string * Z)) (key : string) : option Z :=
  obj_get (rev pairs) key.

(** the rows an insert of [toInsert] adds to the table *)
Definition new_rows (table : string) (w : world) (toInsert : list loc)
  : list (Z * jsobj value) :=
  number_rows (serial_of (serials w) table) (map pg_store_row (map (object_at w) toInsert)).

(** what the store and the console can only gain *)
Definition rows_kept (w w' : world) : Prop :=
  forall table x, In x (rows_of (db w) table) -> In x (rows_of (db w') table).

Definition console_grows (w w' : world) : Prop := console w `prefix_of` console w'.

(** the serial counters only move forward *)
Definition serials_grow (w w' : world) : Prop :=
  forall table, (serial_of (serials w) table <= serial_of (serials w') table)%Z.

Definition table_untouched (table : string) (w w' : world) : Prop :=
  db w' !! table = db w !! table.

(** ** Concrete collections

    The collections of the design notes ([departments], [awards],
    [employees]) and variations of them. *)

Module Scenarios.

(** tables that take every row: each field of the rows has its column *)
Definition accept_all : (string -> list (Z * jsobj value)) -> list (jsobj value) -> option nat :=
  fun _ _ => None.

Definition empty_table : pg_table := PgTable true true [] accept_all true.
Definition plain_table : pg_table := PgTable false false [] accept_all true.

Definition no_options : PutOptions := Options [] [] [] [].

Definition departments_world : world :=
  World [[("mongo_id", VStr "d1"); ("name", VStr "Eng")]]
        {["departments" := empty_table]} [] [] ∅ false.

Definition after_departments : world :=
  snd (putToPostgres "departments" [0%nat] no_options "departments" departments_world).

(** [employees] with a foreign key on [department] *)
Definition employees_options : PutOptions :=
  Options [] [] [("department", "departments")] [].

Definition ann : jsobj value :=
  [("mongo_id", VStr "e1"); ("name", VStr "Ann"); ("department", VStr "d1")].

Definition employees_world : world :=
  World [ann] {["employees" := empty_table]} [("departments", {["d1" := 1%Z]})] [] ∅ false.

(** [employees] with links to [awards] *)
Definition award_link : link_cfg := LinkCfg "employees_awards" "employee_id" "award_id" None.

Definition awards_options : PutOptions := Options [] [] [] [("award_ids", award_link)].

Definition bob : jsobj value :=
  [("mongo_id", VStr "e2"); ("name", VStr "Bob");
   ("award_ids", VArr [VStr "a1"; VStr "a9"])].

Definition awards_world : world :=
  World [bob]
        {["employees" := empty_table; "employees_awards" := plain_table]}
        [("awards", {["a1" := 1%Z]})] [] ∅ false.

(** a call that is rolled back: [e1] is in the table, [e2] is new, and the
    [transform] of the link throws *)
Definition throwing_link : link_cfg :=
  LinkCfg "employees_awards" "employee_id" "award_id"
          (Some (fun _ _ _ => Thrown "transform failed")).

Definition throwing_options : PutOptions := Options [] [] [] [("award_ids", throwing_link)].

Definition ann_row : jsobj value := [("mongo_id", VStr "e1"); ("name", VStr "Ann")].

Definition bob_a1 : jsobj value :=
  [("mongo_id", VStr "e2"); ("name", VStr "Bob"); ("award_ids", VArr [VStr "a1"])].

Definition rollback_world : world :=
  World [ann_row; bob_a1]
        {["employees" := PgTable true true [(1%Z, ann_row)] accept_all true;
          "employees_awards" := plain_table]}
        [("awards", {["a1" := 1%Z]})] [] {["employees" := 2%Z]} false.

(** an array field with a twin entry in [foreignKeys], and an id that two
    collections have *)
Definition twin_options : PutOptions :=
  Options [] [] [("award_ids", "awards")] [("award_ids", award_link)].

Definition twin_world : world :=
  World [[("mongo_id", VStr "e1"); ("award_ids", VArr [VStr "x"])]]
        {["employees" := empty_table; "employees_awards" := plain_table]}
        [("departments", {["x" := 7%Z]}); ("awards", {["x" := 3%Z]})] [] ∅ false.

(** a pair that is registered with one id while the table has another *)
Definition conflict_world : world :=
  World [ann_row]
        {["employees" := PgTable true true [(9%Z, ann_row)] accept_all true]}
        [("employees", {["e1" := 5%Z]})] [] {["employees" := 10%Z]} false.

(** a record without [mongo_id] that has an award *)
Definition anonymous_world : world :=
  World [[("name", VStr "Bob"); ("award_ids", VArr [VStr "a1"])]]
        {["employees" := empty_table; "employees_awards" := plain_table]}
        [("awards", {["a1" := 1%Z]})] [] ∅ false.

(** a foreign key that finds nothing: department [d9] is not registered *)
Definition ann_d9 : jsobj value :=
  [("mongo_id", VStr "e1"); ("name", VStr "Ann"); ("department", VStr "d9")].

Definition unresolved_world : world :=
  World [ann_d9] {["employees" := empty_table]} [("departments", {["d1" := 1%Z]})] [] ∅ false.

(** a [redefine] entry that throws, and one that returns *)
Definition redefine_options : PutOptions :=
  Options []
          [("name", fun _ _ => Throw (Error_ "bad name"));
           ("age", fun v _ => Normal (VStr (String_ v)))]
          [] [].

Definition carl : jsobj value :=
  [("mongo_id", VStr "e3"); ("name", VStr "Carl"); ("age", VNum 41)].

(** a record with an array that [links] does not name *)
Definition tags_world : world :=
  World [[("mongo_id", VStr "e4"); ("tags", VArr [VStr "a"; VStr "b"])]]
        {["employees" := empty_table]} [] [] ∅ false.

Definition tags_row : jsobj value :=
  [("mongo_id", VStr "e4"); ("tags", VArr [VStr "a"; VStr "b"])].

(** [employees] once [e2] is registered, before its links are written *)
Definition linked_world : world :=
  World [bob_a1]
        {["employees" := PgTable true true [(2%Z, bob_a1)] accept_all true;
          "employees_awards" := plain_table]}
        [("awards", {["a1" := 1%Z]}); ("employees", {["e2" := 2%Z]})] [] {["employees" := 3%Z]} false.

(** the calls *)
Definition rollback_result : outcome unit * world :=
  putToPostgres "employees" [0%nat; 1%nat] throwing_options "employees" rollback_world.

(** the same new record twice: the batched insert breaks the unique
    constraint on [mongo_id] *)
Definition duplicate_result : outcome unit * world :=
  putToPostgres "employees" [0%nat; 1%nat; 1%nat] no_options "employees" rollback_world.

Definition twin_result : outcome unit * world :=
  putToPostgres "employees" [0%nat] twin_options "employees" twin_world.

Definition conflict_result : outcome unit * world :=
  putToPostgres "employees" [0%nat] no_options "employees" conflict_world.

Definition anonymous_result : outcome unit * world :=
  putToPostgres "employees" [0%nat] awards_options "employees" anonymous_world.

End Scenarios.

(** arithmetic on lengths of lists of records and of references *)
Ltac list_lia := unfold loc, jsobj in *; lia.


(** ** More vocabulary: the stages one by one *)

(** the new names of a [rename] configuration *)
Definition targets (rn : jsobj string) : list string := map snd rn.

(** No field is renamed to [__proto__]: the prepared rows inherit from
    [Object.prototype] like the records, and [r.mongo_id] is a property of
    their own or undefined. *)
Definition plain_rows (options : PutOptions) : Prop :=
  "__proto__" ∉ targets (rename options).

(** an element of a foreign-key array that finds an id *)
Definition fk_element_resolves (fkMap : idmap) (id : value) : bool :=
  negb (nullish id) && bool_decide (is_Some (fkMap !! String_ id)).

(** the warnings of the elision loop: one for each entry it drops *)
Definition dropped_warnings (table : string) (lk : jsobj link_cfg) (r : jsobj value)
  : list event :=
  map (fun e => WarnDroppedArray table (fst e))
      (List.filter (fun e => isArray (snd e) && negb (links_has lk (fst e))) r).

(** the schema of a table, as far as the function looks at it: whether it
    has the [mongo_id] column, and whether the column is unique *)
Definition flags (t : pg_table) : bool * bool := (t_mongo_id t, t_unique t).

Definition schema_kept (w w' : world) : Prop :=
  forall tbl, flags <$> (db w' !! tbl) = flags <$> (db w !! tbl).

(** [transform(selfSqlId, foreignSqlId, raw) || {}], or [{}] without a
    [transform] *)
Definition link_extra (cfg : link_cfg) (selfSqlId foreignSqlId : Z) (raw : jsobj value)
  : jsobj value :=
  match transform cfg with
  | Some f =>
      match f selfSqlId foreignSqlId raw with
      | Returned extra => default [] extra
      | Thrown _ => []
      end
  | None => []
  end.

(** no [transform] of [links] ever throws *)
Definition transforms_return (lk : jsobj link_cfg) : Prop :=
  forall cfg f a b o, In cfg (map snd lk) -> transform cfg = Some f ->
                      is_thrown (f a b o) = false.

(** the [mongo_id] values of the prepared rows of records of the heap *)
Definition prepared_ids (table : string) (options : PutOptions) (registry : jsobj idmap)
    (w : world) (rows : list loc) : list value :=
  map (fun row => prop (fst (transform_row table options registry (object_at w row)))
                       "mongo_id") rows.

(** the text a prepared row is looked up and stored under, when its
    [mongo_id] is truthy *)
Definition id_text (v : value) : option string :=
  if truthy v then Some (pg_text v) else None.

(** the prepared rows of records of the heap, as they are sent to the
    store *)
Definition stored_rows (table : string) (options : PutOptions) (self : string) (w : world)
    (rows : list loc) : list (jsobj value) :=
  map pg_store_row
      (map (fun row => fst (transform_row table options (idsRegistry (ensure_self_map self w))
                                          (object_at w row))) rows).

(** the table accepts the prepared rows, whichever of them the call sends:
    their columns are columns of the table, of their types, and the
    constraints of the table other than the one on [mongo_id] hold *)
Definition table_accepts (table : string) (options : PutOptions) (self : string) (w : world)
    (rows : list loc) (t : pg_table) : Prop :=
  forall batch,
    batch `sublist_of` stored_rows table options self w rows ->
    t_check t (rows_of (db (checked table self w))) batch = None.

(** * get-from-mongo.js: a shallow embedding of [getFromMongo]

    The extractor reads each collection through mongoose and returns the
    documents as plain objects with [mongo_id] in the place of [_id].  The
    source is reached through three calls, which are parameters of the
    model.  An [ObjectId] is carried as the value [String] is applied to
    (the string of its digits, for which [String] is the identity). *)

Module Mongo.

Inductive mongo_event : Type :=
| LogFetched (col : string) (n : nat)
| WarnReading (col msg : string).

(** [connect]: [mongoose.createConnection(uri, ...).asPromise()];
    [find]: [getModel(col)] and [Model.find({}, null, { lean: true })],
    asked after the collections read before it; [close]: [conn.close()]. *)
Record source : Type := Source {
  connect : value -> outcome unit;
  find : list string -> string -> outcome (list (jsobj value));
  close : outcome unit
}.

(** the callback of [docs.map]:
    [const o = { ...d }; if (o._id != null) { o.mongo_id = String(o._id); delete o._id; }
     delete o.__v; return o;] *)
Definition clean (d : jsobj value) : jsobj value :=
  let o := d in
  let o :=
    if nullish (prop o "_id") then o
    else obj_delete "_id" (obj_set "mongo_id" (VStr (String_ (prop o "_id"))) o) in
  obj_delete "__v" o.

(** [{ data, counts }] *)
Record fetched : Type := Fetched {
  data : jsobj (list (jsobj value));
  counts : jsobj nat
}.

(** the loop state: [data] and [counts], the console, and the collections
    read so far *)
Record reading : Type := Reading {
  so_far : fetched;
  printed : list mongo_event;
  seen : list string
}.

(** the body of [for (const col of collections)]: [try { ... } catch (err) { ... }] *)
Definition read_collection (src : source) (st : reading) (col : string) : reading :=
  match find src (seen st) col with
  | Returned docs =>
      let cleaned := map clean docs in
      Reading (Fetched (obj_set col cleaned (data (so_far st)))
                       (obj_set col (length cleaned) (counts (so_far st))))
              (printed st ++ [LogFetched col (length cleaned)])
              (seen st ++ [col])
  | Thrown msg =>
      Reading (Fetched (obj_set col [] (data (so_far st)))
                       (obj_set col 0%nat (counts (so_far st))))
              (printed st ++ [WarnReading col msg])
              (seen st ++ [col])
  end.

Definition read_all (src : source) (collections : list string) : reading :=
  foldl (read_collection src) (Reading (Fetched [] []) [] []) collections.

(** the result of the call, and what it printed *)
Definition getFromMongo (src : source) (uri : value) (collections : list string)
  : outcome fetched * list mongo_event :=
  if negb (truthy uri) then (Thrown "Mongo URI missing", [])
  else
    match connect src uri with
    | Thrown msg => (Thrown msg, [])
    | Returned _ =>
        let st := read_all src collections in
        match close src with
        | Thrown msg => (Thrown msg, printed st)
        | Returned _ => (Returned (so_far st), printed st)
        end
    end.

End Mongo.

(** ** More concrete collections *)

Module MoreScenarios.
Import Scenarios.

(** a renamed field *)
Definition rename_options : PutOptions := Options [("fullName", "name")] [] [] [].

Definition dora : jsobj value := [("mongo_id", VStr "e5"); ("fullName", VStr "Dora")].

(** a foreign key that is [null], and one that holds an array *)
Definition eve : jsobj value := [("mongo_id", VStr "e6"); ("department", VNull)].

Definition fay : jsobj value :=
  [("department", VArr [VNull; VStr "d9"; VStr "d1"; VStr "d2"])].

Definition two_departments : jsobj idmap :=
  [("departments", {["d1" := 1%Z; "d2" := 2%Z]})].

(** no table at all, and a table without the [mongo_id] column *)
Definition no_table_world : world := World [ann_row] ∅ [] [] ∅ false.

Definition plain_world : world :=
  World [ann_row] {["employees" := plain_table]} [] [] ∅ false.

(** a table without the [mongo_id] column in a store that prohibits schema
    changes *)
Definition locked_world : world :=
  World [ann_row] {["employees" := PgTable false false [] accept_all false]} [] [] ∅ false.

Definition locked_result : outcome unit * world :=
  putToPostgres "employees" [0%nat] no_options "employees" locked_world.

(** a source with two collections, of which [awards] cannot be read *)
Definition eng : jsobj value := [("_id", VStr "64a"); ("name", VStr "Eng"); ("__v", VNum 0)].
Definition ops : jsobj value := [("_id", VStr "64b"); ("name", VStr "Ops"); ("__v", VNum 0)].

Definition demo_source : Mongo.source :=
  Mongo.Source (fun _ => Returned tt)
               (fun _ col => if bool_decide (col = "awards") then Thrown "boom"
                             else Returned [eng; ops])
               (Returned tt).

(** a table that has the columns it was created with and no other *)
Definition columns_check (cols : list string)
  : (string -> list (Z * jsobj value)) -> list (jsobj value) -> option nat :=
  fun _ batch =>
    if forallb (fun o => forallb (fun k => bool_decide (k ∈ cols)) (keys o)) batch
    then None else Some 0.

(** [employees] as the set-up script creates it, with the [mongo_id] column *)
Definition employees_table : pg_table :=
  PgTable true true []
          (columns_check ["id"; "mongo_id"; "name"; "department"; "created_at"; "updated_at"])
          true.

(** [departments] as the set-up script creates it, without the [mongo_id]
    column: the call adds it *)
Definition departments_table : pg_table :=
  PgTable false false []
          (columns_check ["id"; "mongo_id"; "name"; "dep_type"; "created_at"; "updated_at"])
          true.

(** the cleaned documents, to be loaded *)
Definition cleaned_world : world :=
  World [Mongo.clean eng; Mongo.clean ops] {["departments" := departments_table]} [] [] ∅
        false.

(** a link table with a unique constraint on its pair of columns: a batch
    is rejected at the first row that repeats a pair, after one id was drawn
    for each row up to it *)
Definition pair_of (o : jsobj value) : option (Z * Z) :=
  match prop o "employee_id", prop o "award_id" with
  | VNum a, VNum b => Some (a, b)
  | _, _ => None
  end.

Fixpoint pair_clash (seen : list (Z * Z)) (batch : list (jsobj value)) : option nat :=
  match batch with
  | [] => None
  | o :: rest =>
      match pair_of o with
      | Some p => if bool_decide (p ∈ seen) then Some 1 else S <$> pair_clash (p :: seen) rest
      | None => S <$> pair_clash seen rest
      end
  end.

Definition unique_pairs (tbl : string)
  : (string -> list (Z * jsobj value)) -> list (jsobj value) -> option nat :=
  fun rows batch => pair_clash (omap (fun x => pair_of (snd x)) (rows tbl)) batch.

(** [employees] is empty and its link table still has the pair (1, 1) *)
Definition stale_link_world : world :=
  World [bob_a1]
        {["employees" := empty_table;
          "employees_awards" :=
            PgTable false false
                    [(1%Z, [("employee_id", VNum 1); ("award_id", VNum 1)])]
                    (unique_pairs "employees_awards") true]}
        [("awards", {["a1" := 1%Z]})] [] {["employees_awards" := 2%Z]} false.

Definition stale_first : outcome unit * world :=
  putToPostgres "employees" [0%nat] awards_options "employees" stale_link_world.

Definition stale_second : outcome unit * world :=
  putToPostgres "employees" [0%nat] awards_options "employees" (snd stale_first).

(** a link whose [transform] sets the foreign column itself *)
Definition overriding_link : link_cfg :=
  LinkCfg "employees_awards" "employee_id" "award_id"
          (Some (fun _ _ _ => Returned (Some [("award_id", VNum 99); ("rank", VNum 1)]))).

(** a foreign key that holds an empty array *)
Definition gil : jsobj value := [("mongo_id", VStr "e7"); ("department", VArr [])].

Definition empty_fk_world : world :=
  World [gil] {["employees" := empty_table]} [("departments", {["d1" := 1%Z]})] [] ∅ false.

Definition empty_fk_result : outcome unit * world :=
  putToPostgres "employees" [0%nat] employees_options "employees" empty_fk_world.

(** a record without [mongo_id] whose department is not registered *)
Definition nameless_world : world :=
  World [[("name", VStr "Ann"); ("department", VStr "d9")]]
        {["employees" := empty_table]} [("departments", {["d1" := 1%Z]})] [] ∅ false.

Definition nameless_result : outcome unit * world :=
  putToPostgres "employees" [0%nat] employees_options "employees" nameless_world.

(** a record with an array field named like a member of [Object.prototype] *)
Definition hal : jsobj value :=
  [("mongo_id", VStr "e8"); ("constructor", VArr [VStr "a"; VStr "b"])].

Definition inherited_field_world : world :=
  World [hal] {["employees" := empty_table]} [] [] ∅ false.

Definition inherited_field_result : outcome unit * world :=
  putToPostgres "employees" [0%nat] no_options "employees" inherited_field_world.

(** a [redefine] entry whose mapper throws [null] *)
Definition null_throw_options : PutOptions :=
  Options [] [("name", fun _ _ => Throw VNull)] [] [].

Definition carl_world : world :=
  World [carl] {["employees" := empty_table]} [] [] ∅ false.

Definition null_throw_result : outcome unit * world :=
  putToPostgres "employees" [0%nat] null_throw_options "employees" carl_world.

(** [employees] with a registered department, in a table with its columns *)
Definition staff_world : world :=
  World [ann] {["employees" := employees_table]} [("departments", {["d1" := 1%Z]})] []
        ∅ false.

Definition schema_world : world :=
  World [bob]
        {["employees" := employees_table; "employees_awards" := plain_table]}
        [("awards", {["a1" := 1%Z]})] [] ∅ false.

Definition schema_result : outcome unit * world :=
  putToPostgres "employees" [0%nat] awards_options "employees" schema_world.

End MoreScenarios.
(** ** Properties of objects *)

Section ObjectFacts.
Context {A : Type}.
Implicit Types (o : jsobj A) (k : string) (v : A).

Lemma obj_has_true o k : obj_has o k = true <-> is_Some (obj_get o k).
Proof.
  unfold obj_has. destruct (obj_get o k); split; intros H; eauto.
  - discriminate.
  - destruct H; discriminate.
Qed.

Lemma obj_has_false o k : obj_has o k = false <-> obj_get o k = None.
Proof. unfold obj_has. destruct (obj_get o k); split; congruence. Qed.

Lemma obj_get_In o k v : obj_get o k = Some v -> In (k, v) o.
Proof.
  induction o as [|[k' v'] o IH]; simpl; [discriminate|].
  destruct (decide (k' = k)) as [->|]; intros H.
  - left. congruence.
  - right. auto.
Qed.

Lemma obj_get_update_eq o k v : obj_get (obj_update k v o) k = (fun _ => v) <$> obj_get o k.
Proof.
  induction o as [|[k' v'] o IH]; simpl; [reflexivity|].
  destruct (decide (k' = k)) as [->|Hne]; simpl.
  - destruct (decide (k = k)); [reflexivity | contradiction].
  - destruct (decide (k' = k)); [contradiction | exact IH].
Qed.

Lemma obj_get_update_ne o k k' v : k <> k' -> obj_get (obj_update k v o) k' = obj_get o k'.
Proof.
  intros Hne. induction o as [|[k0 v0] o IH]; simpl; [reflexivity|].
  destruct (decide (k0 = k)) as [->|]; simpl.
  - destruct (decide (k = k')); [contradiction | reflexivity].
  - destruct (decide (k0 = k')); [reflexivity | exact IH].
Qed.

Lemma obj_get_app o o' k :
  obj_get (o ++ o') k = match obj_get o k with Some v => Some v | None => obj_get o' k end.
Proof.
  induction o as [|[k0 v0] o IH]; simpl; [reflexivity|].
  destruct (decide (k0 = k)); [reflexivity | exact IH].
Qed.

Lemma obj_get_add_index n o k k' v :
  obj_get o k = None ->
  obj_get (obj_add_index n k v o) k'
  = if decide (k = k') then Some v else obj_get o k'.
Proof.
  induction o as [|[k0 v0] o IH]; simpl; intros Hk.
  - destruct (decide (k = k')); reflexivity.
  - destruct (decide (k0 = k)) as [|Hk0]; [discriminate|].
    destruct (array_index k0) as [n'|]; [destruct (n' <? n)%N|]; simpl.
    + rewrite (IH Hk). destruct (decide (k0 = k')) as [->|]; [|reflexivity].
      destruct (decide (k = k')); [congruence | reflexivity].
    + destruct (decide (k = k')); reflexivity.
    + destruct (decide (k = k')); reflexivity.
Qed.

Lemma obj_get_add o k k' v :
  obj_get o k = None ->
  obj_get (obj_add k v o) k' = if decide (k = k') then Some v else obj_get o k'.
Proof.
  intros Hk. unfold obj_add. destruct (array_index k).
  - apply obj_get_add_index, Hk.
  - rewrite obj_get_app. simpl.
    destruct (decide (k = k')) as [<-|]; [rewrite Hk; reflexivity|].
    destruct (obj_get o k'); reflexivity.
Qed.

Lemma obj_get_set o k k' v :
  obj_get (obj_set k v o) k' = if decide (k = k') then Some v else obj_get o k'.
Proof.
  unfold obj_set. destruct (obj_has o k) eqn:Hh.
  - apply obj_has_true in Hh as [x Hx].
    destruct (decide (k = k')) as [<-|Hne].
    + rewrite obj_get_update_eq, Hx. reflexivity.
    + apply obj_get_update_ne, Hne.
  - apply obj_has_false in Hh. apply obj_get_add, Hh.
Qed.

Lemma obj_get_set_eq o k v : obj_get (obj_set k v o) k = Some v.
Proof. rewrite obj_get_set. destruct (decide (k = k)); [reflexivity | contradiction]. Qed.

Lemma obj_get_set_ne o k k' v : k <> k' -> obj_get (obj_set k v o) k' = obj_get o k'.
Proof. intros H. rewrite obj_get_set. destruct (decide (k = k')); [contradiction | reflexivity]. Qed.

Lemma obj_get_delete o k k' :
  obj_get (obj_delete k o) k' = if decide (k = k') then None else obj_get o k'.
Proof.
  unfold obj_delete. induction o as [|[k0 v0] o IH]; simpl.
  - destruct (decide (k = k')); reflexivity.
  - destruct (bool_decide_reflect (k0 = k)) as [->|Hne]; simpl.
    + rewrite IH. destruct (decide (k = k')); reflexivity.
    + rewrite IH. destruct (decide (k0 = k')) as [->|]; [|reflexivity].
      destruct (decide (k = k')); [congruence | reflexivity].
Qed.

Lemma obj_get_delete_eq o k : obj_get (obj_delete k o) k = None.
Proof. rewrite obj_get_delete. destruct (decide (k = k)); [reflexivity | contradiction]. Qed.

Lemma obj_get_delete_ne o k k' : k <> k' -> obj_get (obj_delete k o) k' = obj_get o k'.
Proof. intros H. rewrite obj_get_delete. destruct (decide (k = k')); [contradiction | reflexivity]. Qed.

(** assigning the value a property already has changes nothing *)
Lemma obj_update_same o k v : obj_get o k = Some v -> obj_update k v o = o.
Proof.
  induction o as [|[k0 v0] o IH]; simpl; [reflexivity|].
  destruct (decide (k0 = k)) as [->|]; intros H.
  - congruence.
  - rewrite (IH H). reflexivity.
Qed.

Lemma obj_has_set o k k' v :
  obj_has (obj_set k v o) k' = if decide (k = k') then true else obj_has o k'.
Proof. unfold obj_has. rewrite obj_get_set. destruct (decide (k = k')); reflexivity. Qed.

Lemma obj_has_update o k k' v : obj_has (obj_update k v o) k' = obj_has o k'.
Proof.
  unfold obj_has. destruct (decide (k = k')) as [<-|Hne].
  - rewrite obj_get_update_eq. destruct (obj_get o k); reflexivity.
  - rewrite obj_get_update_ne by exact Hne. reflexivity.
Qed.

(** *** Objects have each key once *)

Lemma obj_get_None_keys o k : obj_get o k = None <-> k ∉ keys o.
Proof.
  induction o as [|[k0 v0] o IH]; simpl.
  - split; [intros _; apply not_elem_of_nil | reflexivity].
  - rewrite not_elem_of_cons. destruct (decide (k0 = k)) as [->|Hne].
    + split; [discriminate | intros [H _]; contradiction].
    + rewrite IH. split; [intros H; split; [congruence | exact H] | intros [_ H]; exact H].
Qed.

Lemma In_obj_get o k v : NoDup (keys o) -> In (k, v) o -> obj_get o k = Some v.
Proof.
  induction o as [|[k0 v0] o IH]; simpl; [contradiction|].
  rewrite NoDup_cons. intros [Hk0 Hnd] [Heq|Hin].
  - injection Heq as -> ->. destruct (decide (k = k)); [reflexivity | contradiction].
  - destruct (decide (k0 = k)) as [->|]; [|auto].
    exfalso. apply Hk0. apply list_elem_of_In. apply (in_map fst) in Hin. exact Hin.
Qed.

Lemma keys_update o k v : keys (obj_update k v o) = keys o.
Proof.
  induction o as [|[k0 v0] o IH]; simpl; [reflexivity|].
  destruct (decide (k0 = k)); simpl; [reflexivity | rewrite IH; reflexivity].
Qed.

Lemma keys_add_index n o k v k' :
  k' ∈ keys (obj_add_index n k v o) <-> k' = k \/ k' ∈ keys o.
Proof.
  induction o as [|[k0 v0] o IH]; simpl.
  - rewrite list_elem_of_singleton. split; [auto | intros [H|H]; [exact H | inversion H]].
  - destruct (array_index k0) as [n'|]; [destruct (n' <? n)%N|]; simpl;
      rewrite ?elem_of_cons, ?IH; simpl; tauto.
Qed.

Lemma NoDup_add_index n o k v :
  NoDup (keys o) -> k ∉ keys o -> NoDup (keys (obj_add_index n k v o)).
Proof.
  induction o as [|[k0 v0] o IH]; simpl; intros Hnd Hk.
  - apply NoDup_singleton.
  - assert (Hgoal : NoDup (k :: k0 :: keys o)) by (apply NoDup_cons; split; assumption).
    destruct (array_index k0) as [n'|]; [destruct (n' <? n)%N|]; simpl; try exact Hgoal.
    apply NoDup_cons in Hnd as [Hk0 Hnd]. apply not_elem_of_cons in Hk as [Hne Hk].
    apply NoDup_cons. split; [|apply IH; assumption].
    rewrite keys_add_index. intros [->|H]; [contradiction | exact (Hk0 H)].
Qed.

Lemma NoDup_set o k v : NoDup (keys o) -> NoDup (keys (obj_set k v o)).
Proof.
  intros Hnd. unfold obj_set. destruct (obj_has o k) eqn:Hh.
  - rewrite keys_update. exact Hnd.
  - apply obj_has_false, obj_get_None_keys in Hh.
    unfold obj_add. destruct (array_index k).
    + apply NoDup_add_index; assumption.
    + unfold keys. rewrite map_app. simpl. apply NoDup_app. split; [exact Hnd|].
      split; [|apply NoDup_singleton].
      intros x Hx Hx'. apply list_elem_of_singleton in Hx'. subst x. exact (Hh Hx).
Qed.

Lemma keys_filter_sub (p : string * A -> bool) o k :
  k ∈ keys (List.filter p o) -> k ∈ keys o.
Proof.
  induction o as [|[k0 v0] o IH]; simpl; [auto|].
  destruct (p (k0, v0)); simpl; rewrite ?elem_of_cons; [intros [H|H]|]; auto.
Qed.

Lemma NoDup_filter_keys (p : string * A -> bool) o :
  NoDup (keys o) -> NoDup (keys (List.filter p o)).
Proof.
  induction o as [|[k0 v0] o IH]; simpl; [auto|].
  rewrite NoDup_cons. intros [Hk0 Hnd].
  destruct (p (k0, v0)); simpl; [|auto].
  apply NoDup_cons. split; [|auto]. intros H. apply Hk0. eapply keys_filter_sub, H.
Qed.

Lemma NoDup_delete o k : NoDup (keys o) -> NoDup (keys (obj_delete k o)).
Proof. apply NoDup_filter_keys. Qed.

Lemma obj_assign_snoc (base extra : jsobj A) k v :
  obj_assign base (extra ++ [(k, v)]) = obj_set k v (obj_assign base extra).
Proof. unfold obj_assign. rewrite foldl_app. reflexivity. Qed.

(** [{ ...base, ...extra }]: a property of [extra] wins over one of [base],
    and among bindings of one name the last one *)
Lemma obj_get_assign (base extra : jsobj A) k :
  obj_get (obj_assign base extra) k
  = match obj_get (rev extra) k with
    | Some v => Some v
    | None => obj_get base k
    end.
Proof.
  induction extra as [|[k0 v0] extra IH] using rev_ind; [reflexivity|].
  rewrite obj_assign_snoc, rev_app_distr. simpl.
  destruct (decide (k0 = k)) as [->|Hne].
  - apply obj_get_set_eq.
  - rewrite obj_get_set_ne by exact Hne. exact IH.
Qed.

End ObjectFacts.

(** ** The scenarios of the design notes, run on the model *)

Module ScenarioRuns.
Import Scenarios.

Example departments_row :
  rows_of (db after_departments) "departments"
  = [(1%Z, [("mongo_id", VStr "d1"); ("name", VStr "Eng")])]
  /\ idsRegistry after_departments = [("departments", {["d1" := 1%Z]})].
Proof. split; vm_compute; reflexivity. Qed.

Example employees_row :
  let w := snd (putToPostgres "employees" [0%nat] employees_options "employees" employees_world) in
  rows_of (db w) "employees"
  = [(1%Z, [("mongo_id", VStr "e1"); ("name", VStr "Ann"); ("department", VNum 1)])].
Proof. vm_compute. reflexivity. Qed.

Example awards_links :
  let w := snd (putToPostgres "employees" [0%nat] awards_options "employees" awards_world) in
  rows_of (db w) "employees_awards"
  = [(1%Z, [("employee_id", VNum 1); ("award_id", VNum 1)])]
  /\ console w = [LogInserted "employees" 1; WarnLinkSkipMissingFk (VStr "a9");
                  LogLinkInserted "employees" "employees_awards" 1].
Proof. split; vm_compute; reflexivity. Qed.

(** running [employees] a second time: one row skipped, none inserted *)
Example awards_again :
  let first := snd (putToPostgres "employees" [0%nat] awards_options "employees" awards_world) in
  let second := snd (putToPostgres "employees" [0%nat] awards_options "employees"
                       (World (heap first) (db first) (idsRegistry first) [] (serials first) false)) in
  rows_of (db second) "employees" = rows_of (db first) "employees"
  /\ console second = [LogAlreadyExist "employees" 1; LogInserted "employees" 0;
                       WarnLinkSkipMissingFk (VStr "a9");
                       LogLinkInserted "employees" "employees_awards" 1].
Proof. split; vm_compute; reflexivity. Qed.

(** the primitives *)
Example String_of_values :
  map String_ [VUndef; VNull; VBool true; VNum 42; VNum (-7); VStr "a1";
               VArr [VNum 1; VNull; VStr "b"]; VObj []]
  = ["undefined"; "null"; "true"; "42"; "-7"; "a1"; "1,,b"; "[object Object]"].
Proof. reflexivity. Qed.

(** numbers beyond 2^53 and beyond 10^21 *)
Example String_of_large_numbers :
  map String_ [VNum (2 ^ 53 + 1); VNum (2 ^ 64); VNum (10 ^ 21); VNum (2 ^ 70)]
  = ["9007199254740992"; "18446744073709552000"; "1e+21"; "1.1805916207174113e+21"].
Proof. vm_compute. reflexivity. Qed.

Example truthy_values :
  map truthy [VUndef; VNull; VBool false; VNum 0; VStr ""; VStr "0"; VArr []; VObj []]
  = [false; false; false; false; false; true; true; true].
Proof. reflexivity. Qed.

Example array_index_keys :
  map array_index ["0"; "7"; "10"; "01"; "1a"; ""; "4294967294"; "4294967295"]
  = [Some 0%N; Some 7%N; Some 10%N; None; None; None; Some 4294967294%N; None].
Proof. vm_compute. reflexivity. Qed.

(** [Object.entries] order: index keys first, ascending; a key that is
    there keeps its place; a new name goes last *)
Example entries_order :
  keys (obj_set "name" 0%nat (obj_set "2" 1%nat (obj_set "b" 2%nat
         (obj_set "10" 3%nat (obj_set "b" 4%nat []))))) = ["2"; "10"; "b"; "name"].
Proof. vm_compute. reflexivity. Qed.

(** renaming a field to itself deletes it, as the two statements of the
    loop body do *)
Example rename_to_itself :
  rename_stage [("a", "a")] [("a", VNum 1); ("b", VNum 2)] = ([("b", VNum 2)], []).
Proof. reflexivity. Qed.

(** [r.__proto__ = v] makes no property of the copy; the field is gone *)
Example rename_to_proto :
  rename_stage [("a", "__proto__"); ("b", "__proto__")]
               [("a", VNum 1); ("b", VObj [("x", VNum 2)]); ("c", VNum 3)]
  = ([("c", VNum 3)], []).
Proof. reflexivity. Qed.

(** once the prototype is [null], the same assignment makes a property *)
Example rename_to_proto_twice :
  rename_stage [("a", "__proto__"); ("b", "__proto__")]
               [("a", VNull); ("b", VNum 1); ("c", VNum 3)]
  = ([("c", VNum 3); ("__proto__", VNum 1)], []).
Proof. reflexivity. Qed.

(** the defensive array branch of the foreign-key stage *)
Example fk_array_first :
  fk_entry "t" [("c", {["x" := 3%Z]})]
           ([("f", VArr [VStr "y"; VStr "x"])], []) ("f", "c")
  = (Returned tt, ([("f", VNum 3)], [WarnLostFks "t" "f" 1])).
Proof. vm_compute. reflexivity. Qed.

(** a foreign collection named like a member of [Object.prototype] *)
Example fk_inherited_name :
  fk_entry "t" [("c", {["x" := 3%Z]})] ([("f", VStr "x")], []) ("f", "constructor")
  = (Thrown "fkMap.get is not a function", ([("f", VStr "x")], [])).
Proof. vm_compute. reflexivity. Qed.

End ScenarioRuns.

(** ** Loops whose body may throw *)

Section StageLoop.
Context {E : Type}.
Variable body : stage -> E -> outcome unit * stage.

(** the loop is one entry, then the rest unless the body threw *)
Lemma stage_loop_cons e es s :
  stage_loop body (e :: es) s
  = match fst (body s e) with
    | Returned _ => stage_loop body es (snd (body s e))
    | Thrown msg => (Thrown msg, snd (body s e))
    end.
Proof. simpl. destruct (body s e) as [[[]|msg] s']; reflexivity. Qed.

Lemma stage_loop_app pre post : forall s,
  stage_loop body (pre ++ post) s
  = match fst (stage_loop body pre s) with
    | Returned _ => stage_loop body post (snd (stage_loop body pre s))
    | Thrown msg => (Thrown msg, snd (stage_loop body pre s))
    end.
Proof.
  induction pre as [|e pre IH]; intros s; [reflexivity|].
  rewrite <- app_comm_cons, !stage_loop_cons.
  destruct (fst (body s e)); [apply IH | reflexivity].
Qed.

(** a loop that returns has gone through each of its parts *)
Lemma stage_loop_app_Returned pre post s :
  fst (stage_loop body (pre ++ post) s) = Returned tt ->
  fst (stage_loop body pre s) = Returned tt
  /\ stage_loop body (pre ++ post) s
     = stage_loop body post (snd (stage_loop body pre s)).
Proof.
  rewrite stage_loop_app.
  destruct (fst (stage_loop body pre s)) as [[]|msg]; [auto | discriminate].
Qed.

(** what every turn of the body keeps, the loop keeps, wherever it stops *)
Lemma stage_loop_preserves (P : stage -> Prop) es :
  (forall s e, In e es -> P s -> P (snd (body s e))) ->
  forall s, P s -> P (snd (stage_loop body es s)).
Proof.
  induction es as [|e es IH]; intros Hstep s Hs; [exact Hs|].
  rewrite stage_loop_cons.
  assert (H1 : P (snd (body s e))) by (apply Hstep; [left; reflexivity | exact Hs]).
  destruct (fst (body s e)); cbn [snd]; [|exact H1].
  apply IH; [|exact H1]. intros s' e' Hin. apply Hstep. right. exact Hin.
Qed.

(** a loop whose body never throws does not throw *)
Lemma stage_loop_returns es :
  (forall s e, In e es -> fst (body s e) = Returned tt) ->
  forall s, fst (stage_loop body es s) = Returned tt.
Proof.
  induction es as [|e es IH]; intros Hstep s; [reflexivity|].
  rewrite stage_loop_cons, (Hstep s e (or_introl eq_refl)).
  apply IH. intros s' e' Hin. apply Hstep. right. exact Hin.
Qed.

(** the outcome of a loop is [Returned tt] or an error *)
Lemma stage_loop_cases es : forall s,
  fst (stage_loop body es s) = Returned tt
  \/ exists msg, fst (stage_loop body es s) = Thrown msg.
Proof.
  induction es as [|e es IH]; intros s; [left; reflexivity|].
  rewrite stage_loop_cons. destruct (fst (body s e)) as [[]|msg]; [apply IH|].
  right. exists msg. reflexivity.
Qed.

End StageLoop.

(** ** The copy made by [prepare_row] *)

Section PrepareFacts.
Variable table : string.
Variable options : PutOptions.

Lemma object_at_last h d reg c sq ab (o : jsobj value) :
  object_at (World (h ++ [o]) d reg c sq ab) (length h) = o.
Proof.
  unfold object_at. simpl.
  rewrite lookup_app_r by apply Nat.le_refl. rewrite Nat.sub_diag. reflexivity.
Qed.

Lemma mutate_last h d reg c sq ab (o : jsobj value) block :
  mutate (length h) block (World (h ++ [o]) d reg c sq ab)
  = World (h ++ [fst (block o)]) d reg (c ++ snd (block o)) sq ab.
Proof.
  unfold mutate. rewrite object_at_last. unfold emit_all, with_heap. simpl.
  f_equal. rewrite insert_app_r_alt by apply Nat.le_refl. rewrite Nat.sub_diag. reflexivity.
Qed.

Lemma mutate_try_last h d reg c sq ab (o : jsobj value) block :
  mutate_try (length h) block (World (h ++ [o]) d reg c sq ab)
  = (fst (block o),
     World (h ++ [fst (snd (block o))]) d reg (c ++ snd (snd (block o))) sq ab).
Proof.
  unfold mutate_try. rewrite object_at_last. unfold emit_all, with_heap. simpl.
  f_equal. f_equal. rewrite insert_app_r_alt by apply Nat.le_refl.
  rewrite Nat.sub_diag. reflexivity.
Qed.

(** [prepare_row] leaves the record it is given alone: it appends the
    transformed copy to the heap and the warnings to the console, and it
    throws when the redefine stage or the foreign-key stage does. *)
Lemma prepare_row_spec w row :
  prepare_row table options w row
  = (match prepare_throws table options (idsRegistry w) (object_at w row) with
     | Some msg => Thrown msg
     | None => Returned (length (heap w))
     end,
     World (heap w ++ [fst (transform_row table options (idsRegistry w) (object_at w row))])
           (db w) (idsRegistry w)
           (console w ++ snd (transform_row table options (idsRegistry w) (object_at w row)))
           (serials w) (aborted w)).
Proof.
  unfold prepare_row, alloc_copy, with_heap.
  rewrite mutate_last, mutate_try_last.
  unfold prepare_throws, transform_row, after_redefine, after_rename.
  destruct (rename_stage (rename options) (object_at w row)) as [r1 warns1]. cbn [fst snd].
  destruct (redefine_stage table (redefine options) r1) as [[[]|msg] [r2 warns2]];
    cbn [fst snd idsRegistry]; [|rewrite <- !app_assoc; reflexivity].
  rewrite mutate_try_last.
  destruct (fk_stage table (idsRegistry w) (foreignKeys options) r2)
    as [[[]|msg] [r3 warns3]]; cbn [fst snd]; [|rewrite <- !app_assoc; reflexivity].
  rewrite mutate_last. rewrite <- !app_assoc. reflexivity.
Qed.

Lemma map_rows_spec rows : forall w,
  map_rows (prepare_row table options) w rows
  = (match prepared_throws table options (idsRegistry w) (heap w) rows with
     | Some msg => Thrown msg
     | None => Returned (seq (length (heap w)) (length rows))
     end,
     World (heap w ++ fst (prepared_objects table options (idsRegistry w) (heap w) rows))
           (db w) (idsRegistry w)
           (console w ++ snd (prepared_objects table options (idsRegistry w) (heap w) rows))
           (serials w) (aborted w)).
Proof.
  induction rows as [|row rest IH]; intros w.
  - simpl. rewrite !app_nil_r. destruct w; reflexivity.
  - cbn [map_rows prepared_throws prepared_objects]. rewrite prepare_row_spec.
    fold (object_at w row).
    destruct (prepare_throws table options (idsRegistry w) (object_at w row)) as [msg|] eqn:Hthrow.
    + reflexivity.
    + rewrite IH. cbn [heap db idsRegistry console serials aborted fst snd length seq].
      rewrite length_app. cbn [length]. rewrite Nat.add_1_r.
      destruct (prepared_throws _ _ _ _ rest); rewrite <- !app_assoc; reflexivity.
Qed.

Lemma prepared_objects_length reg rows : forall h,
  prepared_throws table options reg h rows = None ->
  length (fst (prepared_objects table options reg h rows)) = length rows.
Proof.
  induction rows as [|row rest IH]; intros h Hno; [reflexivity|].
  cbn [prepared_throws prepared_objects] in *.
  destruct (prepare_throws table options _ _); [discriminate|].
  cbn [fst length]. rewrite IH by exact Hno. reflexivity.
Qed.

Lemma prepared_objects_bound reg rows : forall h,
  length (fst (prepared_objects table options reg h rows)) <= length rows.
Proof.
  induction rows as [|row rest IH]; intros h; [apply Nat.le_refl|].
  cbn [prepared_objects].
  destruct (prepare_throws table options _ _); cbn [fst length].
  - apply le_n_S, Nat.le_0_l.
  - apply le_n_S, IH.
Qed.

(** records of the heap are read as they were; none of them makes the
    redefine stage throw exactly when [rows.map] returns *)
Lemma prepared_throws_valid reg rows : forall h,
  Forall (fun row => row < length h) rows ->
  prepared_throws table options reg h rows = None
  <-> Forall (fun row => prepare_throws table options reg (default [] (h !! row)) = None) rows.
Proof.
  induction rows as [|row rest IH]; intros h Hv; [split; [constructor | reflexivity]|].
  inversion Hv as [|? ? Hrow Hrest]; subst.
  cbn [prepared_throws].
  assert (Hv' : Forall (fun row' => row' < length (h ++ [fst (transform_row table options reg
                                                               (default [] (h !! row)))])) rest).
  { eapply Forall_impl; [exact Hrest|]. intros row' Hr; cbn beta.
    rewrite length_app. apply Nat.lt_lt_add_r, Hr. }
  assert (Hsame : Forall (fun row' =>
                      prepare_throws table options reg
                        (default [] ((h ++ [fst (transform_row table options reg
                                                   (default [] (h !! row)))]) !! row')) = None)
                    rest
                  <-> Forall (fun row' =>
                         prepare_throws table options reg (default [] (h !! row')) = None) rest).
  { rewrite !Forall_forall. split; intros H row' Hin; specialize (H row' Hin);
      rewrite Forall_forall in Hrest; specialize (Hrest row' Hin);
      rewrite lookup_app_l in * by exact Hrest; exact H. }
  unfold loc in *.
  destruct (prepare_throws table options reg (default [] (h !! row))) eqn:Hthrow.
  - split; [discriminate|]. intros H. inversion H; subst. congruence.
  - rewrite (IH _ Hv'), Hsame. split.
    + intros H. constructor; assumption.
    + intros H. inversion H; assumption.
Qed.

(** a record that was in the heap before the call is read as it was *)
(** a call that prepares its rows prepares each record of the heap *)
Lemma prepared_throws_lookup reg rows : forall h i row,
  prepared_throws table options reg h rows = None ->
  rows !! i = Some row -> row < length h ->
  prepare_throws table options reg (default [] (h !! row)) = None.
Proof.
  induction rows as [|row0 rest IH]; intros h i row Hno Hi Hrow; [discriminate|].
  cbn [prepared_throws] in Hno.
  destruct (prepare_throws table options reg (default [] (h !! row0))) eqn:H0; [discriminate|].
  destruct i as [|i].
  - injection Hi as ->. exact H0.
  - change (rest !! i = Some row) in Hi.
    pose proof (IH _ i row Hno Hi) as H.
    rewrite lookup_app_l in H by exact Hrow.
    apply H. rewrite length_app. apply Nat.lt_lt_add_r, Hrow.
Qed.

Lemma prepared_objects_lookup reg rows : forall h i row,
  prepared_throws table options reg h rows = None ->
  rows !! i = Some row -> row < length h ->
  fst (prepared_objects table options reg h rows) !! i
  = Some (fst (transform_row table options reg (default [] (h !! row)))).
Proof.
  induction rows as [|row0 rest IH]; intros h i row Hno Hi Hrow; [discriminate|].
  cbn [prepared_throws prepared_objects] in *.
  destruct (prepare_throws table options reg (default [] (h !! row0))); [discriminate|].
  destruct i as [|i]; cbn [fst].
  - injection Hi as ->. reflexivity.
  - change ((?x :: ?l) !! S i) with (l !! i). change (rest !! i = Some row) in Hi.
    rewrite (IH _ _ _ Hno Hi) by (rewrite length_app; apply Nat.lt_lt_add_r, Hrow).
    rewrite lookup_app_l by exact Hrow. reflexivity.
Qed.

Lemma prepared_objects_warnings reg rows : forall h i row,
  prepared_throws table options reg h rows = None ->
  rows !! i = Some row -> row < length h ->
  forall e, In e (snd (transform_row table options reg (default [] (h !! row)))) ->
  In e (snd (prepared_objects table options reg h rows)).
Proof.
  induction rows as [|row0 rest IH]; intros h i row Hno Hi Hrow e He; [discriminate|].
  cbn [prepared_throws prepared_objects] in *.
  destruct (prepare_throws table options reg (default [] (h !! row0))); [discriminate|].
  destruct i as [|i]; cbn [snd]; apply in_or_app.
  - left. injection Hi as ->. exact He.
  - right. change (rest !! i = Some row) in Hi.
    apply (IH _ i row Hno Hi); [rewrite length_app; apply Nat.lt_lt_add_r, Hrow|].
    rewrite lookup_app_l by exact Hrow. exact He.
Qed.

(** when all of [rows] were in the heap, the copies are the transformed
    records *)
Lemma prepared_objects_valid reg rows : forall h,
  prepared_throws table options reg h rows = None ->
  Forall (fun row => row < length h) rows ->
  fst (prepared_objects table options reg h rows)
  = map (fun row => fst (transform_row table options reg (default [] (h !! row)))) rows.
Proof.
  induction rows as [|row rest IH]; intros h Hno Hv; [reflexivity|].
  cbn [prepared_throws prepared_objects] in *.
  destruct (prepare_throws table options reg (default [] (h !! row))); [discriminate|].
  cbn [fst map].
  inversion Hv as [|? ? Hrow Hrest]; subst. f_equal.
  rewrite IH.
  - apply map_ext_in. intros row' Hin.
    rewrite Forall_forall in Hrest. specialize (Hrest row').
    rewrite lookup_app_l; [reflexivity|]. apply Hrest. apply list_elem_of_In, Hin.
  - exact Hno.
  - eapply Forall_impl; [exact Hrest|]. intros row' Hr; cbn beta.
    rewrite length_app. apply Nat.lt_lt_add_r, Hr.
Qed.

End PrepareFacts.

(** ** What each phase leaves alone *)

Section Loops.
Variable R : world -> world -> Prop.
Hypothesis R_refl : forall w, R w w.
Hypothesis R_trans : forall w1 w2 w3, R w1 w2 -> R w2 w3 -> R w1 w3.

Lemma foldl_preserves {A} (f : world -> A -> world) :
  (forall w x, R w (f w x)) -> forall xs w, R w (foldl f w xs).
Proof.
  intros Hf xs. induction xs as [|x xs IH]; intros w; simpl; [apply R_refl|].
  eapply R_trans; [apply Hf | apply IH].
Qed.

Lemma for_each_preserves {A S} (body : S -> world -> A -> outcome S * world) :
  (forall s w x, R w (snd (body s w x))) ->
  forall xs s w, R w (snd (for_each body xs s w)).
Proof.
  intros Hb xs. induction xs as [|x xs IH]; intros s w; simpl; [apply R_refl|].
  specialize (Hb s w x). destruct (body s w x) as [[s'|msg] w']; simpl in *.
  - eapply R_trans; [exact Hb | apply IH].
  - exact Hb.
Qed.
Lemma for_each_preserves_In {A S} (body : S -> world -> A -> outcome S * world) xs :
  (forall s w x, In x xs -> R w (snd (body s w x))) ->
  forall s w, R w (snd (for_each body xs s w)).
Proof.
  induction xs as [|x xs IH]; intros Hb s w; simpl; [apply R_refl|].
  pose proof (Hb s w x (or_introl eq_refl)) as Hx.
  destruct (body s w x) as [[s'|msg] w']; simpl in *.
  - eapply R_trans; [exact Hx | apply IH]. intros. apply Hb. right. assumption.
  - exact Hx.
Qed.
End Loops.


Lemma same_heap_refl w : same_heap w w.
Proof. reflexivity. Qed.
Lemma same_heap_trans w1 w2 w3 : same_heap w1 w2 -> same_heap w2 w3 -> same_heap w1 w3.
Proof. unfold same_heap. congruence. Qed.
Lemma same_registry_refl w : same_registry w w.
Proof. reflexivity. Qed.
Lemma same_registry_trans w1 w2 w3 :
  same_registry w1 w2 -> same_registry w2 w3 -> same_registry w1 w3.
Proof. unfold same_registry. congruence. Qed.

(** a statement touches neither the heap nor the registry nor the console *)
Lemma trx_select_frame w table ids :
  heap (snd (trx_select w table ids)) = heap w
  /\ idsRegistry (snd (trx_select w table ids)) = idsRegistry w
  /\ console (snd (trx_select w table ids)) = console w
  /\ db (snd (trx_select w table ids)) = db w
  /\ serials (snd (trx_select w table ids)) = serials w.
Proof.
  unfold trx_select. destruct (aborted w); [repeat split|].
  destruct (pg_select_ids _ _ _); repeat split.
Qed.

Lemma trx_select_Returned w table ids existing w' :
  trx_select w table ids = (Returned existing, w') ->
  w' = w /\ aborted w = false /\ pg_select_ids (db w) table ids = Returned existing.
Proof.
  unfold trx_select. destruct (aborted w); [discriminate|].
  destruct (pg_select_ids _ _ _); [|discriminate].
  intros H. injection H as -> ->. auto.
Qed.

Lemma trx_insert_frame w table batch :
  heap (snd (trx_insert w table batch)) = heap w
  /\ idsRegistry (snd (trx_insert w table batch)) = idsRegistry w
  /\ console (snd (trx_insert w table batch)) = console w.
Proof.
  unfold trx_insert. destruct (aborted w); [repeat split|].
  destruct (pg_insert _ _ _ _) as [[[d inserted]|msg] sq]; repeat split.
Qed.

Lemma set_id_heap self key id w : same_heap w (snd (set_id self key id w)).
Proof. unfold set_id. destruct (registry_get _ _); reflexivity. Qed.

Lemma record_existing_heap self em u w r :
  same_heap w (snd (record_existing self em u w r)).
Proof.
  unfold record_existing.
  destruct (mongo_id_of w r); try reflexivity.
  destruct (em !! s); [apply set_id_heap | reflexivity].
Qed.

Lemma record_inserted_heap self u w row :
  same_heap w (snd (record_inserted self u w row)).
Proof. apply set_id_heap. Qed.

Lemma upsert_heap table self prepared w : same_heap w (snd (upsert table self prepared w)).
Proof.
  unfold upsert.
  destruct (trx_select_frame w table (List.filter truthy (map (mongo_id_of w) prepared)))
    as (Hsel & _).
  destruct (trx_select _ _ _) as [[existing|msg] w0]; cbn [snd] in Hsel; [|exact Hsel].
  set (em := make_existingMap existing).
  set (skipped := match toSkip_of em w0 prepared with [] => _ | _ :: _ => _ end).
  assert (H1 : same_heap w (snd skipped)).
  { subst skipped. unfold same_heap. rewrite <- Hsel.
    destruct (toSkip_of em w0 prepared); [reflexivity|].
    change (same_heap w0 (snd (for_each (record_existing self em) (l :: l0) tt
                                 (emit (LogAlreadyExist table (length (l :: l0))) w0)))).
    eapply same_heap_trans;
      [|apply (for_each_preserves same_heap same_heap_refl same_heap_trans);
        intros; apply record_existing_heap].
    reflexivity. }
  destruct skipped as [[[]|msg] w1]; cbn [snd] in H1; [|exact H1].
  destruct (toInsert_of em w0 prepared); [exact H1|].
  destruct (trx_insert_frame w1 table (map (object_at w1) (l :: l0))) as (Hins & _).
  destruct (trx_insert _ _ _) as [[inserted|msg] w2]; cbn [snd] in *;
    [|unfold same_heap in *; congruence].
  pose proof (for_each_preserves same_heap same_heap_refl same_heap_trans
                (record_inserted self) (record_inserted_heap self) inserted tt w2) as H3.
  destruct (for_each _ inserted tt w2) as [[[]|msg] w3]; cbn [snd] in *;
    unfold same_heap in *; cbn [heap emit]; congruence.
Qed.

Lemma link_element_pure cfg selfSqlId raw linkRows w x :
  same_heap w (snd (link_element cfg selfSqlId raw linkRows w x))
  /\ same_registry w (snd (link_element cfg selfSqlId raw linkRows w x))
  /\ db (snd (link_element cfg selfSqlId raw linkRows w x)) = db w.
Proof.
  unfold link_element.
  destruct (no_id _); [repeat split|].
  destruct (transform cfg) as [f|]; [|repeat split].
  destruct (f _ _ _); repeat split.
Qed.


Lemma reads_only_refl w : reads_only w w.
Proof. repeat split. Qed.
Lemma reads_only_trans w1 w2 w3 : reads_only w1 w2 -> reads_only w2 w3 -> reads_only w1 w3.
Proof.
  unfold reads_only, same_heap, same_registry.
  intros (?&?&?) (?&?&?). repeat split; congruence.
Qed.

Lemma link_record_pure self arrayField cfg linkRows w row :
  reads_only w (snd (link_record self arrayField cfg linkRows w row)).
Proof.
  unfold link_record.
  destruct (prop _ arrayField) as [| | | | |[|e es]|]; try apply reads_only_refl.
  destruct (self_sql_id _ _ _) as [selfSqlId|msg]; [|apply reads_only_refl].
  destruct (no_id _); [repeat split|].
  apply (for_each_preserves reads_only reads_only_refl reads_only_trans).
  intros. apply link_element_pure.
Qed.

Lemma gather_linkRows_pure self arrayField cfg rows w :
  reads_only w (snd (gather_linkRows self arrayField cfg rows w)).
Proof.
  apply (for_each_preserves reads_only reads_only_refl reads_only_trans).
  intros. apply link_record_pure.
Qed.


Lemma keeps_records_refl w : keeps_records w w.
Proof. split; reflexivity. Qed.
Lemma keeps_records_trans w1 w2 w3 :
  keeps_records w1 w2 -> keeps_records w2 w3 -> keeps_records w1 w3.
Proof.
  unfold keeps_records, same_heap, same_registry. intros [? ?] [? ?]. split; congruence.
Qed.

Lemma link_field_keeps table self rows u w e :
  keeps_records w (snd (link_field table self rows u w e)).
Proof.
  unfold link_field. destruct e as [arrayField cfg].
  pose proof (gather_linkRows_pure self arrayField cfg rows w) as (Hh & Hr & _).
  destruct (gather_linkRows _ _ _ _ _) as [[[|l ls]|msg] w1]; simpl in *;
    try (split; assumption).
  destruct (trx_insert_frame w1 (linkTable cfg) (l :: ls)) as (Hh' & Hr' & _).
  unfold same_heap, same_registry in *.
  destruct (trx_insert _ _ _) as [[?|msg] w2]; split; unfold same_heap, same_registry;
    cbn [snd heap idsRegistry emit] in *; congruence.
Qed.

Lemma link_phase_keeps table self rows lk w :
  keeps_records w (snd (for_each (link_field table self rows) lk tt w)).
Proof.
  apply (for_each_preserves keeps_records keeps_records_refl keeps_records_trans).
  intros. apply link_field_keeps.
Qed.

Lemma ensure_mongo_id_column_keeps table w :
  keeps_records w (ensure_mongo_id_column table w)
  /\ console w `prefix_of` console (ensure_mongo_id_column table w).
Proof.
  unfold ensure_mongo_id_column. destruct (aborted w).
  - repeat split. simpl. apply prefix_app_r. reflexivity.
  - destruct (db w !! table) as [t|]; [destruct (t_mongo_id t), (t_alter t)|];
      repeat split; try reflexivity; simpl; apply prefix_app_r; reflexivity.
Qed.

(** the heap after the call: the heap before it, followed by the copies *)
Lemma unit_of_work_heap table rows options self w :
  heap (snd (unit_of_work table rows options self w))
  = heap w ++ fst (prepared_objects table options (idsRegistry w) (heap w) rows).
Proof.
  unfold unit_of_work.
  destruct (ensure_mongo_id_column_keeps table w) as [[Hh Hr] _].
  rewrite map_rows_spec. rewrite Hh, Hr.
  set (w1 := World _ _ _ _ _ _).
  destruct (prepared_throws _ _ _ _ _); [reflexivity|].
  pose proof (upsert_heap table self (seq (length (heap w)) (length rows)) w1) as Hu.
  destruct (upsert _ _ _ _) as [[[]|msg] w2]; simpl in *.
  - destruct (link_phase_keeps table self rows (links options) w2) as [Hl _].
    rewrite Hl, Hu. reflexivity.
  - rewrite Hu. reflexivity.
Qed.

Lemma transaction_heap body w :
  heap (snd (transaction body w)) = heap (snd (body (with_aborted false w))).
Proof.
  unfold transaction. destruct (body _) as [[a|msg] w']; [|reflexivity].
  cbn [snd]. destruct (aborted w'); reflexivity.
Qed.

Lemma ensure_self_map_heap self w : heap (ensure_self_map self w) = heap w.
Proof. unfold ensure_self_map. destruct (registry_get _ _); reflexivity. Qed.

Lemma putToPostgres_heap table rows options self w :
  heap w `prefix_of` heap (snd (putToPostgres table rows options self w)).
Proof.
  unfold putToPostgres. destruct rows as [|row rest]; [reflexivity|].
  rewrite transaction_heap, unit_of_work_heap. cbn [heap with_aborted].
  rewrite ensure_self_map_heap.
  apply prefix_app_r. reflexivity.
Qed.

(** C9.  Every record that is in the heap when [putToPostgres] is called is
    there unchanged when the call is over, whether it returned or threw:
    rename, redefine, foreign-key substitution and array elision write to
    the copies [{ ...row }] only, which are allocated behind the records, and
    the link phase only reads the records. *)
Theorem input_records_not_mutated table rows options self w row raw :
  heap w !! row = Some raw ->
  heap (snd (putToPostgres table rows options self w)) !! row = Some raw.
Proof.
  intros Hrow. destruct (putToPostgres_heap table rows options self w) as [k ->].
  apply lookup_app_l_Some, Hrow.
Qed.

(** ** Array elision *)

Section Elision.
Variable table : string.
Variable lk : jsobj link_cfg.

Lemma filter_twice {A} (p q : A -> bool) (l : list A) :
  List.filter p (List.filter q l) = List.filter (fun x => q x && p x) l.
Proof.
  induction l as [|x l IH]; simpl; [reflexivity|].
  destruct (q x); simpl; [destruct (p x)|]; rewrite IH; reflexivity.
Qed.

Lemma elide_fold_object es : forall r warns,
  fst (foldl (elide_entry table lk) (r, warns) es)
  = List.filter (fun p => negb (dropped lk es (fst p))) r.
Proof.
  induction es as [|[key val] es IH]; intros r warns; simpl.
  - induction r as [|x r IHr]; simpl; [reflexivity | rewrite <- IHr; reflexivity].
  - destruct (isArray val && negb (links_has lk key)) eqn:Hd; simpl.
    + rewrite IH. unfold obj_delete. rewrite filter_twice.
      apply List.filter_ext. intros [k v]. simpl. rewrite negb_orb. reflexivity.
    + rewrite IH. reflexivity.
Qed.

Lemma obj_get_None_filter {A} (o : jsobj A) (p : string * A -> bool) k :
  (forall v, p (k, v) = false) -> obj_get (List.filter p o) k = None.
Proof.
  intros Hp. induction o as [|[k0 v0] o IH]; simpl; [reflexivity|].
  destruct (p (k0, v0)) eqn:Hp0; simpl; [|exact IH].
  destruct (decide (k0 = k)) as [->|]; [|exact IH].
  rewrite Hp in Hp0. discriminate.
Qed.

Lemma obj_get_filter_In {A} (o : jsobj A) (p : string * A -> bool) k v :
  obj_get (List.filter p o) k = Some v -> In (k, v) o /\ p (k, v) = true.
Proof. intros H. apply obj_get_In in H. apply filter_In in H. exact H. Qed.

Lemma dropped_intro es key val :
  In (key, val) es -> isArray val = true -> links_has lk key = false ->
  dropped lk es key = true.
Proof.
  intros Hin Ha Hl. unfold dropped. apply existsb_exists. exists (key, val).
  split; [exact Hin|]. simpl. rewrite Ha, Hl. simpl. apply bool_decide_eq_true. reflexivity.
Qed.

(** what is left after the loop has no array outside of [links] *)
Lemma elide_stage_clean r : no_unlinked_array lk (fst (elide_stage table lk r)).
Proof.
  unfold elide_stage. rewrite elide_fold_object.
  intros key val Hget Ha.
  apply obj_get_filter_In in Hget as [Hin Hkeep]. simpl in Hkeep.
  destruct (links_has lk key) eqn:Hl; [reflexivity|].
  rewrite (dropped_intro r key val Hin Ha Hl) in Hkeep. discriminate.
Qed.

(** an array field that [links] does not name is gone *)
Lemma elide_stage_removes r key val :
  obj_get r key = Some val -> isArray val = true -> links_has lk key = false ->
  obj_get (fst (elide_stage table lk r)) key = None.
Proof.
  intros Hget Ha Hl. unfold elide_stage. rewrite elide_fold_object.
  apply obj_get_None_filter. intros v. simpl.
  rewrite (dropped_intro r key val (obj_get_In _ _ _ Hget) Ha Hl). reflexivity.
Qed.

Lemma obj_get_filter_key {A} (o : jsobj A) (f : string -> bool) k :
  f k = false -> obj_get (List.filter (fun p => negb (f (fst p))) o) k = obj_get o k.
Proof.
  intros Hf. induction o as [|[k0 v0] o IH]; simpl; [reflexivity|].
  destruct (f k0) eqn:Hf0; simpl.
  - destruct (decide (k0 = k)) as [->|]; [congruence | exact IH].
  - destruct (decide (k0 = k)); [reflexivity | exact IH].
Qed.

(** a field the loop does not delete is as it was *)
Lemma elide_stage_keeps r key :
  dropped lk r key = false ->
  obj_get (fst (elide_stage table lk r)) key = obj_get r key.
Proof.
  intros Hd. unfold elide_stage. rewrite elide_fold_object.
  apply (obj_get_filter_key r (dropped lk r) key Hd).
Qed.

Lemma dropped_elim es key :
  dropped lk es key = true ->
  exists val, In (key, val) es /\ isArray val = true /\ links_has lk key = false.
Proof.
  unfold dropped. intros H. apply existsb_exists in H as ([k v] & Hin & H).
  simpl in H. apply andb_prop in H as [H Hk]. apply andb_prop in H as [Ha Hl].
  apply bool_decide_eq_true in Hk. subst k.
  exists v. split; [exact Hin|]. split; [exact Ha|].
  destruct (links_has lk key); [discriminate | reflexivity].
Qed.

End Elision.

(** ** The redefine stage *)

Section Redefine.
Variable table : string.
Implicit Types (s : stage) (e : string * (value -> jsobj value -> completion value)).

Lemma redefine_entry_eq r warns field mapper :
  redefine_entry table (r, warns) (field, mapper)
  = if obj_has r field then
      match mapper (prop r field) r with
      | Normal v => (Returned tt, (obj_set field v r, warns))
      | Throw x =>
          if nullish x
          then (Thrown ("Cannot read properties of " ++ String_ x ++ " (reading 'message')"),
                (r, warns))
          else (Returned tt,
                (r, warns ++ [WarnRedefineFail table field (String_ (message_of x))]))
      end
    else (Returned tt, (r, warns)).
Proof. reflexivity. Qed.

Lemma redefine_entry_has s e k :
  obj_has (fst (snd (redefine_entry table s e))) k = obj_has (fst s) k.
Proof.
  destruct s as [r warns], e as [field mapper]. rewrite redefine_entry_eq.
  destruct (obj_has r field) eqn:Hh; [|reflexivity].
  destruct (mapper _ _) as [v|x]; [|destruct (nullish x); reflexivity].
  cbn [fst snd].
  rewrite obj_has_set. destruct (decide (field = k)) as [<-|]; [symmetry; exact Hh | reflexivity].
Qed.

Lemma redefine_entry_other s e k :
  fst e <> k -> obj_get (fst (snd (redefine_entry table s e))) k = obj_get (fst s) k.
Proof.
  destruct s as [r warns], e as [field mapper]. rewrite redefine_entry_eq. cbn [fst]. intros Hne.
  destruct (obj_has r field); [|reflexivity].
  destruct (mapper _ _) as [v|x]; [|destruct (nullish x); reflexivity].
  apply obj_get_set_ne, Hne.
Qed.

Lemma redefine_entry_warnings s e x :
  In x (snd s) -> In x (snd (snd (redefine_entry table s e))).
Proof.
  destruct s as [r warns], e as [field mapper]. rewrite redefine_entry_eq. cbn [snd]. intros Hx.
  destruct (obj_has r field); [|exact Hx].
  destruct (mapper _ _) as [v|y]; [exact Hx|].
  destruct (nullish y); [exact Hx | apply in_or_app; left; exact Hx].
Qed.

Lemma redefine_entry_NoDup s e :
  NoDup (keys (fst s)) -> NoDup (keys (fst (snd (redefine_entry table s e)))).
Proof.
  destruct s as [r warns], e as [field mapper]. rewrite redefine_entry_eq. cbn [fst]. intros Hnd.
  destruct (obj_has r field); [|exact Hnd].
  destruct (mapper _ _) as [v|y]; [apply NoDup_set, Hnd | destruct (nullish y); exact Hnd].
Qed.

Lemma redefine_loop_has rd : forall s k,
  obj_has (fst (snd (stage_loop (redefine_entry table) rd s))) k = obj_has (fst s) k.
Proof.
  induction rd as [|e rd IH]; intros s k; [reflexivity|].
  rewrite stage_loop_cons.
  destruct (fst (redefine_entry table s e)); cbn [snd];
    [rewrite IH|]; apply redefine_entry_has.
Qed.

Lemma redefine_loop_other rd : forall s k,
  k ∉ keys rd -> obj_get (fst (snd (stage_loop (redefine_entry table) rd s))) k = obj_get (fst s) k.
Proof.
  induction rd as [|e rd IH]; intros s k Hk; [reflexivity|].
  simpl in Hk. apply not_elem_of_cons in Hk as [Hne Hk].
  rewrite stage_loop_cons.
  destruct (fst (redefine_entry table s e)); cbn [snd];
    [rewrite (IH _ _ Hk)|]; apply redefine_entry_other; congruence.
Qed.

Lemma redefine_loop_warnings rd : forall s x,
  In x (snd s) -> In x (snd (snd (stage_loop (redefine_entry table) rd s))).
Proof.
  induction rd as [|e rd IH]; intros s x Hx; [exact Hx|].
  rewrite stage_loop_cons.
  destruct (fst (redefine_entry table s e)); cbn [snd];
    [apply IH|]; apply redefine_entry_warnings, Hx.
Qed.

Lemma redefine_loop_NoDup rd : forall s,
  NoDup (keys (fst s)) -> NoDup (keys (fst (snd (stage_loop (redefine_entry table) rd s)))).
Proof.
  induction rd as [|e rd IH]; intros s Hnd; [exact Hnd|].
  rewrite stage_loop_cons.
  destruct (fst (redefine_entry table s e)); cbn [snd];
    [apply IH|]; apply redefine_entry_NoDup, Hnd.
Qed.

Lemma NoDup_keys_split {A} (o pre post : jsobj A) k v :
  NoDup (keys o) -> o = pre ++ (k, v) :: post -> (k ∉ keys pre) /\ (k ∉ keys post).
Proof.
  intros Hnd ->. unfold keys in Hnd. rewrite map_app in Hnd. simpl in Hnd.
  apply NoDup_app in Hnd as (_ & Hdisj & Hpost).
  apply NoDup_cons in Hpost as [Hk _]. split; [|exact Hk].
  intros Hin. apply (Hdisj _ Hin). left.
Qed.

(** a mapper that throws [null] or [undefined] on a field the copy has
    makes the handler throw *)
Lemma redefine_entry_nullish r warns field mapper x :
  obj_has r field = true -> mapper (prop r field) r = Throw x -> nullish x = true ->
  redefine_entry table (r, warns) (field, mapper)
  = (Thrown ("Cannot read properties of " ++ String_ x ++ " (reading 'message')"), (r, warns)).
Proof. intros Hh Hm Hn. rewrite redefine_entry_eq, Hh, Hm, Hn. reflexivity. Qed.

End Redefine.

Lemma prepare_throws_None table options registry raw :
  prepare_throws table options registry raw = None <->
  fst (redefine_stage table (redefine options) (after_rename options raw)) = Returned tt
  /\ fst (fk_stage table registry (foreignKeys options) (after_redefine table options raw))
     = Returned tt.
Proof.
  unfold prepare_throws.
  destruct (fst (redefine_stage _ _ _)) as [[]|msg];
    [destruct (fst (fk_stage _ _ _ _)) as [[]|msg]|]; split;
    try (intros H; discriminate H); try (intros [H1 H2]; discriminate); auto.
Qed.

(** when nothing throws, the prepared row is the outcome of the four stages *)
Lemma transform_row_prepared table options registry raw :
  prepare_throws table options registry raw = None ->
  transform_row table options registry raw
  = (fst (elide_stage table (links options) (after_fk table options registry raw)),
     snd (rename_stage (rename options) raw)
     ++ snd (snd (redefine_stage table (redefine options) (after_rename options raw)))
     ++ snd (snd (fk_stage table registry (foreignKeys options)
                    (after_redefine table options raw)))
     ++ snd (elide_stage table (links options) (after_fk table options registry raw))).
Proof.
  intros Hp. apply prepare_throws_None in Hp as [Hp1 Hp2]. unfold transform_row. cbn zeta.
  change (fst (rename_stage (rename options) raw)) with (after_rename options raw).
  rewrite Hp1.
  change (fst (snd (redefine_stage table (redefine options) (after_rename options raw))))
    with (after_redefine table options raw).
  rewrite Hp2. reflexivity.
Qed.

(** X22.  An entry [(field, fn)] of [redefine] whose field the record has
    (after renaming), on a record that is prepared without a throw: when
    its turn comes, [fn] is called with the value of the field and the
    working copy of the record.  If it returns, the field holds the result
    when the stage is over; if it throws, what it threw is neither [null]
    nor [undefined], the field keeps its value and the warning, with the
    message of what was thrown, is on record.  Either way the loop goes on
    with the entries that follow. *)
Theorem redefine_turn table options registry raw field fn :
  NoDup (keys (redefine options)) ->
  In (field, fn) (redefine options) ->
  obj_has (after_rename options raw) field = true ->
  prepare_throws table options registry raw = None ->
  exists pre post,
    redefine options = pre ++ (field, fn) :: post
    /\ let r1 := after_rename options raw in
       let s := snd (redefine_stage table pre r1) in
       prop (fst s) field = prop r1 field
       /\ redefine_stage table (redefine options) r1
          = stage_loop (redefine_entry table) post (snd (redefine_entry table s (field, fn)))
       /\ match fn (prop r1 field) (fst s) with
          | Normal v =>
              obj_get (after_redefine table options raw) field = Some v
          | Throw x =>
              nullish x = false
              /\ obj_get (after_redefine table options raw) field = obj_get r1 field
              /\ In (WarnRedefineFail table field (String_ (message_of x)))
                    (snd (transform_row table options registry raw))
          end.
Proof.
  intros Hnd Hin Hhas Hp.
  destruct (in_split _ _ Hin) as (pre & post & Hsplit).
  exists pre, post. split; [exact Hsplit|].
  destruct (NoDup_keys_split _ _ _ _ _ Hnd Hsplit) as [Hpre Hpost].
  cbn zeta.
  rewrite (transform_row_prepared _ _ _ _ Hp).
  apply prepare_throws_None in Hp as [Hp _].
  assert (Hold : prop (fst (snd (redefine_stage table pre (after_rename options raw)))) field
                 = prop (after_rename options raw) field).
  { unfold prop, redefine_stage. rewrite (redefine_loop_other table pre _ _ Hpre). reflexivity. }
  assert (Hturn : obj_has (fst (snd (redefine_stage table pre (after_rename options raw)))) field
                  = true).
  { unfold redefine_stage. rewrite redefine_loop_has. exact Hhas. }
  unfold after_redefine. unfold redefine_stage in *. rewrite Hsplit in Hp |- *.
  destruct (stage_loop_app_Returned (redefine_entry table) pre ((field, fn) :: post) _ Hp) as [Hpre_ok Heq].
  rewrite Heq in Hp |- *. clear Heq.
  destruct (snd (stage_loop (redefine_entry table) pre (after_rename options raw, []))) as [r warns] eqn:Hs.
  cbn [fst snd] in *.
  rewrite stage_loop_cons in Hp |- *. rewrite redefine_entry_eq in Hp |- *.
  rewrite Hturn, Hold in Hp |- *.
  split; [reflexivity|].
  destruct (fn (prop (after_rename options raw) field) r) as [v|x] eqn:Hfn; cbn [fst snd] in *.
  - split; [reflexivity|].
    rewrite (redefine_loop_other table post _ _ Hpost). apply obj_get_set_eq.
  - destruct (nullish x) eqn:Hn; cbn [fst snd] in *; [discriminate Hp|].
    split; [reflexivity|]. split; [reflexivity|].
    rewrite (redefine_loop_other table post _ _ Hpost). cbn [fst]. split.
    + unfold prop in Hold. pose proof (proj1 (obj_has_true _ _) Hturn) as [y Hy].
      rewrite Hy in Hold |- *.
      destruct (obj_get (after_rename options raw) field) eqn:Hg; [congruence|].
      apply obj_has_true in Hhas as [z Hz]. congruence.
    + apply in_or_app. right. apply in_or_app. left.
      apply redefine_loop_warnings. simpl. apply in_or_app. right. left. reflexivity.
Qed.

Lemma prepared_objects_Forall table options reg (P : jsobj value -> Prop) :
  (forall o, prepare_throws table options reg o = None ->
             P (fst (transform_row table options reg o))) ->
  forall rows h, prepared_throws table options reg h rows = None ->
                 Forall P (fst (prepared_objects table options reg h rows)).
Proof.
  intros HP rows. induction rows as [|row rest IH]; intros h Hno; simpl.
  - constructor.
  - cbn [prepared_throws] in Hno.
    destruct (prepare_throws _ _ _ _) eqn:Hp; [discriminate|]. cbn [fst].
    constructor; [apply HP, Hp | apply IH, Hno].
Qed.

(** the prepared rows of a call are the copies appended to the heap *)
Lemma prepared_of_object table rows options self w r :
  In r (snd (prepared_of table rows options self w)) ->
  exists i,
    r = length (heap w) + i
    /\ fst (prepared_objects table options (idsRegistry (ensure_self_map self w))
                             (heap w) rows) !! i
       = Some (object_at (fst (prepared_of table rows options self w)) r).
Proof.
  unfold prepared_of. rewrite map_rows_spec.
  destruct (ensure_mongo_id_column_keeps table (with_aborted false (ensure_self_map self w)))
    as [[Hh Hr] _].
  rewrite Hh, Hr. cbn [heap idsRegistry with_aborted]. rewrite ensure_self_map_heap.
  destruct (prepared_throws _ _ _ _ _) eqn:Hthrows; cbn [fst snd]; [intros []|].
  intros Hin. apply in_seq in Hin as [Hlo Hhi].
  unfold object_at. cbn [heap].
  rewrite lookup_app_r by exact Hlo.
  match goal with |- context [default [] ?t] => destruct t as [o|] eqn:Ho end.
  - exists (r - length (heap w)). split; [lia | exact Ho].
  - exfalso. apply lookup_ge_None in Ho.
    pose proof (prepared_objects_length _ _ _ _ _ Hthrows) as Hlen.
    unfold jsobj in *. lia.
Qed.

(** X23.  A field that holds an array once renaming, redefinition and
    foreign-key substitution are done, and for which [links[key]] is
    undefined ([links] has no such key and [Object.prototype] no such
    name), is not in the prepared row; and no prepared row of a call (the
    rows the insert takes its batch from) has an array-valued field for
    which [links[key]] is undefined. *)
Theorem unlinked_arrays_elided table rows options self w :
  (forall registry raw key val,
      prepare_throws table options registry raw = None ->
      obj_get (after_fk table options registry raw) key = Some val ->
      isArray val = true ->
      links_has (links options) key = false ->
      obj_get (fst (transform_row table options registry raw)) key = None)
  /\ (forall r,
        In r (snd (prepared_of table rows options self w)) ->
        no_unlinked_array (links options)
          (object_at (fst (prepared_of table rows options self w)) r)).
Proof.
  split.
  - intros registry raw key val Hp Hget Ha Hl.
    rewrite (transform_row_prepared _ _ _ _ Hp). cbn [fst].
    apply (elide_stage_removes table (links options) _ key val); assumption.
  - intros r Hin.
    destruct (prepared_of_object _ _ _ _ _ _ Hin) as (i & _ & Hi).
    assert (Hthrows : prepared_throws table options (idsRegistry (ensure_self_map self w))
                        (heap w) rows = None).
    { revert Hin. unfold prepared_of. rewrite map_rows_spec.
      destruct (ensure_mongo_id_column_keeps table (with_aborted false (ensure_self_map self w)))
        as [[Hh Hr] _].
      rewrite Hh, Hr. cbn [heap idsRegistry with_aborted]. rewrite ensure_self_map_heap.
      destruct (prepared_throws _ _ _ _ _); cbn [fst snd]; [intros []|reflexivity]. }
    eapply Forall_lookup_1; [|exact Hi].
    apply (prepared_objects_Forall table options _ (no_unlinked_array (links options)));
      [|exact Hthrows].
    intros o Hp. rewrite (transform_row_prepared _ _ _ _ Hp). cbn [fst].
    apply elide_stage_clean.
Qed.

(** ** The foreign-key stage *)

Section ForeignKeys.
Variable table : string.
Variable registry : jsobj idmap.
Implicit Types (s : stage) (e : string * string).

(** the entry when [idsRegistry[foreignCollection]] is a [Map] *)
Lemma fk_entry_own r warns field foreignCollection fkMap :
  obj_get registry foreignCollection = Some fkMap ->
  fk_entry table registry (r, warns) (field, foreignCollection)
  = (Returned tt,
     if negb (obj_has r field) then (r, warns)
     else if nullish (prop r field) then (r, warns)
     else match prop r field with
          | VArr ids =>
              (obj_set field (match map_fk_array fkMap ids with
                              | first :: _ => VNum first
                              | [] => VNull
                              end) r,
               if bool_decide (length (map_fk_array fkMap ids) = length ids) then warns
               else warns ++ [WarnLostFks table field
                                (length ids - length (map_fk_array fkMap ids))])
          | oldVal =>
              match fkMap !! String_ oldVal with
              | None => (obj_set field VNull r, warns ++ [WarnMissingFk table field oldVal])
              | Some newId => (obj_set field (VNum newId) r, warns)
              end
          end).
Proof.
  intros Hown. unfold fk_entry, registry_get. rewrite Hown. cbn [fst snd].
  destruct (negb (obj_has r field)); [reflexivity|].
  destruct (nullish (prop r field)); [reflexivity|].
  unfold fk_assign. destruct (prop r field); reflexivity.
Qed.

(** the entry when [idsRegistry[foreignCollection]] is undefined *)
Lemma fk_entry_missing r warns field foreignCollection :
  registry_get registry foreignCollection = Missing ->
  fk_entry table registry (r, warns) (field, foreignCollection)
  = (Returned tt,
     if negb (obj_has r field) then (r, warns)
     else if nullish (prop r field) then (r, warns)
     else (obj_set field VNull r,
           warns ++ [WarnMissingCollectionMap table field foreignCollection])).
Proof.
  intros Hm. unfold fk_entry. rewrite Hm. cbn [fst snd].
  destruct (negb (obj_has r field)); [reflexivity|].
  destruct (nullish (prop r field)); reflexivity.
Qed.

Lemma fk_assign_shape fkMap field oldVal s :
  exists more v,
    fk_assign table fkMap field oldVal s = (obj_set field v (fst s), snd s ++ more).
Proof.
  destruct s as [r warns]. unfold fk_assign. cbn [fst snd].
  assert (Hscalar : forall key,
             exists more v,
               match fkMap !! key with
               | None => (obj_set field VNull r, warns ++ [WarnMissingFk table field oldVal])
               | Some newId => (obj_set field (VNum newId) r, warns)
               end = (obj_set field v r, warns ++ more)).
  { intros key. destruct (fkMap !! key) as [newId|].
    - exists [], (VNum newId). rewrite app_nil_r. reflexivity.
    - eexists _, VNull. reflexivity. }
  destruct oldVal as [| | | | |ids|]; try apply Hscalar.
  destruct (bool_decide _).
  - exists []. eexists. rewrite app_nil_r. reflexivity.
  - eexists _, _. reflexivity.
Qed.

(** every branch of the entry either leaves the copy alone or assigns to
    its own field *)
Lemma fk_entry_shape s e :
  exists more,
    snd (snd (fk_entry table registry s e)) = snd s ++ more
    /\ (fst (snd (fk_entry table registry s e)) = fst s
        \/ exists v, fst (snd (fk_entry table registry s e)) = obj_set (fst e) v (fst s)).
Proof.
  destruct e as [field fc]. unfold fk_entry. cbn [fst snd].
  assert (Hsame : exists more, snd s = snd s ++ more)
    by (exists []; rewrite app_nil_r; reflexivity).
  destruct Hsame as [nil Hnil].
  destruct (negb (obj_has (fst s) field)); [exists nil; auto|].
  destruct (nullish (prop (fst s) field)); [exists nil; auto|].
  assert (Hassign : forall fkMap, exists more,
             snd (fk_assign table fkMap field (prop (fst s) field) s) = snd s ++ more
             /\ (fst (fk_assign table fkMap field (prop (fst s) field) s) = fst s
                 \/ exists v, fst (fk_assign table fkMap field (prop (fst s) field) s)
                              = obj_set field v (fst s))).
  { intros fkMap. destruct (fk_assign_shape fkMap field (prop (fst s) field) s)
      as (more & v & ->). exists more. split; [reflexivity|]. right. exists v. reflexivity. }
  destruct (registry_get registry fc) as [fkMap| |]; cbn [fst snd].
  - apply Hassign.
  - destruct (prop (fst s) field) as [| | | | |ids|] eqn:Hp; try solve [exists nil; auto].
    destruct (forallb nullish ids); cbn [fst snd]; [|exists nil; auto].
    apply Hassign.
  - eexists. split; [reflexivity|]. right. eexists. reflexivity.
Qed.

Lemma fk_entry_other s e k :
  fst e <> k -> obj_get (fst (snd (fk_entry table registry s e))) k = obj_get (fst s) k.
Proof.
  intros Hne. destruct (fk_entry_shape s e) as (_ & _ & [->|[v ->]]); [reflexivity|].
  apply obj_get_set_ne, Hne.
Qed.

Lemma fk_entry_warnings s e x :
  In x (snd s) -> In x (snd (snd (fk_entry table registry s e))).
Proof.
  intros Hx. destruct (fk_entry_shape s e) as (more & -> & _).
  apply in_or_app. left. exact Hx.
Qed.

Lemma fk_entry_NoDup s e :
  NoDup (keys (fst s)) -> NoDup (keys (fst (snd (fk_entry table registry s e)))).
Proof.
  intros Hnd. destruct (fk_entry_shape s e) as (_ & _ & [->|[v ->]]); [exact Hnd|].
  apply NoDup_set, Hnd.
Qed.

Lemma fk_loop_other fks : forall s k,
  k ∉ keys fks ->
  obj_get (fst (snd (stage_loop (fk_entry table registry) fks s))) k = obj_get (fst s) k.
Proof.
  intros s k Hk.
  apply (stage_loop_preserves (fk_entry table registry)
           (fun s' => obj_get (fst s') k = obj_get (fst s) k)); [|reflexivity].
  intros s' e Hin Hs'. rewrite fk_entry_other; [exact Hs'|].
  intros Heq. apply Hk. subst k. apply list_elem_of_In. apply (in_map fst), Hin.
Qed.

Lemma fk_loop_warnings fks s x :
  In x (snd s) -> In x (snd (snd (stage_loop (fk_entry table registry) fks s))).
Proof.
  apply (stage_loop_preserves (fk_entry table registry) (fun s' => In x (snd s'))).
  intros s' e _. apply fk_entry_warnings.
Qed.

Lemma fk_loop_NoDup fks s :
  NoDup (keys (fst s)) ->
  NoDup (keys (fst (snd (stage_loop (fk_entry table registry) fks s)))).
Proof.
  apply (stage_loop_preserves (fk_entry table registry) (fun s' => NoDup (keys (fst s')))).
  intros s' e _. apply fk_entry_NoDup.
Qed.

(** the stage throws only on a foreign collection that is named like a
    member of [Object.prototype] and has no map *)
Lemma fk_entry_returns s e :
  registry_get registry (snd e) <> Inherited ->
  fst (fk_entry table registry s e) = Returned tt.
Proof.
  destruct e as [field fc]. cbn [snd]. intros Hr. unfold fk_entry.
  destruct (negb (obj_has (fst s) field)); [reflexivity|].
  destruct (nullish (prop (fst s) field)); [reflexivity|].
  destruct (registry_get registry fc); [reflexivity | contradiction | reflexivity].
Qed.

Lemma fk_stage_returns fks r :
  Forall (fun fc => registry_get registry fc <> Inherited) (map snd fks) ->
  fst (fk_stage table registry fks r) = Returned tt.
Proof.
  intros Hall. unfold fk_stage. apply stage_loop_returns.
  intros s e Hin. apply fk_entry_returns.
  rewrite Forall_forall in Hall. apply Hall. apply list_elem_of_In, in_map, Hin.
Qed.

Lemma map_fk_array_nil fkMap ids :
  existsb (fun id => negb (nullish id) && bool_decide (is_Some (fkMap !! String_ id))) ids
  = false ->
  map_fk_array fkMap ids = [].
Proof.
  unfold map_fk_array. induction ids as [|id ids IH]; simpl; [reflexivity|].
  intros H. apply orb_false_elim in H as [Hid Hrest].
  destruct (nullish id); simpl in *; [exact (IH Hrest)|].
  destruct (fkMap !! String_ id) eqn:Hl; [|exact (IH Hrest)].
  apply bool_decide_eq_false in Hid. exfalso. apply Hid. eauto.
Qed.

(** the entry of a field whose value finds no id: the field becomes
    [null], and the entry warns unless the value is an empty array that
    meets a map *)
Lemma fk_entry_unresolved r warns field fc oldVal :
  obj_get r field = Some oldVal ->
  nullish oldVal = false ->
  registry_get registry fc <> Inherited ->
  fk_resolves registry fc oldVal = false ->
  exists more,
    fk_entry table registry (r, warns) (field, fc)
    = (Returned tt, (obj_set field VNull r, warns ++ more))
    /\ (oldVal <> VArr [] ->
        exists warning, more = [warning] /\ fk_warning table field warning = true).
Proof.
  intros Hget Hnn Hinh Hres.
  assert (Hp : prop r field = oldVal) by (unfold prop; rewrite Hget; reflexivity).
  assert (Hh : obj_has r field = true) by (apply obj_has_true; eauto).
  assert (Hwarn : forall t f, t = table -> f = field -> bool_decide (t = table ∧ f = field) = true).
  { intros. apply bool_decide_eq_true. auto. }
  unfold fk_resolves in Hres.
  destruct (obj_get registry fc) as [fkMap|] eqn:Hown.
  - rewrite (fk_entry_own _ _ _ _ _ Hown), Hh, Hp, Hnn. cbn [negb].
    destruct oldVal as [| | | | |ids|]; try discriminate;
      try (apply bool_decide_eq_false in Hres;
           destruct (fkMap !! _) eqn:Hl; [exfalso; apply Hres; eauto|];
           eexists; split; [reflexivity|]; intros _; eexists; split; [reflexivity|];
           apply Hwarn; reflexivity).
    rewrite (map_fk_array_nil _ _ Hres). cbn [length].
    destruct ids as [|id ids].
    + exists []. rewrite app_nil_r. split; [reflexivity | intros H; contradiction].
    + rewrite bool_decide_eq_false_2 by discriminate.
      eexists; split; [reflexivity|]. intros _. eexists; split; [reflexivity|].
      apply Hwarn; reflexivity.
  - assert (Hm : registry_get registry fc = Missing).
    { unfold registry_get in *. rewrite Hown in *.
      destruct (inherited fc); [contradiction | reflexivity]. }
    rewrite (fk_entry_missing _ _ _ _ Hm), Hh, Hp, Hnn. cbn [negb].
    eexists; split; [reflexivity|]. intros _. eexists; split; [reflexivity|].
    apply Hwarn; reflexivity.
Qed.

End ForeignKeys.

Section StageFacts.
Variable table : string.
Variable options : PutOptions.

Lemma assign_NoDup newName v c :
  NoDup (keys (fst c)) -> NoDup (keys (fst (assign newName v c))).
Proof.
  destruct c as [r proto]. unfold assign. cbn [fst]. intros Hnd.
  destruct (bool_decide _ && _ && _); [destruct v; exact Hnd|].
  apply NoDup_set, Hnd.
Qed.

Lemma rename_entry_NoDup c e :
  NoDup (keys (fst c)) -> NoDup (keys (fst (rename_entry c e))).
Proof.
  destruct e as [oldName newName]. unfold rename_entry. intros Hnd.
  destruct (obj_has (fst c) oldName); [|exact Hnd]. cbn [fst].
  apply NoDup_delete, assign_NoDup, Hnd.
Qed.

Lemma after_rename_NoDup raw : NoDup (keys raw) -> NoDup (keys (after_rename options raw)).
Proof.
  unfold after_rename, rename_stage. cbn [fst].
  generalize (rename options) ObjectPrototype. intros rn. revert raw.
  induction rn as [|e rn IH]; intros raw proto Hnd; simpl; [exact Hnd|].
  pose proof (rename_entry_NoDup (raw, proto) e Hnd) as H1.
  destruct (rename_entry (raw, proto) e) as [r1 p1]. apply IH, H1.
Qed.

Lemma after_redefine_NoDup raw :
  NoDup (keys raw) -> NoDup (keys (after_redefine table options raw)).
Proof.
  intros Hnd. unfold after_redefine, redefine_stage.
  apply redefine_loop_NoDup. cbn [fst]. apply after_rename_NoDup, Hnd.
Qed.

Lemma after_fk_NoDup registry raw :
  NoDup (keys raw) -> NoDup (keys (after_fk table options registry raw)).
Proof.
  intros Hnd. unfold after_fk, fk_stage.
  apply fk_loop_NoDup. cbn [fst]. apply after_redefine_NoDup, Hnd.
Qed.

(** the prepared row is what elision leaves of the row after the
    foreign-key stage *)
Lemma transform_row_fst registry raw :
  prepare_throws table options registry raw = None ->
  fst (transform_row table options registry raw)
  = fst (elide_stage table (links options) (after_fk table options registry raw)).
Proof. intros Hp. rewrite (transform_row_prepared _ _ _ _ Hp). reflexivity. Qed.

(** a field that holds no array after the foreign-key stage is in the
    prepared row as it is *)
Lemma transform_row_keeps registry raw key val :
  prepare_throws table options registry raw = None ->
  NoDup (keys raw) ->
  obj_get (after_fk table options registry raw) key = Some val ->
  isArray val = false ->
  obj_get (fst (transform_row table options registry raw)) key = Some val.
Proof.
  intros Hp Hnd Hget Ha. rewrite (transform_row_fst _ _ Hp).
  rewrite elide_stage_keeps; [exact Hget|].
  destruct (dropped _ _ key) eqn:Hd; [|reflexivity].
  apply dropped_elim in Hd as (val' & Hin & Ha' & _).
  apply (In_obj_get _ _ _ (after_fk_NoDup registry raw Hnd)) in Hin.
  congruence.
Qed.

(** a field that is missing after the foreign-key stage is missing in the
    prepared row *)
Lemma transform_row_absent registry raw key :
  prepare_throws table options registry raw = None ->
  obj_get (after_fk table options registry raw) key = None ->
  obj_get (fst (transform_row table options registry raw)) key = None.
Proof.
  intros Hp Hget. rewrite (transform_row_fst _ _ Hp).
  unfold elide_stage. rewrite elide_fold_object.
  destruct (obj_get (List.filter _ _) key) eqn:Hf; [|reflexivity].
  apply obj_get_filter_In in Hf as [Hin _].
  apply obj_get_None_keys in Hget. exfalso. apply Hget.
  apply list_elem_of_In. apply (in_map fst) in Hin. exact Hin.
Qed.

End StageFacts.

(** ** The registry under [set] *)

Section RegistryFacts.
Variable self : string.
Implicit Types (reg : jsobj idmap).

Lemma resolve_registry_set reg m c k k' id :
  obj_get reg self = Some m ->
  resolve (registry_set self k id reg) c k'
  = if decide (self = c) then (if decide (k = k') then Some id else m !! k')
    else resolve reg c k'.
Proof.
  intros Hm. unfold resolve, registry_set. rewrite Hm.
  destruct (decide (self = c)) as [<-|Hne].
  - rewrite obj_get_update_eq, Hm. simpl.
    destruct (decide (k = k')) as [<-|Hk].
    + apply lookup_insert_eq.
    + apply lookup_insert_ne, Hk.
  - rewrite obj_get_update_ne by exact Hne. reflexivity.
Qed.

Lemma registry_set_other reg c k id :
  c <> self -> obj_get (registry_set self k id reg) c = obj_get reg c.
Proof.
  intros Hne. unfold registry_set. destruct (obj_get reg self); [|reflexivity].
  apply obj_get_update_ne. congruence.
Qed.

Lemma registry_set_has reg c k id :
  obj_has (registry_set self k id reg) c = obj_has reg c.
Proof.
  unfold registry_set. destruct (obj_get reg self); [|reflexivity]. apply obj_has_update.
Qed.

Lemma registry_set_keys reg k id : keys (registry_set self k id reg) = keys reg.
Proof.
  unfold registry_set. destruct (obj_get reg self); [|reflexivity]. apply keys_update.
Qed.

Lemma set_all_other pairs : forall reg c,
  c <> self -> obj_get (set_all self pairs reg) c = obj_get reg c.
Proof.
  induction pairs as [|kv pairs IH]; intros reg c Hne; simpl; [reflexivity|].
  unfold set_all in *. simpl. rewrite (IH _ _ Hne). apply registry_set_other, Hne.
Qed.

Lemma set_all_has pairs : forall reg c, obj_has (set_all self pairs reg) c = obj_has reg c.
Proof.
  induction pairs as [|kv pairs IH]; intros reg c; simpl; [reflexivity|].
  unfold set_all in *. simpl. rewrite IH. apply registry_set_has.
Qed.

Lemma set_all_keys pairs : forall reg, keys (set_all self pairs reg) = keys reg.
Proof.
  induction pairs as [|kv pairs IH]; intros reg; simpl; [reflexivity|].
  unfold set_all in *. simpl. rewrite IH. apply registry_set_keys.
Qed.

Lemma set_all_app pairs pairs' reg :
  set_all self (pairs ++ pairs') reg = set_all self pairs' (set_all self pairs reg).
Proof. unfold set_all. apply foldl_app. Qed.

(** after a run of [set]s a key holds its last binding, or what it held *)
Lemma resolve_set_all pairs : forall reg k,
  obj_has reg self = true ->
  resolve (set_all self pairs reg) self k
  = match last_binding pairs k with
    | Some id => Some id
    | None => resolve reg self k
    end.
Proof.
  unfold last_binding.
  induction pairs as [|[k0 id0] pairs IH] using rev_ind; intros reg k Hh; [reflexivity|].
  rewrite set_all_app, rev_app_distr. simpl.
  assert (Hh' : obj_has (set_all self pairs reg) self = true) by (rewrite set_all_has; exact Hh).
  apply obj_has_true in Hh' as [m Hm].
  unfold set_all at 1. simpl. rewrite (resolve_registry_set _ m _ _ _ _ Hm).
  destruct (decide (self = self)); [|contradiction].
  destruct (decide (k0 = k)) as [->|Hk]; [reflexivity|].
  rewrite <- (IH reg k Hh). unfold resolve. rewrite Hm. reflexivity.
Qed.

Lemma last_binding_In pairs k id : last_binding pairs k = Some id -> In (k, id) pairs.
Proof. unfold last_binding. intros H. apply obj_get_In in H. apply in_rev. exact H. Qed.

Lemma last_binding_is_Some pairs k : k ∈ map fst pairs -> is_Some (last_binding pairs k).
Proof.
  intros Hin. unfold last_binding.
  destruct (obj_get (rev pairs) k) eqn:Hg; [eauto|].
  apply obj_get_None_keys in Hg. exfalso. apply Hg.
  unfold keys. rewrite map_rev. apply list_elem_of_In, in_rev. rewrite rev_involutive.
  apply list_elem_of_In, Hin.
Qed.

Lemma last_binding_None pairs k : k ∉ map fst pairs -> last_binding pairs k = None.
Proof.
  intros Hk. destruct (last_binding pairs k) eqn:Hl; [|reflexivity].
  apply last_binding_In in Hl. exfalso. apply Hk.
  apply list_elem_of_In. apply (in_map fst) in Hl. exact Hl.
Qed.

Lemma registry_get_own reg m : obj_get reg self = Some m -> registry_get reg self = OwnMap m.
Proof. intros H. unfold registry_get. rewrite H. reflexivity. Qed.

Lemma set_error_own reg : obj_has reg self = true -> set_error reg self = None.
Proof.
  intros H. apply obj_has_true in H as [m Hm].
  unfold set_error. rewrite (registry_get_own _ _ Hm). reflexivity.
Qed.

Lemma set_error_None reg : set_error reg self = None -> obj_has reg self = true.
Proof.
  unfold set_error, registry_get, obj_has.
  destruct (obj_get reg self); [reflexivity|]. destruct (inherited self); discriminate.
Qed.

Lemma set_error_Some reg msg : set_error reg self = Some msg -> obj_has reg self = false.
Proof.
  unfold set_error, registry_get, obj_has.
  destruct (obj_get reg self); [discriminate | reflexivity].
Qed.

(** a [set] on what is no [Map] throws and changes nothing *)
Lemma registry_set_absent reg k id :
  obj_has reg self = false -> registry_set self k id reg = reg.
Proof. intros Hh. unfold registry_set. apply obj_has_false in Hh. rewrite Hh. reflexivity. Qed.

Lemma set_all_absent pairs : forall reg,
  obj_has reg self = false -> set_all self pairs reg = reg.
Proof.
  induction pairs as [|kv pairs IH]; intros reg Hh; [reflexivity|].
  unfold set_all in *. simpl. rewrite (registry_set_absent _ _ _ Hh). apply IH, Hh.
Qed.

Lemma set_error_set reg k id :
  set_error (registry_set self k id reg) self = set_error reg self.
Proof.
  unfold set_error, registry_get.
  pose proof (registry_set_has reg self k id) as Hh. unfold obj_has in Hh.
  destruct (obj_get (registry_set self k id reg) self), (obj_get reg self);
    try discriminate; reflexivity.
Qed.

Lemma set_error_set_all pairs : forall reg,
  set_error (set_all self pairs reg) self = set_error reg self.
Proof.
  induction pairs as [|kv pairs IH]; intros reg; [reflexivity|].
  unfold set_all in *. simpl. rewrite IH. apply set_error_set.
Qed.

Lemma set_id_eq key id w :
  set_id self key id w
  = (match set_error (idsRegistry w) self with
     | Some msg => Thrown msg
     | None => Returned tt
     end,
     with_registry (registry_set self key id (idsRegistry w)) w).
Proof.
  unfold set_id, set_error.
  destruct (registry_get (idsRegistry w) self) as [m| |] eqn:Hg; [reflexivity| |];
    (rewrite registry_set_absent; [destruct w; reflexivity|]);
    unfold registry_get, obj_has in *; destruct (obj_get (idsRegistry w) self);
    try discriminate; reflexivity.
Qed.

Lemma skip_pairs_cons em w r toSkip :
  skip_pairs em w (r :: toSkip)
  = match mongo_id_of w r with
    | VStr s =>
        match em !! s with
        | Some id => (s, id) :: skip_pairs em w toSkip
        | None => skip_pairs em w toSkip
        end
    | _ => skip_pairs em w toSkip
    end.
Proof.
  unfold skip_pairs. cbn [omap list_omap].
  destruct (mongo_id_of w r); try reflexivity. destruct (em !! s); reflexivity.
Qed.

(** the two loops of the upsert are runs of [set]s *)
Lemma record_existing_loop em toSkip w :
  for_each (record_existing self em) toSkip tt w
  = (sets_outcome (idsRegistry w) self (skip_pairs em w toSkip),
     with_registry (set_all self (skip_pairs em w toSkip) (idsRegistry w)) w).
Proof.
  assert (Hgen : forall w0 w',
             heap w' = heap w0 ->
             for_each (record_existing self em) toSkip tt w'
             = (sets_outcome (idsRegistry w') self (skip_pairs em w0 toSkip),
                with_registry (set_all self (skip_pairs em w0 toSkip) (idsRegistry w')) w')).
  { intros w0. induction toSkip as [|r toSkip IH]; intros w' Hh.
    - simpl. unfold sets_outcome. destruct (set_error _ _); destruct w'; reflexivity.
    - cbn [for_each]. unfold record_existing at 1. rewrite skip_pairs_cons.
      assert (Hm : mongo_id_of w' r = mongo_id_of w0 r)
        by (unfold mongo_id_of, object_at; rewrite Hh; reflexivity).
      rewrite Hm.
      destruct (mongo_id_of w0 r) as [| | | |s| |]; try (apply IH; exact Hh).
      destruct (em !! s) as [id|]; [|apply IH; exact Hh].
      rewrite set_id_eq.
      destruct (set_error (idsRegistry w') self) as [msg|] eqn:He.
      + unfold sets_outcome. rewrite He.
        apply set_error_Some in He.
        rewrite (registry_set_absent _ _ _ He).
        rewrite (set_all_absent ((s, id) :: skip_pairs em w0 toSkip) _ He).
        destruct w'; reflexivity.
      + rewrite IH by exact Hh. cbn [idsRegistry with_registry]. unfold sets_outcome.
        rewrite set_error_set, He. destruct w'; reflexivity. }
  apply Hgen. reflexivity.
Qed.

Lemma record_inserted_loop inserted : forall w,
  for_each (record_inserted self) inserted tt w
  = (sets_outcome (idsRegistry w) self inserted,
     with_registry (set_all self (inserted_pairs inserted) (idsRegistry w)) w).
Proof.
  induction inserted as [|row inserted IH]; intros w.
  - simpl. unfold sets_outcome. destruct (set_error _ _); destruct w; reflexivity.
  - cbn [for_each]. unfold record_inserted at 1. rewrite set_id_eq.
    destruct (set_error (idsRegistry w) self) as [msg|] eqn:He.
    + unfold sets_outcome. rewrite He. apply set_error_Some in He.
      rewrite (registry_set_absent _ _ _ He).
      rewrite (set_all_absent (inserted_pairs (row :: inserted)) _ He).
      destruct w; reflexivity.
    + rewrite IH. cbn [idsRegistry with_registry]. unfold sets_outcome.
      rewrite set_error_set, He. destruct w; reflexivity.
Qed.

End RegistryFacts.

(** ** The store *)

Section StoreFacts.
Implicit Types (d : database) (t : pg_table) (batch : list (jsobj value)).

Lemma number_rows_snd batch : forall next, map snd (number_rows next batch) = batch.
Proof. induction batch as [|o batch IH]; intros next; simpl; [|rewrite IH]; reflexivity. Qed.

Lemma number_rows_length batch : forall next, length (number_rows next batch) = length batch.
Proof. induction batch as [|o batch IH]; intros next; simpl; [|rewrite IH]; reflexivity. Qed.

Lemma number_rows_stored batch o : forall next,
  In o batch -> exists id, In (id, o) (number_rows next batch).
Proof.
  induction batch as [|o0 batch IH]; intros next Hin; [contradiction|].
  destruct Hin as [->|Hin]; simpl.
  - exists next. left. reflexivity.
  - destruct (IH (next + 1)%Z Hin) as [id Hid]. exists id. right. exact Hid.
Qed.

(** what an accepted insert does: the rows go behind those of the table,
    as the store keeps them, numbered from the next id on *)
Lemma pg_insert_Returned d sq table batch d' inserted sq' :
  pg_insert d sq table batch = (Returned (d', inserted), sq') ->
  exists t,
    d !! table = Some t
    /\ d' = <[table := PgTable (t_mongo_id t) (t_unique t)
                         (t_rows t ++ number_rows (serial_of sq table)
                                                  (map pg_store_row batch))
                         (t_check t) (t_alter t)]> d
    /\ inserted = map (fun x => (fst x, prop (snd x) "mongo_id"))
                      (number_rows (serial_of sq table) (map pg_store_row batch))
    /\ sq' = draw table (length batch) sq
    /\ t_check t (rows_of d) (map pg_store_row batch) = None
    /\ unique_ok t (map pg_store_row batch) = true.
Proof.
  unfold pg_insert. destruct (d !! table) as [t|]; [|discriminate].
  destruct (negb (t_mongo_id t) && _); [discriminate|].
  destruct (t_check t _ _) eqn:Hc; [discriminate|].
  destruct (unique_ok t _) eqn:Hu; [|discriminate].
  intros H. injection H as <- <- <-. exists t. auto 10.
Qed.

Lemma rows_of_insert d table t rows' table' :
  d !! table = Some t ->
  rows_of (<[table := PgTable (t_mongo_id t) (t_unique t) (t_rows t ++ rows') (t_check t)
                            (t_alter t)]> d)
          table'
  = if decide (table = table') then rows_of d table ++ rows' else rows_of d table'.
Proof.
  intros Ht. unfold rows_of. destruct (decide (table = table')) as [<-|Hne].
  - rewrite lookup_insert_eq, Ht. reflexivity.
  - rewrite lookup_insert_ne by exact Hne. reflexivity.
Qed.

(** an insert never takes a row away, from any table *)
Lemma pg_insert_monotone d sq table batch d' inserted sq' table' x :
  pg_insert d sq table batch = (Returned (d', inserted), sq') ->
  In x (rows_of d table') -> In x (rows_of d' table').
Proof.
  intros H Hx. apply pg_insert_Returned in H as (t & Ht & -> & _).
  rewrite (rows_of_insert _ _ _ _ _ Ht).
  destruct (decide (table = table')) as [<-|]; [apply in_or_app; left|]; exact Hx.
Qed.

Lemma pg_insert_other d sq table batch d' inserted sq' table' :
  pg_insert d sq table batch = (Returned (d', inserted), sq') ->
  table <> table' -> d' !! table' = d !! table'.
Proof.
  intros H Hne. apply pg_insert_Returned in H as (t & Ht & -> & _).
  apply lookup_insert_ne, Hne.
Qed.

(** the counters only move forward *)
Lemma serial_of_draw table n sq table' :
  serial_of (draw table n sq) table'
  = if decide (table = table') then (serial_of sq table + Z.of_nat n)%Z
    else serial_of sq table'.
Proof.
  unfold draw, serial_of. destruct (decide (table = table')) as [<-|Hne].
  - rewrite lookup_insert_eq. reflexivity.
  - rewrite lookup_insert_ne by exact Hne. reflexivity.
Qed.

Lemma pg_insert_serials d sq table batch table' :
  (serial_of sq table' <= serial_of (snd (pg_insert d sq table batch)) table')%Z.
Proof.
  assert (Hdraw : forall n, (serial_of sq table' <= serial_of (draw table n sq) table')%Z).
  { intros n. rewrite serial_of_draw. destruct (decide (table = table')) as [<-|]; lia. }
  unfold pg_insert. destruct (d !! table) as [t|]; [|apply Z.le_refl].
  destruct (negb (t_mongo_id t) && _); [apply Z.le_refl|].
  destruct (t_check t _ _); [apply Hdraw|].
  destruct (unique_ok t _); apply Hdraw.
Qed.

Lemma pg_select_Returned d table ids existing :
  pg_select_ids d table ids = Returned existing ->
  exists t,
    d !! table = Some t /\ t_mongo_id t = true
    /\ forall id s,
         In (id, s) existing
         <-> (exists cols, In (id, cols) (t_rows t) /\ mongo_text cols = Some s)
             /\ s ∈ map pg_text ids.
Proof.
  unfold pg_select_ids. destruct (d !! table) as [t|]; [|discriminate].
  destruct (t_mongo_id t) eqn:Hcol; [|discriminate].
  intros H. injection H as <-. exists t. split; [reflexivity|]. split; [exact Hcol|].
  intros id s. rewrite <- list_elem_of_In, list_elem_of_omap. split.
  - intros ([id' cols] & Hin & Hsome). simpl in Hsome.
    destruct (mongo_text cols) as [s'|] eqn:Ht; [|discriminate].
    destruct (bool_decide_reflect (s' ∈ map pg_text ids)) as [Hs|]; [|discriminate].
    injection Hsome as -> ->. split; [|exact Hs].
    exists cols. split; [apply list_elem_of_In, Hin | exact Ht].
  - intros [(cols & Hin & Ht) Hs]. exists (id, cols). split; [apply list_elem_of_In, Hin|].
    simpl. rewrite Ht. rewrite bool_decide_eq_true_2 by exact Hs. reflexivity.
Qed.

Lemma pg_select_exists d table ids t :
  d !! table = Some t -> t_mongo_id t = true ->
  exists existing, pg_select_ids d table ids = Returned existing.
Proof. intros Ht Hcol. unfold pg_select_ids. rewrite Ht, Hcol. eauto. Qed.

(** [existingMap] holds, for a text, the id of the last row that has it *)
Lemma existingMap_lookup existing : forall (m0 : idmap) s,
  foldl (fun m x => <[snd x := fst x]> m) m0 existing !! s
  = match last_binding (map (fun x : Z * string => (snd x, fst x)) existing) s with
    | Some id => Some id
    | None => m0 !! s
    end.
Proof.
  unfold last_binding.
  induction existing as [|[id0 s0] existing IH] using rev_ind; intros m0 s; [reflexivity|].
  rewrite foldl_app, map_app, rev_app_distr. simpl.
  destruct (decide (s0 = s)) as [->|Hne].
  - apply lookup_insert_eq.
  - rewrite lookup_insert_ne by exact Hne. apply IH.
Qed.

Lemma existingMap_Some existing s id :
  make_existingMap existing !! s = Some id -> In (id, s) existing.
Proof.
  unfold make_existingMap. rewrite existingMap_lookup.
  destruct (last_binding _ s) as [id'|] eqn:Hl; [|rewrite lookup_empty; discriminate].
  intros H. injection H as ->. apply last_binding_In in Hl.
  apply in_map_iff in Hl as ([id' s'] & Heq & Hin). simpl in Heq. congruence.
Qed.

Lemma existingMap_is_Some existing s id :
  In (id, s) existing -> is_Some (make_existingMap existing !! s).
Proof.
  intros Hin. unfold make_existingMap. rewrite existingMap_lookup.
  destruct (last_binding_is_Some (map (fun x : Z * string => (snd x, fst x)) existing) s)
    as [id' ->]; [|eauto].
  rewrite map_map. simpl. apply list_elem_of_In. apply in_map_iff. exists (id, s). auto.
Qed.

(** the [mongo_id] a row is stored with *)
Lemma mongo_text_stored o v :
  obj_get o "mongo_id" = Some v -> nullish v = false ->
  mongo_text (pg_store_row o) = Some (pg_text v)
  /\ prop (pg_store_row o) "mongo_id" = VStr (pg_text v).
Proof.
  intros Hget Hnn. unfold mongo_text, pg_store_row, prop. rewrite Hget, Hnn.
  rewrite obj_get_update_eq, Hget. simpl. auto.
Qed.

Lemma pg_store_row_other o k :
  k <> "mongo_id" -> obj_get (pg_store_row o) k = obj_get o k.
Proof.
  intros Hne. unfold pg_store_row. destruct (obj_get o "mongo_id") as [v|]; [|reflexivity].
  destruct (nullish v); [reflexivity|]. apply obj_get_update_ne. congruence.
Qed.

Lemma truthy_not_nullish v : truthy v = true -> nullish v = false.
Proof. destruct v; simpl; congruence. Qed.

Lemma truthy_prop o k : truthy (prop o k) = true -> obj_get o k = Some (prop o k).
Proof. unfold prop. destruct (obj_get o k); [reflexivity | discriminate]. Qed.

End StoreFacts.

(** ** The upsert *)

Section UpsertFacts.
Variables table self : string.

(** the upsert, with its two loops over the registry written as runs of
    [set]s *)
Lemma upsert_eq prepared w :
  upsert table self prepared w
  = match trx_select w table (List.filter truthy (map (mongo_id_of w) prepared)) with
    | (Thrown msg, w0) => (Thrown msg, w0)
    | (Returned existing, _) =>
        let em := make_existingMap existing in
        let toInsert := toInsert_of em w prepared in
        let toSkip := toSkip_of em w prepared in
        let reg1 := set_all self (skip_pairs em w toSkip) (idsRegistry w) in
        let c1 := console w ++ match toSkip with
                               | [] => []
                               | _ :: _ => [LogAlreadyExist table (length toSkip)]
                               end in
        match sets_outcome (idsRegistry w) self (skip_pairs em w toSkip) with
        | Thrown msg => (Thrown msg, World (heap w) (db w) reg1 c1 (serials w) false)
        | Returned _ =>
            match toInsert with
            | [] => (Returned tt,
                     World (heap w) (db w) reg1 (c1 ++ [LogInserted table 0]) (serials w) false)
            | _ :: _ =>
                match pg_insert (db w) (serials w) table (map (object_at w) toInsert) with
                | (Thrown msg, sq) => (Thrown msg, World (heap w) (db w) reg1 c1 sq true)
                | (Returned (d, inserted), sq) =>
                    let reg2 := set_all self (inserted_pairs inserted) reg1 in
                    match sets_outcome (idsRegistry w) self inserted with
                    | Thrown msg => (Thrown msg, World (heap w) d reg2 c1 sq false)
                    | Returned _ =>
                        (Returned tt,
                         World (heap w) d reg2 (c1 ++ [LogInserted table (length inserted)])
                               sq false)
                    end
                end
            end
        end
    end.
Proof.
  unfold upsert.
  destruct (trx_select w table _) as [[existing|msg] w0] eqn:Hsel; [|reflexivity].
  apply trx_select_Returned in Hsel as (-> & Hab & _).
  cbn zeta.
  set (em := make_existingMap existing).
  set (toSkip := toSkip_of em w prepared).
  set (toInsert := toInsert_of em w prepared).
  assert (Hw1 : match toSkip with
                | [] => (Returned tt, w)
                | _ :: _ => for_each (record_existing self em) toSkip tt
                              (emit (LogAlreadyExist table (length toSkip)) w)
                end
                = (sets_outcome (idsRegistry w) self (skip_pairs em w toSkip),
                   World (heap w) (db w)
                         (set_all self (skip_pairs em w toSkip) (idsRegistry w))
                         (console w ++ match toSkip with
                                       | [] => []
                                       | _ :: _ => [LogAlreadyExist table (length toSkip)]
                                       end) (serials w) false)).
  { destruct toSkip as [|r0 rest] eqn:Hs.
    - destruct w; simpl in *. rewrite app_nil_r, Hab. unfold sets_outcome.
      destruct (set_error _ _); reflexivity.
    - rewrite record_existing_loop. rewrite <- Hab. reflexivity. }
  rewrite Hw1.
  destruct (sets_outcome (idsRegistry w) self (skip_pairs em w toSkip)) as [[]|msg];
    [|reflexivity].
  destruct toInsert as [|r0 rest]; [reflexivity|].
  unfold trx_insert. cbn [aborted db serials].
  change (map (object_at (World (heap w) ?d ?r ?c ?q ?a))) with (map (object_at w)).
  destruct (pg_insert _ _ _ _) as [[[d inserted]|msg] sq]; [|reflexivity].
  rewrite record_inserted_loop. cbn [idsRegistry with_serials with_db with_registry].
  unfold sets_outcome. rewrite set_error_set_all.
  destruct (set_error (idsRegistry w) self); [destruct inserted|]; reflexivity.
Qed.

(** when [idsRegistry[self]] is a [Map], the loops over it do not throw *)
Lemma sets_outcome_own {A} reg (pairs : list A) :
  obj_has reg self = true -> sets_outcome reg self pairs = Returned tt.
Proof. intros H. unfold sets_outcome. rewrite (set_error_own _ _ H). reflexivity. Qed.

End UpsertFacts.

Section UpsertParts.
Variables table self : string.

Lemma toInsert_In em w prepared r :
  In r (toInsert_of em w prepared)
  <-> In r prepared /\ truthy (mongo_id_of w r) = true
      /\ existing_has em (mongo_id_of w r) = false.
Proof.
  unfold toInsert_of. rewrite filter_In, andb_true_iff, negb_true_iff. tauto.
Qed.

Lemma toSkip_In em w prepared r :
  In r (toSkip_of em w prepared)
  <-> In r prepared /\ truthy (mongo_id_of w r) = true
      /\ existing_has em (mongo_id_of w r) = true.
Proof. unfold toSkip_of. rewrite filter_In, andb_true_iff. tauto. Qed.

Lemma existing_has_string em v :
  existing_has em v = true -> exists s id, v = VStr s /\ em !! s = Some id.
Proof.
  unfold existing_has, existing_get. destruct v; try discriminate.
  destruct (em !! s) as [id|] eqn:Hs; [eauto | discriminate].
Qed.

Lemma skip_pairs_In em w l k id :
  In (k, id) (skip_pairs em w l)
  <-> exists r, In r l /\ mongo_id_of w r = VStr k /\ em !! k = Some id.
Proof.
  unfold skip_pairs. rewrite <- list_elem_of_In, list_elem_of_omap. split.
  - intros (r & Hin & H). exists r. split; [apply list_elem_of_In, Hin|].
    destruct (mongo_id_of w r); try discriminate.
    destruct (em !! s) eqn:Hs; [|discriminate]. injection H as -> ->. auto.
  - intros (r & Hin & Hm & He). exists r. split; [apply list_elem_of_In, Hin|].
    rewrite Hm, He. reflexivity.
Qed.

Lemma number_rows_In batch next x : In x (number_rows next batch) -> In (snd x) batch.
Proof.
  intros Hx. rewrite <- (number_rows_snd batch next). apply in_map, Hx.
Qed.

Lemma new_rows_In tbl w l x :
  In x (new_rows tbl w l) -> exists r, In r l /\ snd x = pg_store_row (object_at w r).
Proof.
  intros Hx. apply number_rows_In in Hx. rewrite map_map in Hx.
  apply in_map_iff in Hx as (r & Heq & Hin). eauto.
Qed.

Lemma new_rows_stored tbl w l r :
  In r l -> exists id, In (id, pg_store_row (object_at w r)) (new_rows tbl w l).
Proof.
  intros Hin. apply number_rows_stored. rewrite map_map.
  apply in_map_iff. exists r. auto.
Qed.

Lemma inserted_pairs_new (new : list (Z * jsobj value)) :
  inserted_pairs (map (fun x => (fst x, prop (snd x) "mongo_id")) new)
  = map (fun x => (String_ (prop (snd x) "mongo_id"), fst x)) new.
Proof. unfold inserted_pairs. rewrite map_map. reflexivity. Qed.

(** a stored row of [toInsert] carries the text of its [mongo_id] *)
Lemma stored_text w r :
  truthy (mongo_id_of w r) = true ->
  mongo_text (pg_store_row (object_at w r)) = Some (pg_text (mongo_id_of w r))
  /\ String_ (prop (pg_store_row (object_at w r)) "mongo_id") = pg_text (mongo_id_of w r).
Proof.
  intros Ht. unfold mongo_id_of in *.
  destruct (mongo_text_stored _ _ (truthy_prop _ _ Ht) (truthy_not_nullish _ Ht)) as [H1 H2].
  rewrite H1, H2. auto.
Qed.

(** a key whose entry a run of [set]s changes is a key of the run *)
Lemma set_all_changes pairs pairs' reg k :
  resolve (set_all self pairs' (set_all self pairs reg)) self k <> resolve reg self k ->
  k ∈ map fst pairs \/ k ∈ map fst pairs'.
Proof.
  intros Hne. destruct (obj_has reg self) eqn:Hh.
  - rewrite resolve_set_all in Hne by (rewrite set_all_has; exact Hh).
    rewrite resolve_set_all in Hne by exact Hh.
    destruct (decide (k ∈ map fst pairs')) as [|Hn']; [auto|].
    destruct (decide (k ∈ map fst pairs)) as [|Hn]; [auto|].
    rewrite (last_binding_None _ _ Hn'), (last_binding_None _ _ Hn) in Hne. contradiction.
  - rewrite (set_all_absent self pairs reg Hh), (set_all_absent self pairs' reg Hh) in Hne. contradiction.
Qed.

End UpsertParts.


(** ** Recording and finding ids *)

(** C3 (as the code has it).  [idsRegistry[collection].set(key, id)] on a
    collection that has its map: nothing changes when the pair is already
    recorded with that id; otherwise the pair is recorded with the new id,
    also over a different id recorded before, and no error is raised (the
    operation has no failing outcome); every other pair is as it was. *)
Theorem registry_set_overwrites collection registry m key id :
  obj_get registry collection = Some m ->
  (m !! key = Some id -> registry_set collection key id registry = registry)
  /\ (forall old, m !! key = Some old ->
        resolve (registry_set collection key id registry) collection key = Some id)
  /\ resolve (registry_set collection key id registry) collection key = Some id
  /\ (forall c k, (c, k) <> (collection, key) ->
        resolve (registry_set collection key id registry) c k = resolve registry c k).
Proof.
  intros Hm.
  assert (Hset : resolve (registry_set collection key id registry) collection key = Some id).
  { rewrite (resolve_registry_set collection _ m _ _ _ _ Hm).
    destruct (decide (collection = collection)); [|contradiction].
    destruct (decide (key = key)); [reflexivity | contradiction]. }
  split; [|split; [|split]].
  - intros Hk. unfold registry_set. rewrite Hm.
    rewrite (insert_id m key id Hk). apply obj_update_same, Hm.
  - intros old _. exact Hset.
  - exact Hset.
  - intros c k Hne. rewrite (resolve_registry_set collection _ m _ _ _ _ Hm).
    destruct (decide (collection = c)) as [<-|]; [|reflexivity].
    destruct (decide (key = k)) as [<-|]; [contradiction|].
    unfold resolve. rewrite Hm. reflexivity.
Qed.

Lemma scan_registry_app pre post key :
  Forall (fun e : string * idmap => snd e !! key = None) pre ->
  scan_registry (pre ++ post) key = scan_registry post key.
Proof.
  induction pre as [|[c m] pre IH]; intros Hpre; simpl; [reflexivity|].
  inversion Hpre as [|? ? Hm Hrest]; subst. simpl in Hm. rewrite Hm. apply IH, Hrest.
Qed.

(** C2 (as the code has it).  The target of a link element is what the
    first map of [idsRegistry], in the order of its entries, holds for the
    element: the maps before it do not have the key.  [link_element] takes
    it whatever the options say (it is not given them).  When it is a
    usable id, it is what [transform] is called with and what the link row
    [{ ...base, ...extra }] is built on: [base] holds it under
    [foreignIdCol], and so does the row unless the extra attributes of
    [transform] have a property of that name, which then wins.  When there
    is none, or it is 0, the element is skipped with a warning. *)
Theorem link_target_is_first_match registry key id :
  (scan_registry registry key = Some id
   <-> exists pre c m post,
         registry = pre ++ (c, m) :: post
         /\ m !! key = Some id
         /\ Forall (fun e : string * idmap => snd e !! key = None) pre)
  /\ (forall cfg selfSqlId raw linkRows w foreignOldId,
        idsRegistry w = registry -> String_ foreignOldId = key ->
        scan_registry registry key = Some id ->
        id <> 0%Z ->
        prop (link_base cfg selfSqlId id) (foreignIdCol cfg) = VNum id
        /\ match transform cfg with
           | None =>
               link_element cfg selfSqlId raw linkRows w foreignOldId
               = (Returned (linkRows ++ [link_base cfg selfSqlId id]), w)
           | Some f =>
               match f selfSqlId id raw with
               | Returned extra =>
                   let linkRow := obj_assign (link_base cfg selfSqlId id) (default [] extra) in
                   link_element cfg selfSqlId raw linkRows w foreignOldId
                   = (Returned (linkRows ++ [linkRow]), w)
                   /\ prop linkRow (foreignIdCol cfg)
                      = match obj_get (rev (default [] extra)) (foreignIdCol cfg) with
                        | Some v => v
                        | None => VNum id
                        end
               | Thrown msg =>
                   link_element cfg selfSqlId raw linkRows w foreignOldId = (Thrown msg, w)
               end
           end)
  /\ (forall cfg selfSqlId raw linkRows w foreignOldId,
        idsRegistry w = registry -> String_ foreignOldId = key ->
        no_id (scan_registry registry key) = true ->
        link_element cfg selfSqlId raw linkRows w foreignOldId
        = (Returned linkRows, emit (WarnLinkSkipMissingFk foreignOldId) w)).
Proof.
  split; [|split].
  - split.
    + induction registry as [|[c m] reg IH]; simpl; [discriminate|].
      destruct (m !! key) as [id'|] eqn:Hm.
      * intros H. injection H as ->. exists [], c, m, reg. auto.
      * intros H. destruct (IH H) as (pre & c' & m' & post & -> & Hm' & Hpre).
        exists ((c, m) :: pre), c', m', post. split; [reflexivity|]. split; [exact Hm'|].
        constructor; [exact Hm | exact Hpre].
    + intros (pre & c & m & post & -> & Hm & Hpre).
      rewrite (scan_registry_app _ _ _ Hpre). simpl. rewrite Hm. reflexivity.
  - intros cfg selfSqlId raw linkRows w foreignOldId Hreg Hkey Hscan Hid.
    assert (Hbase : prop (link_base cfg selfSqlId id) (foreignIdCol cfg) = VNum id).
    { unfold link_base, prop. rewrite obj_get_set_eq. reflexivity. }
    split; [exact Hbase|].
    unfold link_element. rewrite Hreg, Hkey, Hscan.
    change (default 0%Z (Some id)) with id. cbn [no_id].
    rewrite (proj2 (Z.eqb_neq id 0) Hid).
    destruct (transform cfg) as [f|]; [|reflexivity].
    destruct (f selfSqlId id raw) as [extra|msg]; [|reflexivity].
    cbn zeta. split; [reflexivity|].
    unfold prop in *. rewrite obj_get_assign.
    destruct (obj_get (rev _) _); [reflexivity | exact Hbase].
  - intros cfg selfSqlId raw linkRows w foreignOldId Hreg Hkey Hscan.
    unfold link_element. rewrite Hreg, Hkey, Hscan. reflexivity.
Qed.

(** ** Link rows *)

Section LinkFacts.
Variables self arrayField : string.
Variable cfg : link_cfg.
Hypothesis transform_returns :
  forall f a b o, transform cfg = Some f -> is_thrown (f a b o) = false.

Lemma link_element_resolved selfSqlId raw acc w e :
  no_id (scan_registry (idsRegistry w) (String_ e)) = false ->
  exists linkRow, link_element cfg selfSqlId raw acc w e = (Returned (acc ++ [linkRow]), w).
Proof.
  intros Hid. unfold link_element. rewrite Hid.
  destruct (transform cfg) as [f|] eqn:Hf; [|eauto].
  specialize (transform_returns f selfSqlId
                (default 0%Z (scan_registry (idsRegistry w) (String_ e))) raw eq_refl).
  destruct (f _ _ _) as [extra|msg]; [eauto | discriminate].
Qed.

Lemma link_elements_all selfSqlId raw elems : forall acc w,
  Forall (fun e => no_id (scan_registry (idsRegistry w) (String_ e)) = false) elems ->
  exists new,
    for_each (link_element cfg selfSqlId raw) elems acc w = (Returned (acc ++ new), w)
    /\ length new = length elems.
Proof.
  induction elems as [|e elems IH]; intros acc w Hall; simpl.
  - exists []. rewrite app_nil_r. auto.
  - inversion Hall as [|? ? He Hrest]; subst.
    destruct (link_element_resolved selfSqlId raw acc w e He) as [linkRow ->].
    destruct (IH (acc ++ [linkRow]) w Hrest) as (new & -> & Hlen).
    exists (linkRow :: new). rewrite <- app_assoc. simpl. auto.
Qed.

Lemma link_records_all rows : forall acc w,
  (forall row, In row rows ->
     array_elems (prop (object_at w row) arrayField) <> [] ->
     exists selfSqlId,
       self_sql_id self w (object_at w row) = Returned selfSqlId
       /\ no_id selfSqlId = false) ->
  (forall row e, In row rows ->
     In e (array_elems (prop (object_at w row) arrayField)) ->
     no_id (scan_registry (idsRegistry w) (String_ e)) = false) ->
  exists new,
    for_each (link_record self arrayField cfg) rows acc w = (Returned (acc ++ new), w)
    /\ length new = element_count w arrayField rows.
Proof.
  induction rows as [|row rows IH]; intros acc w Hself Hel; simpl.
  - exists []. rewrite app_nil_r. auto.
  - assert (Hstep : exists new,
               link_record self arrayField cfg acc w row = (Returned (acc ++ new), w)
               /\ length new = length (array_elems (prop (object_at w row) arrayField))).
    { unfold link_record.
      specialize (Hself row (or_introl eq_refl)). specialize (Hel row).
      destruct (prop (object_at w row) arrayField) as [| | | | |[|e es]|];
        try solve [exists []; rewrite app_nil_r; split; reflexivity].
      destruct Hself as (selfSqlId & -> & ->); [discriminate|].
      apply link_elements_all. apply Forall_forall. intros x Hx.
      apply Hel; [left; reflexivity | apply list_elem_of_In, Hx]. }
    destruct Hstep as (new1 & -> & Hlen1).
    destruct (IH (acc ++ new1) w) as (new2 & -> & Hlen2).
    { intros row' Hin. apply Hself. right. exact Hin. }
    { intros row' e Hin. apply Hel. right. exact Hin. }
    exists (new1 ++ new2). rewrite <- app_assoc. split; [reflexivity|].
    rewrite length_app. unfold element_count in *. simpl. lia.
Qed.

End LinkFacts.

(** what the statement [trx(table).insert(batch)] does to the store *)
Lemma trx_insert_Returned w table batch inserted w' :
  trx_insert w table batch = (Returned inserted, w') ->
  aborted w = false
  /\ exists d sq,
       pg_insert (db w) (serials w) table batch = (Returned (d, inserted), sq)
       /\ w' = with_serials sq (with_db d w).
Proof.
  unfold trx_insert. destruct (aborted w); [discriminate|].
  destruct (pg_insert _ _ _ _) as [[[d ins]|msg] sq]; [|discriminate].
  intros H. injection H as -> <-. split; [reflexivity|]. eauto.
Qed.

Lemma trx_insert_Thrown w table batch msg w' :
  trx_insert w table batch = (Thrown msg, w') ->
  db w' = db w /\ heap w' = heap w /\ idsRegistry w' = idsRegistry w
  /\ console w' = console w
  /\ (aborted w = true \/ aborted w' = true).
Proof.
  unfold trx_insert. destruct (aborted w) eqn:Hab.
  - intros H. injection H as _ <-. auto 10.
  - destruct (pg_insert _ _ _ _) as [[[d ins]|msg'] sq]; [discriminate|].
    intros H. injection H as _ <-. cbn. auto 10.
Qed.

(** C7 (as the code has it).  For an array field of [links]: when every
    record that holds elements has its own sql id registered (under
    [String(raw.mongo_id)], and not 0), every element finds a usable id in
    the registry, and [transform] does not throw, [linkRows] has one row
    per element of the field over the collection.  The link table grows by
    that number when the store accepts the batch; when it rejects it, the
    error is logged, the call goes on and the table is as before. *)
Theorem link_rows_complete table self arrayField cfg rows w :
  (forall row, In row rows ->
     array_elems (prop (object_at w row) arrayField) <> [] ->
     exists selfSqlId,
       self_sql_id self w (object_at w row) = Returned selfSqlId
       /\ no_id selfSqlId = false) ->
  (forall row e, In row rows ->
     In e (array_elems (prop (object_at w row) arrayField)) ->
     no_id (scan_registry (idsRegistry w) (String_ e)) = false) ->
  (forall f a b o, transform cfg = Some f -> is_thrown (f a b o) = false) ->
  exists linkRows,
    gather_linkRows self arrayField cfg rows w = (Returned linkRows, w)
    /\ length linkRows = element_count w arrayField rows
    /\ fst (link_field table self rows tt w (arrayField, cfg)) = Returned tt
    /\ match fst (trx_insert w (linkTable cfg) linkRows) with
       | Returned _ =>
           length (rows_of (db (snd (link_field table self rows tt w (arrayField, cfg))))
                           (linkTable cfg))
           = length (rows_of (db w) (linkTable cfg)) + element_count w arrayField rows
       | Thrown msg =>
           db (snd (link_field table self rows tt w (arrayField, cfg))) = db w
           /\ (linkRows <> [] ->
               In (WarnLinkInsert (linkTable cfg) msg)
                  (console (snd (link_field table self rows tt w (arrayField, cfg)))))
       end.
Proof.
  intros Hself Hel Htr.
  destruct (link_records_all self arrayField cfg Htr rows [] w Hself Hel)
    as (linkRows & Hgather & Hlen).
  simpl in Hgather. exists linkRows.
  split; [exact Hgather|]. split; [exact Hlen|].
  unfold link_field. unfold gather_linkRows at 1 2 3 4. rewrite Hgather.
  destruct linkRows as [|l ls].
  - split; [reflexivity|]. cbn [snd]. rewrite <- Hlen.
    destruct (fst (trx_insert _ _ _)); [simpl; lia|].
    split; [reflexivity | intros H; contradiction].
  - destruct (trx_insert w (linkTable cfg) (l :: ls)) as [[inserted|msg] w'] eqn:Hins.
    + split; [reflexivity|]. cbn [fst snd db emit].
      apply trx_insert_Returned in Hins as (_ & d & sq & Hins & ->).
      apply pg_insert_Returned in Hins as (t & Ht & -> & _).
      cbn [db with_db with_serials].
      rewrite (rows_of_insert _ _ _ _ _ Ht).
      destruct (decide (linkTable cfg = linkTable cfg)); [|contradiction].
      rewrite length_app, number_rows_length, length_map, <- Hlen. reflexivity.
    + split; [reflexivity|]. cbn [fst snd db emit console].
      apply trx_insert_Thrown in Hins as (Hdb & _ & _ & Hc & _).
      split; [exact Hdb|].
      intros _. rewrite Hc. apply in_or_app. left. apply in_or_app. right. left. reflexivity.
Qed.

(** ** The call as a whole *)

Section SelectFacts.
Variables table : string.

Lemma table_ids_In t m :
  In m (table_ids t) <-> exists id cols, In (id, cols) (t_rows t) /\ mongo_text cols = Some m.
Proof.
  unfold table_ids. rewrite <- list_elem_of_In, list_elem_of_omap. split.
  - intros ([id cols] & Hin & Ht). exists id, cols. split; [apply list_elem_of_In, Hin | exact Ht].
  - intros (id & cols & Hin & Ht). exists (id, cols). split; [apply list_elem_of_In, Hin | exact Ht].
Qed.

Lemma truthy_string m : m <> "" -> truthy (VStr m) = true.
Proof. intros Hm. simpl. rewrite bool_decide_eq_false_2 by exact Hm. reflexivity. Qed.

(** the existence query finds the prepared rows whose [mongo_id] string a
    row of the table has *)
Lemma select_finds prepared w t :
  db w !! table = Some t -> t_mongo_id t = true ->
  exists existing,
    pg_select_ids (db w) table (List.filter truthy (map (mongo_id_of w) prepared))
    = Returned existing
    /\ (forall m id, make_existingMap existing !! m = Some id ->
          exists cols, In (id, cols) (t_rows t) /\ mongo_text cols = Some m)
    /\ (forall r m, In r prepared -> mongo_id_of w r = VStr m -> m <> "" ->
          In m (table_ids t) -> is_Some (make_existingMap existing !! m)).
Proof.
  intros Ht Hcol.
  destruct (pg_select_exists (db w) table
              (List.filter truthy (map (mongo_id_of w) prepared)) t Ht Hcol)
    as [existing Hsel].
  exists existing. split; [exact Hsel|].
  apply pg_select_Returned in Hsel as (t' & Ht' & _ & Hex).
  assert (t' = t) by congruence. subst t'.
  split.
  - intros m id Hm. apply existingMap_Some in Hm. apply Hex in Hm as [Hrow _]. exact Hrow.
  - intros r m Hr Hid Hm Hin. apply table_ids_In in Hin as (id & cols & Hin & Htext).
    apply (existingMap_is_Some existing m id). apply Hex. split; [eauto|].
    apply list_elem_of_In. apply in_map_iff. exists (VStr m). split; [reflexivity|].
    apply filter_In. split; [|apply truthy_string, Hm].
    apply in_map_iff. exists r. auto.
Qed.

Lemma existing_has_VStr em m : existing_has em (VStr m) = true <-> is_Some (em !! m).
Proof.
  unfold existing_has, existing_get. destruct (em !! m); split; intros H; eauto.
  - discriminate.
  - destruct H; discriminate.
Qed.

End SelectFacts.

Section CallFacts.
Variables table : string.
Variable rows : list loc.
Variable options : PutOptions.
Variable self : string.

Lemma ensure_self_map_has w :
  registry_get (idsRegistry w) self <> Inherited ->
  obj_has (idsRegistry (ensure_self_map self w)) self = true.
Proof.
  unfold ensure_self_map. intros Hinh.
  destruct (registry_get (idsRegistry w) self) as [m| |] eqn:Hg; [|contradiction|].
  - unfold registry_get in Hg. unfold obj_has.
    destruct (obj_get (idsRegistry w) self); [reflexivity|].
    destruct (inherited self); discriminate.
  - simpl. rewrite obj_has_set. destruct (decide (self = self)); [reflexivity | contradiction].
Qed.

(** a map that is there is left alone *)
Lemma ensure_self_map_own w :
  obj_has (idsRegistry w) self = true -> ensure_self_map self w = w.
Proof.
  intros Hh. apply obj_has_true in Hh as [m Hm].
  unfold ensure_self_map. rewrite (registry_get_own _ _ _ Hm). reflexivity.
Qed.

Lemma ensure_self_map_other w c :
  c <> self -> obj_get (idsRegistry (ensure_self_map self w)) c = obj_get (idsRegistry w) c.
Proof.
  intros Hne. unfold ensure_self_map. destruct (registry_get _ _); try reflexivity.
  simpl. apply obj_get_set_ne. congruence.
Qed.

Lemma ensure_self_map_resolve w k :
  is_Some (resolve (idsRegistry w) self k) ->
  resolve (idsRegistry (ensure_self_map self w)) self k = resolve (idsRegistry w) self k.
Proof.
  intros [id Hid]. rewrite ensure_self_map_own; [reflexivity|].
  unfold resolve in Hid. unfold obj_has.
  destruct (obj_get (idsRegistry w) self); [reflexivity | discriminate].
Qed.

Lemma ensure_self_map_db w : db (ensure_self_map self w) = db w.
Proof. unfold ensure_self_map. destruct (registry_get _ _); reflexivity. Qed.

Lemma ensure_self_map_frame w :
  serials (ensure_self_map self w) = serials w
  /\ console (ensure_self_map self w) = console w
  /\ aborted (ensure_self_map self w) = aborted w.
Proof. unfold ensure_self_map. destruct (registry_get _ _); auto. Qed.

(** the schema safeguard leaves the rows of every table alone; a table
    that is there has the column afterwards *)
Lemma ensure_column_rows w table' :
  rows_of (db (ensure_mongo_id_column table w)) table' = rows_of (db w) table'.
Proof.
  unfold ensure_mongo_id_column. destruct (aborted w); [reflexivity|].
  destruct (db w !! table) as [t|] eqn:Ht; [|reflexivity].
  destruct (t_mongo_id t); [reflexivity|].
  destruct (t_alter t); [|reflexivity]. unfold rows_of. simpl.
  destruct (decide (table = table')) as [<-|Hne].
  - rewrite lookup_insert_eq, Ht. reflexivity.
  - rewrite lookup_insert_ne by exact Hne. reflexivity.
Qed.

Lemma ensure_column_table w t :
  aborted w = false ->
  db w !! table = Some t ->
  t_mongo_id t = true \/ t_alter t = true ->
  exists t', db (ensure_mongo_id_column table w) !! table = Some t'
             /\ t_mongo_id t' = true /\ t_rows t' = t_rows t /\ t_check t' = t_check t
             /\ aborted (ensure_mongo_id_column table w) = false.
Proof.
  intros Hab Ht Hcan. unfold ensure_mongo_id_column. rewrite Hab, Ht.
  destruct (t_mongo_id t) eqn:Hcol.
  - exists t. auto.
  - destruct Hcan as [Hcan|Hcan]; [discriminate|]. rewrite Hcan.
    simpl. rewrite lookup_insert_eq. eexists. split; [reflexivity|]. auto.
Qed.

(** the safeguard leaves the transaction running only on a table that is
    there and has the column or can be given it *)
Lemma ensure_column_running w :
  aborted (ensure_mongo_id_column table w) = false ->
  aborted w = false
  /\ exists t, db w !! table = Some t /\ (t_mongo_id t = true \/ t_alter t = true).
Proof.
  unfold ensure_mongo_id_column. intros H.
  destruct (aborted w) eqn:Hab; [simpl in H; congruence|].
  destruct (db w !! table) as [t|]; [|discriminate H].
  destruct (t_mongo_id t) eqn:Hcol; [eauto|].
  destruct (t_alter t) eqn:Halt; [eauto | discriminate H].
Qed.

Lemma ensure_column_noop w t :
  aborted w = false ->
  db w !! table = Some t -> t_mongo_id t = true -> ensure_mongo_id_column table w = w.
Proof.
  intros Hab Ht Hcol. unfold ensure_mongo_id_column. rewrite Hab, Ht, Hcol. reflexivity.
Qed.

Lemma ensure_column_serials w :
  serials (ensure_mongo_id_column table w) = serials w.
Proof.
  unfold ensure_mongo_id_column. destruct (aborted w); [reflexivity|].
  destruct (db w !! table) as [t|]; [destruct (t_mongo_id t), (t_alter t)|]; reflexivity.
Qed.

Lemma checked_frame w :
  heap (checked table self w) = heap w
  /\ idsRegistry (checked table self w) = idsRegistry (ensure_self_map self w)
  /\ serials (checked table self w) = serials w.
Proof.
  unfold checked.
  destruct (ensure_mongo_id_column_keeps table (with_aborted false (ensure_self_map self w)))
    as [[Hh Hr] _].
  rewrite Hh, Hr, ensure_column_serials. cbn [heap idsRegistry serials with_aborted].
  rewrite ensure_self_map_heap. destruct (ensure_self_map_frame w) as (-> & _). auto.
Qed.

(** the world the upsert of a call starts in *)
Lemma prepared_of_world w :
  heap (fst (prepared_of table rows options self w))
  = heap w ++ fst (prepared_objects table options (idsRegistry (ensure_self_map self w))
                                    (heap w) rows)
  /\ db (fst (prepared_of table rows options self w)) = db (checked table self w)
  /\ idsRegistry (fst (prepared_of table rows options self w))
     = idsRegistry (ensure_self_map self w)
  /\ serials (fst (prepared_of table rows options self w)) = serials w
  /\ aborted (fst (prepared_of table rows options self w)) = aborted (checked table self w)
  /\ snd (prepared_of table rows options self w)
     = match prepared_throws table options (idsRegistry (ensure_self_map self w))
               (heap w) rows with
       | Some _ => []
       | None => seq (length (heap w)) (length rows)
       end.
Proof.
  unfold prepared_of. fold (checked table self w). rewrite map_rows_spec.
  destruct (checked_frame w) as (Hh & Hr & Hs). rewrite Hh, Hr, Hs.
  cbn [fst snd heap db idsRegistry serials aborted].
  destruct (prepared_throws _ _ _ _ _); auto 10.
Qed.

(** the prepared row of a record of the heap *)
Lemma prepared_row_of w i row :
  prepared_throws table options (idsRegistry (ensure_self_map self w)) (heap w) rows = None ->
  rows !! i = Some row -> row < length (heap w) ->
  In (length (heap w) + i) (snd (prepared_of table rows options self w))
  /\ object_at (fst (prepared_of table rows options self w)) (length (heap w) + i)
     = fst (transform_row table options (idsRegistry (ensure_self_map self w))
                          (object_at w row)).
Proof.
  intros Hno Hi Hrow. destruct (prepared_of_world w) as (Hh & _ & _ & _ & _ & Hp).
  rewrite Hno in Hp.
  split.
  - rewrite Hp. apply in_seq. apply lookup_lt_Some in Hi. list_lia.
  - unfold object_at at 1. rewrite Hh.
    rewrite lookup_app_r by list_lia.
    match goal with
    | |- context [?a + i - ?b] => replace (a + i - b) with i by list_lia
    end.
    pose proof (prepared_objects_lookup table options _ rows (heap w) i row Hno Hi Hrow)
      as Hl.
    etransitivity; [apply (f_equal (default [])); exact Hl | reflexivity].
Qed.

(** the callback of the transaction, phase by phase *)
Lemma unit_result_eq w :
  unit_result table rows options self w
  = match prepared_throws table options (idsRegistry (ensure_self_map self w))
            (heap w) rows with
    | Some msg => (Thrown msg, fst (prepared_of table rows options self w))
    | None =>
        match upsert table self (snd (prepared_of table rows options self w))
                     (fst (prepared_of table rows options self w)) with
        | (Thrown msg, w2) => (Thrown msg, w2)
        | (Returned _, w2) => for_each (link_field table self rows) (links options) tt w2
        end
    end.
Proof.
  unfold unit_result, unit_of_work, prepared_of. fold (checked table self w).
  rewrite map_rows_spec. destruct (checked_frame w) as (Hh & Hr & Hs). rewrite Hh, Hr.
  destruct (prepared_throws _ _ _ _ _); reflexivity.
Qed.

(** the call, from what its transaction did: a rollback restores the
    tables and nothing else *)
Lemma putToPostgres_eq row0 rest w :
  rows = row0 :: rest ->
  putToPostgres table rows options self w
  = (fst (unit_result table rows options self w),
     with_aborted false
       (if is_thrown (fst (unit_result table rows options self w))
           || aborted (snd (unit_result table rows options self w))
        then with_db (db w) (snd (unit_result table rows options self w))
        else snd (unit_result table rows options self w))).
Proof.
  intros Hrows. unfold putToPostgres. rewrite Hrows. rewrite <- Hrows.
  unfold transaction. fold (unit_result table rows options self w).
  rewrite ensure_self_map_db.
  destruct (unit_result table rows options self w) as [[[]|msg] w']; cbn [fst snd is_thrown];
    [destruct (aborted w')|]; reflexivity.
Qed.

(** the registry after the call is the one its transaction left: the one
    the upsert left, when the rows were prepared *)
Lemma unit_result_registry w :
  idsRegistry (snd (unit_result table rows options self w))
  = match prepared_throws table options (idsRegistry (ensure_self_map self w))
            (heap w) rows with
    | Some _ => idsRegistry (ensure_self_map self w)
    | None => idsRegistry (snd (upsert table self (snd (prepared_of table rows options self w))
                                       (fst (prepared_of table rows options self w))))
    end.
Proof.
  rewrite unit_result_eq. destruct (prepared_of_world w) as (_ & _ & Hr & _).
  destruct (prepared_throws _ _ _ _ _); [exact Hr|].
  destruct (upsert _ _ _ _) as [[[]|msg] w2]; cbn [snd]; [|reflexivity].
  apply (link_phase_keeps table self rows (links options) w2).
Qed.

Lemma putToPostgres_registry row0 rest w :
  rows = row0 :: rest ->
  idsRegistry (snd (putToPostgres table rows options self w))
  = idsRegistry (snd (unit_result table rows options self w)).
Proof.
  intros Hrows. rewrite (putToPostgres_eq _ _ _ Hrows). cbn [snd].
  destruct (_ || _); reflexivity.
Qed.

End CallFacts.

(** ** What the phases do to the store and the console *)

Section PhaseFacts.
Variables table self : string.
Variable rows : list loc.

Lemma rows_kept_refl w : rows_kept w w.
Proof. intros ? ? H. exact H. Qed.
Lemma rows_kept_trans w1 w2 w3 : rows_kept w1 w2 -> rows_kept w2 w3 -> rows_kept w1 w3.
Proof. intros H1 H2 ? ? H. apply H2, H1, H. Qed.

Lemma console_grows_refl w : console_grows w w.
Proof. unfold console_grows. reflexivity. Qed.
Lemma console_grows_trans w1 w2 w3 :
  console_grows w1 w2 -> console_grows w2 w3 -> console_grows w1 w3.
Proof. unfold console_grows. intros H1 H2. etransitivity; eassumption. Qed.
Lemma console_grows_emit e w : console_grows w (emit e w).
Proof. unfold console_grows. simpl. apply prefix_app_r. reflexivity. Qed.

Lemma table_untouched_refl w : table_untouched table w w.
Proof. reflexivity. Qed.
Lemma table_untouched_trans w1 w2 w3 :
  table_untouched table w1 w2 -> table_untouched table w2 w3 -> table_untouched table w1 w3.
Proof. unfold table_untouched. congruence. Qed.

Lemma link_element_console cfg selfSqlId raw acc w x :
  console_grows w (snd (link_element cfg selfSqlId raw acc w x)).
Proof.
  unfold link_element. destruct (no_id _); [apply console_grows_emit|].
  destruct (transform cfg) as [f|]; [|apply console_grows_refl].
  destruct (f _ _ _); apply console_grows_refl.
Qed.

Lemma link_record_console arrayField cfg acc w row :
  console_grows w (snd (link_record self arrayField cfg acc w row)).
Proof.
  unfold link_record.
  destruct (prop _ arrayField) as [| | | | |[|e es]|]; try apply console_grows_refl.
  destruct (self_sql_id _ _ _) as [selfSqlId|msg]; [|apply console_grows_refl].
  destruct (no_id _); [apply console_grows_emit|].
  apply (for_each_preserves console_grows console_grows_refl console_grows_trans).
  intros. apply link_element_console.
Qed.

(** one field of [links]: the rows of every table are kept, the console
    grows, and only the link table of the field is written to *)
Lemma link_field_store u w e :
  rows_kept w (snd (link_field table self rows u w e))
  /\ console_grows w (snd (link_field table self rows u w e))
  /\ (linkTable (snd e) <> table ->
      table_untouched table w (snd (link_field table self rows u w e))).
Proof.
  unfold link_field. destruct e as [arrayField cfg]. cbn [snd].
  pose proof (gather_linkRows_pure self arrayField cfg rows w) as (_ & _ & Hdb).
  assert (Hc : console_grows w (snd (gather_linkRows self arrayField cfg rows w))).
  { apply (for_each_preserves console_grows console_grows_refl console_grows_trans).
    intros. apply link_record_console. }
  destruct (gather_linkRows _ _ _ _ _) as [[[|l ls]|msg] w1]; cbn [snd] in *.
  - split; [|split]; [intros ? ? H; rewrite Hdb; exact H | exact Hc |].
    intros _. unfold table_untouched. rewrite Hdb. reflexivity.
  - destruct (trx_insert w1 (linkTable cfg) (l :: ls)) as [[inserted|msg] w2] eqn:Hins.
    + pose proof (trx_insert_frame w1 (linkTable cfg) (l :: ls)) as (_ & _ & Hc2).
      rewrite Hins in Hc2. cbn [snd] in Hc2.
      apply trx_insert_Returned in Hins as (_ & d & sq & Hins & ->).
      split; [|split].
      * intros table' x H. cbn [db emit with_db with_serials].
        eapply pg_insert_monotone; [exact Hins|]. rewrite Hdb. exact H.
      * eapply console_grows_trans; [exact Hc|].
        unfold console_grows. simpl. apply prefix_app_r. reflexivity.
      * intros Hne. unfold table_untouched. cbn [db emit with_db with_serials].
        rewrite (pg_insert_other _ _ _ _ _ _ _ table Hins Hne), Hdb. reflexivity.
    + apply trx_insert_Thrown in Hins as (Hdb2 & _ & _ & Hc2 & _).
      split; [|split].
      * intros table' x H. cbn [db emit]. rewrite Hdb2, Hdb. exact H.
      * eapply console_grows_trans; [exact Hc|].
        unfold console_grows. cbn [console emit]. rewrite Hc2, <- app_assoc.
        apply prefix_app_r. reflexivity.
      * intros _. unfold table_untouched. cbn [db emit]. rewrite Hdb2, Hdb. reflexivity.
  - split; [|split]; [intros ? ? H; rewrite Hdb; exact H | exact Hc |].
    intros _. unfold table_untouched. rewrite Hdb. reflexivity.
Qed.

Lemma link_phase_rows_kept lk w :
  rows_kept w (snd (for_each (link_field table self rows) lk tt w)).
Proof.
  apply (for_each_preserves rows_kept rows_kept_refl rows_kept_trans).
  intros. apply link_field_store.
Qed.

Lemma link_phase_console lk w :
  console_grows w (snd (for_each (link_field table self rows) lk tt w)).
Proof.
  apply (for_each_preserves console_grows console_grows_refl console_grows_trans).
  intros. apply link_field_store.
Qed.

Lemma link_phase_untouched lk w :
  (forall cfg, In cfg (map snd lk) -> linkTable cfg <> table) ->
  table_untouched table w (snd (for_each (link_field table self rows) lk tt w)).
Proof.
  intros Hlk.
  apply (for_each_preserves_In (table_untouched table)
           table_untouched_refl table_untouched_trans).
  intros s w' e He. apply link_field_store. apply Hlk. apply in_map, He.
Qed.

Lemma upsert_console prepared w :
  console_grows w (snd (upsert table self prepared w)).
Proof.
  rewrite upsert_eq. unfold console_grows.
  destruct (trx_select_frame w table (List.filter truthy (map (mongo_id_of w) prepared)))
    as (_ & _ & Hc0 & _).
  destruct (trx_select w table _) as [[existing|msg] w0]; cbn [snd] in *;
    [|rewrite Hc0; reflexivity].
  cbn zeta. destruct (sets_outcome _ _ (skip_pairs _ _ _)); cbn [snd console];
    [|apply prefix_app_r; reflexivity].
  destruct (toInsert_of _ _ _); cbn [snd console].
  - rewrite <- app_assoc. apply prefix_app_r. reflexivity.
  - destruct (pg_insert _ _ _ _) as [[[d inserted]|msg] sq]; cbn [snd console].
    + destruct (sets_outcome _ _ _); cbn [snd console].
      * rewrite <- app_assoc. apply prefix_app_r. reflexivity.
      * apply prefix_app_r. reflexivity.
    + apply prefix_app_r. reflexivity.
Qed.

(** an upsert that returns: the transaction was not aborted and is not,
    the table was there with its column, and holds afterwards its rows
    followed by the stored rows of [toInsert], numbered from the serial
    counter on *)
Lemma upsert_Returned prepared w w' :
  upsert table self prepared w = (Returned tt, w') ->
  exists existing t t',
    pg_select_ids (db w) table (List.filter truthy (map (mongo_id_of w) prepared))
    = Returned existing
    /\ db w !! table = Some t /\ t_mongo_id t = true
    /\ db w' !! table = Some t' /\ t_mongo_id t' = true
    /\ t_rows t' = t_rows t
                   ++ new_rows table w (toInsert_of (make_existingMap existing) w prepared)
    /\ (toInsert_of (make_existingMap existing) w prepared = [] -> db w' = db w)
    /\ idsRegistry w'
       = set_all self
           (map (fun x => (String_ (prop (snd x) "mongo_id"), fst x))
                (new_rows table w (toInsert_of (make_existingMap existing) w prepared)))
           (set_all self
              (skip_pairs (make_existingMap existing) w
                          (toSkip_of (make_existingMap existing) w prepared))
              (idsRegistry w))
    /\ aborted w = false /\ aborted w' = false
    /\ heap w' = heap w
    /\ (forall table', table' <> table -> db w' !! table' = db w !! table').
Proof.
  rewrite upsert_eq.
  destruct (trx_select w table _) as [[existing|msg] w0] eqn:Hsel; [|discriminate].
  apply trx_select_Returned in Hsel as (-> & Hab & Hsel).
  cbn zeta. set (em := make_existingMap existing).
  destruct (pg_select_Returned _ _ _ _ Hsel) as (t & Ht & Hcol & _).
  destruct (sets_outcome _ _ (skip_pairs _ _ _)) as [[]|msg]; [|discriminate].
  destruct (toInsert_of em w prepared) as [|r0 rest] eqn:Hti.
  - intros H. injection H as <-. exists existing, t, t. cbn [db idsRegistry aborted heap].
    fold em. rewrite Hti. unfold new_rows. simpl. rewrite app_nil_r. auto 15.
  - destruct (pg_insert _ _ _ _) as [[[d inserted]|msg] sq] eqn:Hins; [|discriminate].
    destruct (sets_outcome _ _ inserted) as [[]|msg]; [|discriminate].
    intros H. injection H as <-.
    destruct (pg_insert_Returned _ _ _ _ _ _ _ Hins) as (t2 & Ht2 & -> & -> & _).
    assert (t2 = t) by congruence. subst t2.
    exists existing, t. eexists. cbn [db idsRegistry aborted heap]. fold em. rewrite Hti.
    split; [exact Hsel|]. split; [exact Ht|]. split; [exact Hcol|].
    split; [apply lookup_insert_eq|]. split; [exact Hcol|].
    split; [unfold new_rows; rewrite map_map; reflexivity|]. split; [discriminate|].
    split; [rewrite inserted_pairs_new; unfold new_rows; rewrite map_map; reflexivity|].
    split; [exact Hab|]. split; [reflexivity|]. split; [reflexivity|].
    intros table' Hne. apply lookup_insert_ne. congruence.
Qed.

Lemma serials_grow_refl w : serials_grow w w.
Proof. intros ?. apply Z.le_refl. Qed.
Lemma serials_grow_trans w1 w2 w3 :
  serials_grow w1 w2 -> serials_grow w2 w3 -> serials_grow w1 w3.
Proof. intros H1 H2 ?. etransitivity; [apply H1 | apply H2]. Qed.

Lemma trx_insert_serials w table' batch :
  serials_grow w (snd (trx_insert w table' batch)).
Proof.
  unfold trx_insert. destruct (aborted w); [apply serials_grow_refl|].
  pose proof (pg_insert_serials (db w) (serials w) table' batch) as H.
  destruct (pg_insert _ _ _ _) as [[[d inserted]|msg] sq]; intros t; apply H.
Qed.

Lemma upsert_serials prepared w :
  serials_grow w (snd (upsert table self prepared w)).
Proof.
  rewrite upsert_eq.
  destruct (trx_select_frame w table (List.filter truthy (map (mongo_id_of w) prepared)))
    as (_ & _ & _ & _ & Hs0).
  destruct (trx_select w table _) as [[existing|msg] w0]; cbn [snd] in *;
    [|intros t; rewrite Hs0; apply Z.le_refl].
  cbn zeta.
  destruct (sets_outcome _ _ (skip_pairs _ _ _)); [|intros t; apply Z.le_refl].
  destruct (toInsert_of _ _ _) as [|r0 rest]; [intros t; apply Z.le_refl|].
  pose proof (pg_insert_serials (db w) (serials w) table (map (object_at w) (r0 :: rest)))
    as Hsq.
  destruct (pg_insert _ _ _ _) as [[[d inserted]|msg] sq]; cbn [snd] in Hsq.
  - destruct (sets_outcome _ _ _); intros t; apply Hsq.
  - intros t; apply Hsq.
Qed.

Lemma link_field_serials u w e :
  serials_grow w (snd (link_field table self rows u w e)).
Proof.
  unfold link_field. destruct e as [arrayField cfg].
  assert (Hg : serials (snd (gather_linkRows self arrayField cfg rows w)) = serials w).
  { apply (for_each_preserves (fun w1 w2 => serials w2 = serials w1)).
    - reflexivity.
    - intros ? ? ? H1 H2. congruence.
    - intros s w1 row. unfold link_record.
      destruct (prop _ arrayField) as [| | | | |[|e es]|]; try reflexivity.
      destruct (self_sql_id _ _ _); [|reflexivity].
      destruct (no_id _); [reflexivity|].
      apply (for_each_preserves (fun w1 w2 => serials w2 = serials w1)).
      + reflexivity.
      + intros ? ? ? H1 H2. congruence.
      + intros s' w2 x. unfold link_element. destruct (no_id _); [reflexivity|].
        destruct (transform cfg) as [f|]; [destruct (f _ _ _)|]; reflexivity. }
  destruct (gather_linkRows _ _ _ _ _) as [[[|l ls]|msg] w1]; cbn [snd] in *;
    try (intros t; rewrite Hg; apply Z.le_refl).
  pose proof (trx_insert_serials w1 (linkTable cfg) (l :: ls)) as Hi.
  destruct (trx_insert _ _ _) as [[inserted|msg] w2]; cbn [snd serials emit] in *;
    intros t; rewrite <- Hg; apply Hi.
Qed.

Lemma link_phase_serials lk w :
  serials_grow w (snd (for_each (link_field table self rows) lk tt w)).
Proof.
  apply (for_each_preserves serials_grow serials_grow_refl serials_grow_trans).
  intros. apply link_field_serials.
Qed.

End PhaseFacts.

Section RegistryAfterUpsert.
Variables table self : string.

Lemma set_all_is_Some pairs reg k :
  obj_has reg self = true ->
  is_Some (resolve reg self k) \/ k ∈ map fst pairs ->
  is_Some (resolve (set_all self pairs reg) self k).
Proof.
  intros Hh H. rewrite resolve_set_all by exact Hh.
  destruct (last_binding pairs k) as [id|] eqn:Hl; [eauto|].
  destruct H as [H|H]; [exact H|].
  apply last_binding_is_Some in H. rewrite Hl in H. destruct H; discriminate.
Qed.

(** whatever the upsert comes to, the registry is the one it started with
    after the [set]s for [toSkip] and the [set]s for the rows that were
    inserted *)
Lemma upsert_registry prepared w :
  exists skipped more,
    idsRegistry (snd (upsert table self prepared w))
    = set_all self more (set_all self skipped (idsRegistry w)).
Proof.
  rewrite upsert_eq.
  destruct (trx_select_frame w table (List.filter truthy (map (mongo_id_of w) prepared)))
    as (_ & Hr0 & _).
  destruct (trx_select w table _) as [[existing|msg] w0]; cbn [snd] in *;
    [|exists [], []; exact Hr0].
  cbn zeta. set (em := make_existingMap existing).
  exists (skip_pairs em w (toSkip_of em w prepared)).
  destruct (sets_outcome _ _ (skip_pairs _ _ _)); [|exists []; reflexivity].
  destruct (toInsert_of em w prepared) as [|r0 rest]; [exists []; reflexivity|].
  destruct (pg_insert _ _ _ _) as [[[d inserted]|msg] sq]; [|exists []; reflexivity].
  exists (inserted_pairs inserted). destruct (sets_outcome _ _ _); reflexivity.
Qed.

(** the registry and the table after an upsert that returns: the
    [mongo_id] of every prepared row that has one (a string) is recorded
    with the id of a row of the table that holds it, found there or just
    inserted *)
Lemma upsert_records prepared w w' :
  obj_has (idsRegistry w) self = true ->
  upsert table self prepared w = (Returned tt, w') ->
  forall r m,
    In r prepared -> mongo_id_of w r = VStr m -> m <> "" ->
    exists id cols,
      resolve (idsRegistry w') self m = Some id
      /\ In (id, cols) (rows_of (db w') table)
      /\ mongo_text cols = Some m.
Proof.
  intros Hown Hups r m Hr Hmid Hne.
  destruct (upsert_Returned table self _ _ _ Hups)
    as (existing & t & t' & Hsel & Ht & Hcol & Ht' & Hcol' & Hrows' & _ & Hreg & _).
  set (em := make_existingMap existing) in *.
  destruct (pg_select_Returned _ _ _ _ Hsel) as (t2 & Ht2 & _ & Hex).
  assert (t2 = t) by congruence. subst t2.
  assert (Hdb' : rows_of (db w') table = t_rows t') by (unfold rows_of; rewrite Ht'; reflexivity).
  rewrite Hdb', Hrows', Hreg.
  rewrite resolve_set_all by (rewrite set_all_has; exact Hown).
  rewrite resolve_set_all by exact Hown.
  assert (Htr : truthy (mongo_id_of w r) = true) by (rewrite Hmid; apply truthy_string, Hne).
  destruct (last_binding (map _ (new_rows table w (toInsert_of em w prepared))) m)
    as [id|] eqn:Hnew.
  - apply last_binding_In in Hnew. apply in_map_iff in Hnew as ([id' cols] & Heq & Hx).
    cbn [fst snd] in Heq. injection Heq as Hkey ->.
    exists id, cols. split; [reflexivity|]. split; [apply in_or_app; right; exact Hx|].
    destruct (new_rows_In table w _ _ Hx) as (r' & Hr' & Hcols). cbn [snd] in Hcols.
    apply toInsert_In in Hr' as (_ & Htr' & _).
    destruct (stored_text w r' Htr') as [Htext Hstr].
    rewrite Hcols, Htext. rewrite Hcols, Hstr in Hkey. rewrite Hkey. reflexivity.
  - assert (Hskip : In r (toSkip_of em w prepared)).
    { apply toSkip_In. split; [exact Hr|]. split; [exact Htr|].
      destruct (existing_has em (mongo_id_of w r)) eqn:Hex'; [reflexivity|].
      exfalso.
      assert (Hins : In r (toInsert_of em w prepared)) by (apply toInsert_In; auto).
      destruct (new_rows_stored table w _ _ Hins) as [id Hid].
      assert (His : is_Some (last_binding
                     (map (fun x : Z * jsobj value =>
                             (String_ (prop (snd x) "mongo_id"), fst x))
                          (new_rows table w (toInsert_of em w prepared))) m)).
      { apply last_binding_is_Some. rewrite map_map. apply list_elem_of_In, in_map_iff.
        exists (id, pg_store_row (object_at w r)). split; [|exact Hid]. cbn [fst snd].
        destruct (stored_text w r Htr) as [_ ->]. rewrite Hmid. reflexivity. }
      rewrite Hnew in His. destruct His; discriminate. }
    apply toSkip_In in Hskip as Hparts. destruct Hparts as (_ & _ & Hhas).
    rewrite Hmid in Hhas. apply existing_has_VStr in Hhas as [id0 Hid0].
    assert (His : is_Some (last_binding (skip_pairs em w (toSkip_of em w prepared)) m)).
    { apply last_binding_is_Some. apply list_elem_of_In, in_map_iff.
      exists (m, id0). split; [reflexivity|]. apply skip_pairs_In. eauto. }
    destruct His as [id Hid]. rewrite Hid.
    apply last_binding_In, skip_pairs_In in Hid as (_ & _ & _ & Hem).
    apply existingMap_Some, Hex in Hem as [(cols & Hin & Htext) _].
    exists id, cols. split; [reflexivity|]. split; [apply in_or_app; left; exact Hin|].
    exact Htext.
Qed.

(** whatever the upsert comes to, the pair of a prepared row that is found
    in the table is recorded, with the id of a row that holds its
    [mongo_id] *)
Lemma upsert_records_found prepared w t :
  obj_has (idsRegistry w) self = true ->
  aborted w = false ->
  db w !! table = Some t -> t_mongo_id t = true ->
  forall r m,
    In r prepared -> mongo_id_of w r = VStr m -> m <> "" -> In m (table_ids t) ->
    exists id cols,
      resolve (idsRegistry (snd (upsert table self prepared w))) self m = Some id
      /\ In (id, cols) (rows_of (db (snd (upsert table self prepared w))) table)
      /\ mongo_text cols = Some m.
Proof.
  intros Hown Hab Ht Hcol r m Hr Hmid Hne Hin.
  destruct (upsert table self prepared w) as [[[]|msg] w'] eqn:Hups.
  - apply (upsert_records prepared w w' Hown Hups r m Hr Hmid Hne).
  - rewrite upsert_eq in Hups.
    destruct (select_finds table prepared w t Ht Hcol) as (existing & Hsel & Hsound & Hfind).
    unfold trx_select in Hups. rewrite Hab, Hsel in Hups. cbn zeta in Hups.
    set (em := make_existingMap existing) in *.
    rewrite (sets_outcome_own self _ _ Hown) in Hups.
    destruct (toInsert_of em w prepared) as [|r0 rest]; [discriminate|].
    destruct (pg_insert _ _ _ _) as [[[d inserted]|msg'] sq].
    + rewrite (sets_outcome_own self _ _ Hown) in Hups. discriminate.
    + injection Hups as _ <-. cbn [snd idsRegistry db].
      rewrite resolve_set_all by exact Hown.
      destruct (Hfind r m Hr Hmid Hne Hin) as [id0 Hid0].
      assert (His : is_Some (last_binding (skip_pairs em w (toSkip_of em w prepared)) m)).
      { apply last_binding_is_Some. apply list_elem_of_In, in_map_iff.
        exists (m, id0). split; [reflexivity|]. apply skip_pairs_In.
        exists r. split; [|auto]. apply toSkip_In. split; [exact Hr|]. rewrite Hmid.
        split; [apply truthy_string, Hne | apply existing_has_VStr; eauto]. }
      destruct His as [id Hid]. rewrite Hid.
      apply last_binding_In, skip_pairs_In in Hid as (_ & _ & _ & Hem).
      destruct (Hsound _ _ Hem) as (cols & Hrow & Htext).
      exists id, cols. split; [reflexivity|]. split; [|exact Htext].
      unfold rows_of. rewrite Ht. exact Hrow.
Qed.

End RegistryAfterUpsert.

(** the call moves the serial counters forward only *)
Lemma putToPostgres_serials table rows options self w :
  serials_grow w (snd (putToPostgres table rows options self w)).
Proof.
  destruct rows as [|row0 rest] eqn:Hrows; [intros t; apply Z.le_refl|]. rewrite <- Hrows.
  rewrite (putToPostgres_eq table rows options self row0 rest w Hrows). cbn [snd].
  assert (Hu : serials_grow w (snd (unit_result table rows options self w))).
  { rewrite unit_result_eq.
    destruct (prepared_of_world table rows options self w) as (_ & _ & _ & Hs & _).
    destruct (prepared_throws _ _ _ _ _); cbn [snd];
      [intros t; rewrite Hs; apply Z.le_refl|].
    pose proof (upsert_serials table self (snd (prepared_of table rows options self w))
                  (fst (prepared_of table rows options self w))) as H1.
    destruct (upsert _ _ _ _) as [[[]|msg] w2]; cbn [snd] in *.
    - intros t. etransitivity; [|apply (link_phase_serials table self rows)].
      rewrite <- Hs. apply H1.
    - intros t. rewrite <- Hs. apply H1. }
  destruct (_ || _); exact Hu.
Qed.

(** ** Unresolved foreign keys *)

Lemma fk_stage_unresolved table registry fks r field fc oldVal :
  NoDup (keys fks) -> In (field, fc) fks ->
  obj_get r field = Some oldVal ->
  nullish oldVal = false ->
  registry_get registry fc <> Inherited ->
  fk_resolves registry fc oldVal = false ->
  fst (fk_stage table registry fks r) = Returned tt ->
  obj_get (fst (snd (fk_stage table registry fks r))) field = Some VNull
  /\ (oldVal <> VArr [] ->
      exists warning,
        fk_warning table field warning = true
        /\ In warning (snd (snd (fk_stage table registry fks r)))).
Proof.
  intros Hnd Hin Hget Hnn Hinh Hres Hret.
  destruct (in_split _ _ Hin) as (pre & post & Hsplit).
  destruct (NoDup_keys_split _ _ _ _ _ Hnd Hsplit) as [Hpre Hpost].
  unfold fk_stage in *. rewrite Hsplit in Hret |- *.
  destruct (stage_loop_app_Returned _ pre ((field, fc) :: post) _ Hret) as [_ Heq].
  rewrite Heq. clear Heq Hret.
  pose proof (fk_loop_other table registry pre (r, []) field Hpre) as Hturn.
  cbn [fst] in Hturn. rewrite Hget in Hturn.
  destruct (snd (stage_loop (fk_entry table registry) pre (r, []))) as [r' warns].
  cbn [fst] in Hturn.
  destruct (fk_entry_unresolved table registry r' warns field fc oldVal Hturn Hnn Hinh Hres)
    as (more & Hentry & Hwarn).
  rewrite stage_loop_cons, Hentry. cbn [fst snd].
  split.
  - rewrite (fk_loop_other table registry post _ field Hpost). cbn [fst].
    apply obj_get_set_eq.
  - intros Hne. destruct (Hwarn Hne) as (warning & -> & Hw).
    exists warning. split; [exact Hw|]. apply fk_loop_warnings. cbn [snd].
    apply in_or_app. right. left. reflexivity.
Qed.

(** the console after the call has what preparing the rows printed *)
Lemma putToPostgres_console table rows options self w row0 rest :
  rows = row0 :: rest ->
  console_grows (fst (prepared_of table rows options self w))
                (snd (putToPostgres table rows options self w)).
Proof.
  intros Hrows. rewrite (putToPostgres_eq table rows options self row0 rest w Hrows).
  assert (Hu : console_grows (fst (prepared_of table rows options self w))
                             (snd (unit_result table rows options self w))).
  { rewrite unit_result_eq.
    destruct (prepared_throws _ _ _ _ _); [apply console_grows_refl|].
    pose proof (upsert_console table self (snd (prepared_of table rows options self w))
                  (fst (prepared_of table rows options self w))) as H1.
    destruct (upsert _ _ _ _) as [[[]|msg] w2]; cbn [snd] in *; [|exact H1].
    eapply console_grows_trans; [exact H1|].
    apply (link_phase_console table self rows). }
  cbn [snd]. destruct (_ || _); exact Hu.
Qed.

(** the rows a committed call has stored: those the upsert had in the table *)
Lemma committed_store table rows options self w row0 rest :
  rows = row0 :: rest ->
  committed table rows options self w ->
  prepared_throws table options (idsRegistry (ensure_self_map self w)) (heap w) rows = None
  /\ fst (putToPostgres table rows options self w) = Returned tt
  /\ db (snd (putToPostgres table rows options self w))
     = db (snd (unit_result table rows options self w))
  /\ exists w2,
       upsert table self (snd (prepared_of table rows options self w))
              (fst (prepared_of table rows options self w)) = (Returned tt, w2)
       /\ unit_result table rows options self w
          = for_each (link_field table self rows) (links options) tt w2.
Proof.
  intros Hrows [Hret Hab].
  rewrite (putToPostgres_eq table rows options self row0 rest w Hrows).
  cbn [fst snd]. rewrite Hret, Hab. cbn [is_thrown orb db with_aborted].
  rewrite unit_result_eq in Hret |- *.
  destruct (prepared_throws _ _ _ _ _); [discriminate|].
  split; [reflexivity|]. split; [reflexivity|]. split; [reflexivity|].
  destruct (upsert _ _ _ _) as [[[]|msg] w2]; [|discriminate].
  exists w2. auto.
Qed.

(** C5 (as the code has it).  A record whose foreign-key field is there,
    is not null and finds no id in the registry, where
    [idsRegistry[foreignCollection]] is a [Map] or undefined: the entry of
    the field does not throw; when the record is prepared, the prepared row
    has the field [null], and a warning about the field is printed unless
    the value is an empty array; in a call that prepares its rows the
    transaction and the tables are, when the upsert starts, as the schema
    safeguard left them, the warning is on the console when the call is
    over and the row is among the prepared rows the upsert is given; and when its [mongo_id] is a
    string that is new to the table and the transaction commits, the row
    is in the table, with that field [null]. *)
Theorem unresolved_fk_is_null_and_row_is_written
    table rows options self w i row field fc oldVal :
  rows !! i = Some row -> row < length (heap w) ->
  NoDup (keys (object_at w row)) ->
  NoDup (keys (foreignKeys options)) ->
  In (field, fc) (foreignKeys options) ->
  obj_get (after_redefine table options (object_at w row)) field = Some oldVal ->
  nullish oldVal = false ->
  registry_get (idsRegistry (ensure_self_map self w)) fc <> Inherited ->
  fk_resolves (idsRegistry (ensure_self_map self w)) fc oldVal = false ->
  let registry := idsRegistry (ensure_self_map self w) in
  let prepared_row := fst (transform_row table options registry (object_at w row)) in
  let res := putToPostgres table rows options self w in
  (forall s, fst (fk_entry table registry s (field, fc)) = Returned tt)
  /\ (prepare_throws table options registry (object_at w row) = None ->
      obj_get prepared_row field = Some VNull
      /\ (oldVal <> VArr [] ->
          exists warning,
            fk_warning table field warning = true
            /\ In warning (snd (transform_row table options registry (object_at w row)))))
  /\ (prepared_throws table options registry (heap w) rows = None ->
      In (length (heap w) + i) (snd (prepared_of table rows options self w))
      /\ object_at (fst (prepared_of table rows options self w)) (length (heap w) + i)
         = prepared_row
      /\ (aborted (fst (prepared_of table rows options self w))
          = aborted (checked table self w)
          /\ db (fst (prepared_of table rows options self w)) = db (checked table self w))
      /\ (oldVal <> VArr [] ->
          exists warning,
            fk_warning table field warning = true /\ In warning (console (snd res)))
      /\ (forall m,
            prop prepared_row "mongo_id" = VStr m -> m <> "" ->
            (forall t, db w !! table = Some t -> ~ In m (table_ids t)) ->
            committed table rows options self w ->
            obj_get (pg_store_row prepared_row) field = Some VNull
            /\ exists id,
                 In (id, pg_store_row prepared_row) (rows_of (db (snd res)) table))).
Proof.
  intros Hi Hrow Hraw Hfks Hin Hget Hnn Hinh Hres. cbn zeta.
  set (registry := idsRegistry (ensure_self_map self w)) in *.
  set (raw := object_at w row) in *.
  assert (Hone : prepare_throws table options registry raw = None ->
            obj_get (fst (transform_row table options registry raw)) field = Some VNull
            /\ (oldVal <> VArr [] ->
                exists warning,
                  fk_warning table field warning = true
                  /\ In warning (snd (transform_row table options registry raw)))).
  { intros Hp. pose proof Hp as Hp'. apply prepare_throws_None in Hp' as [_ Hfk].
    destruct (fk_stage_unresolved table registry (foreignKeys options)
                (after_redefine table options raw) field fc oldVal
                Hfks Hin Hget Hnn Hinh Hres Hfk) as (Hnull & Hwarn).
    split.
    - apply (transform_row_keeps table options registry raw field VNull Hp Hraw Hnull).
      reflexivity.
    - intros Hne. destruct (Hwarn Hne) as (warning & Hw & Hwin).
      exists warning. split; [exact Hw|].
      rewrite (transform_row_prepared _ _ _ _ Hp). cbn [snd].
      apply in_or_app. right. apply in_or_app. right. apply in_or_app. left. exact Hwin. }
  split; [intros s; apply (fk_entry_returns table registry s (field, fc)); exact Hinh|].
  split; [exact Hone|].
  intros Hthrows.
  assert (Hp : prepare_throws table options registry raw = None).
  { apply (prepared_throws_lookup table options registry rows (heap w) i row Hthrows Hi Hrow). }
  destruct (Hone Hp) as [Hfield Hwarn].
  destruct (prepared_of_world table rows options self w)
    as (Hheap & Hdb1 & Hreg1 & _ & Hab1 & Hprep).
  destruct (prepared_row_of table rows options self w i row Hthrows Hi Hrow) as [Hr Hobj].
  destruct rows as [|row0 rest] eqn:Hrows; [discriminate|]. rewrite <- Hrows in *.
  set (p := prepared_of table rows options self w) in *.
  split; [exact Hr|]. split; [exact Hobj|]. split; [split; [exact Hab1 | exact Hdb1]|].
  split.
  - intros Hne. destruct (Hwarn Hne) as (warning & Hw & Hwin).
    exists warning. split; [exact Hw|].
    assert (Hprepared : In warning (console (fst p))).
    { subst p. unfold prepared_of. rewrite map_rows_spec. cbn [fst console].
      apply in_or_app. right.
      destruct (checked_frame table self w) as (Hh & Hr' & _).
      fold (checked table self w). rewrite Hh, Hr'.
      apply (prepared_objects_warnings table options _ rows (heap w) i row Hthrows Hi Hrow).
      exact Hwin. }
    destruct (putToPostgres_console table rows options self w row0 rest Hrows) as [more ->].
    apply in_or_app. left. exact Hprepared.
  - intros m Hm Hmne Hnew Hcommitted.
    assert (Hfm : field <> "mongo_id").
    { intros ->. unfold prop in Hm. rewrite Hfield in Hm. discriminate. }
    split; [rewrite pg_store_row_other by exact Hfm; exact Hfield|].
    destruct (committed_store table rows options self w row0 rest Hrows Hcommitted)
      as (_ & _ & -> & w2 & Hups & ->).
    fold p in Hups.
    destruct (upsert_Returned table self _ _ _ Hups)
      as (existing & t & t' & Hsel & Ht & Hcol & Ht' & _ & Hrows' & _ & _).
    set (em := make_existingMap existing) in *.
    assert (Hmid : mongo_id_of (fst p) (length (heap w) + i) = VStr m).
    { unfold mongo_id_of. rewrite Hobj. exact Hm. }
    assert (Hins : In (length (heap w) + i) (toInsert_of em (fst p) (snd p))).
    { apply toInsert_In. split; [exact Hr|]. rewrite Hmid.
      split; [apply truthy_string, Hmne|].
      destruct (existing_has em (VStr m)) eqn:Hex; [|reflexivity].
      apply existing_has_VStr in Hex as [id Hid]. exfalso.
      apply existingMap_Some in Hid.
      destruct (pg_select_Returned _ _ _ _ Hsel) as (t0 & Ht0 & _ & Hex).
      assert (t0 = t) by congruence. subst t0.
      apply Hex in Hid as [(cols & Hcols & Htext) _].
      assert (Hrows_t : rows_of (db (fst p)) table = t_rows t)
        by (unfold rows_of; rewrite Ht; reflexivity).
      rewrite Hdb1 in Hrows_t. unfold checked in Hrows_t.
      rewrite ensure_column_rows in Hrows_t. cbn [db with_aborted] in Hrows_t.
      rewrite ensure_self_map_db in Hrows_t. unfold rows_of in Hrows_t.
      destruct (db w !! table) as [tw|] eqn:Htw.
      - apply (Hnew tw eq_refl). apply table_ids_In. exists id, cols.
        rewrite Hrows_t. auto.
      - rewrite <- Hrows_t in Hcols. destruct Hcols. }
    destruct (new_rows_stored table (fst p) _ _ Hins) as [id Hid].
    rewrite Hobj in Hid. exists id.
    apply link_phase_rows_kept.
    unfold rows_of. rewrite Ht', Hrows'. apply in_or_app. right. exact Hid.
Qed.

(** ** Running a collection again *)

Section Rerun.
Variables table : string.
Variable options : PutOptions.

(** what elision leaves of a field *)
Lemma elide_get r key :
  NoDup (keys r) ->
  obj_get (fst (elide_stage table (links options) r)) key
  = match obj_get r key with
    | Some val => if isArray val && negb (links_has (links options) key) then None else Some val
    | None => None
    end.
Proof.
  intros Hnd. destruct (obj_get r key) as [val|] eqn:Hget.
  - destruct (isArray val && negb (links_has (links options) key)) eqn:Hc.
    + apply andb_prop in Hc as [Ha Hl]. apply negb_true_iff in Hl.
      apply (elide_stage_removes table (links options) r key val Hget Ha Hl).
    + rewrite elide_stage_keeps; [exact Hget|].
      destruct (dropped _ _ key) eqn:Hd; [|reflexivity].
      apply dropped_elim in Hd as (val' & Hin & Ha & Hl).
      apply (In_obj_get _ _ _ Hnd) in Hin. assert (val' = val) by congruence. subst val'.
      rewrite Ha, Hl in Hc. discriminate.
  - unfold elide_stage. rewrite elide_fold_object.
    destruct (obj_get (List.filter _ _) key) eqn:Hf; [|reflexivity].
    apply obj_get_filter_In in Hf as [Hin _].
    apply obj_get_None_keys in Hget. exfalso. apply Hget.
    apply list_elem_of_In. apply (in_map fst) in Hin. exact Hin.
Qed.

(** a field that is no foreign key is prepared the same whatever the
    registry holds *)
Lemma transform_row_registry registry registry' raw key :
  prepare_throws table options registry raw = None ->
  prepare_throws table options registry' raw = None ->
  NoDup (keys raw) -> key ∉ keys (foreignKeys options) ->
  obj_get (fst (transform_row table options registry raw)) key
  = obj_get (fst (transform_row table options registry' raw)) key.
Proof.
  intros Hp Hp' Hnd Hkey. rewrite (transform_row_fst _ _ _ _ Hp), (transform_row_fst _ _ _ _ Hp').
  rewrite !elide_get by (apply after_fk_NoDup, Hnd).
  unfold after_fk, fk_stage. rewrite !(fk_loop_other table _ _ _ key Hkey). reflexivity.
Qed.

Lemma filter_nil {A} (f : A -> bool) (l : list A) :
  (forall x, In x l -> f x = false) -> List.filter f l = [].
Proof.
  induction l as [|x l IH]; intros H; simpl; [reflexivity|].
  rewrite (H x (or_introl eq_refl)). apply IH. intros y Hy. apply H. right. exact Hy.
Qed.

Variable rows : list loc.
Variable self : string.

(** the prepared rows of a call on records of the heap *)
Lemma prepared_of_valid w r :
  Forall (fun row => row < length (heap w)) rows ->
  In r (snd (prepared_of table rows options self w)) ->
  prepared_throws table options (idsRegistry (ensure_self_map self w)) (heap w) rows = None
  /\ exists i row,
       rows !! i = Some row /\ r = length (heap w) + i
       /\ object_at (fst (prepared_of table rows options self w)) r
          = fst (transform_row table options (idsRegistry (ensure_self_map self w))
                               (object_at w row)).
Proof.
  intros Hvalid Hin.
  destruct (prepared_of_world table rows options self w) as (_ & _ & _ & _ & _ & Hp).
  destruct (prepared_throws _ _ _ _ _) eqn:Hthrows; [rewrite Hp in Hin; destruct Hin|].
  split; [reflexivity|].
  rewrite Hp in Hin. apply in_seq in Hin as [Hlo Hhi].
  destruct (lookup_lt_is_Some_2 rows (r - length (heap w))) as [row Hrow]; [list_lia|].
  exists (r - length (heap w)), row. split; [exact Hrow|]. split; [list_lia|].
  assert (Hv : row < length (heap w)).
  { rewrite Forall_forall in Hvalid. apply Hvalid. eapply list_elem_of_lookup_2, Hrow. }
  destruct (prepared_row_of table rows options self w _ row Hthrows Hrow Hv) as [_ Hobj].
  replace (length (heap w) + (r - length (heap w))) with r in Hobj by list_lia.
  exact Hobj.
Qed.

(** a call that committed: the table has the column, and the [mongo_id]
    string of every prepared row is in it *)
Lemma committed_call_stores w :
  (forall cfg, In cfg (map snd (links options)) -> linkTable cfg <> table) ->
  rows <> [] ->
  committed table rows options self w ->
  exists t1,
    db (snd (putToPostgres table rows options self w)) !! table = Some t1
    /\ t_mongo_id t1 = true
    /\ forall r m,
         In r (snd (prepared_of table rows options self w)) ->
         mongo_id_of (fst (prepared_of table rows options self w)) r = VStr m ->
         m <> "" -> In m (table_ids t1).
Proof.
  intros Hlk Hne Hcommitted.
  destruct rows as [|row0 rest] eqn:Hrows; [contradiction|]. rewrite <- Hrows in *.
  destruct (committed_store table rows options self w row0 rest Hrows Hcommitted)
    as (_ & _ & -> & w2 & Hups & ->).
  set (p := prepared_of table rows options self w) in *.
  destruct (upsert_Returned table self _ _ _ Hups)
    as (existing & t & t' & Hsel & Ht & Hcol & Ht' & Hcol' & Hrows' & _ & _).
  exists t'.
  pose proof (link_phase_untouched table self rows (links options) w2 Hlk) as Hun.
  unfold table_untouched in Hun. rewrite Hun.
  split; [exact Ht'|]. split; [exact Hcol'|].
  intros r m Hr Hm Hmne. apply table_ids_In.
  destruct (existing_has (make_existingMap existing) (VStr m)) eqn:Hex.
  - apply existing_has_VStr in Hex as [id Hid]. apply existingMap_Some in Hid.
    destruct (pg_select_Returned _ _ _ _ Hsel) as (t0 & Ht0 & _ & Hex).
    assert (t0 = t) by congruence. subst t0.
    apply Hex in Hid as [(cols & Hcols & Htext) _].
    exists id, cols. rewrite Hrows'. split; [apply in_or_app; left; exact Hcols | exact Htext].
  - assert (Hins : In r (toInsert_of (make_existingMap existing) (fst p) (snd p))).
    { apply toInsert_In. rewrite Hm. split; [exact Hr|].
      split; [apply truthy_string, Hmne | exact Hex]. }
    destruct (new_rows_stored table (fst p) _ _ Hins) as [id Hid].
    exists id, (pg_store_row (object_at (fst p) r)). rewrite Hrows'.
    split; [apply in_or_app; right; exact Hid|].
    assert (Htr : truthy (mongo_id_of (fst p) r) = true)
      by (rewrite Hm; apply truthy_string, Hmne).
    destruct (stored_text (fst p) r Htr) as [Htext _]. rewrite Htext, Hm. reflexivity.
Qed.

(** a call on a table that has the [mongo_id] of every prepared row:
    nothing is inserted, the table is as it was, whatever the call comes
    to; and when the rows are prepared and the collection has its map, the
    registry holds for every row the id of a row of the table *)
Lemma call_on_migrated_table w t1 :
  (forall cfg, In cfg (map snd (links options)) -> linkTable cfg <> table) ->
  rows <> [] ->
  db w !! table = Some t1 -> t_mongo_id t1 = true ->
  (forall r, In r (snd (prepared_of table rows options self w)) ->
     truthy (mongo_id_of (fst (prepared_of table rows options self w)) r) = true ->
     exists m, mongo_id_of (fst (prepared_of table rows options self w)) r = VStr m
               /\ In m (table_ids t1)) ->
  db (snd (putToPostgres table rows options self w)) !! table = Some t1
  /\ (registry_get (idsRegistry w) self <> Inherited ->
      forall r m,
        In r (snd (prepared_of table rows options self w)) ->
        mongo_id_of (fst (prepared_of table rows options self w)) r = VStr m -> m <> "" ->
        exists id cols,
          resolve (idsRegistry (snd (putToPostgres table rows options self w))) self m
          = Some id
          /\ In (id, cols) (t_rows t1) /\ mongo_text cols = Some m).
Proof.
  intros Hlk Hne Ht1 Hcol Hall.
  destruct rows as [|row0 rest] eqn:Hrows; [contradiction|]. rewrite <- Hrows in *.
  rewrite (putToPostgres_registry table rows options self row0 rest w Hrows).
  rewrite (putToPostgres_eq table rows options self row0 rest w Hrows). cbn [snd].
  destruct (prepared_of_world table rows options self w)
    as (_ & Hdb1 & Hreg1 & _ & Hab1 & Hprep).
  set (p := prepared_of table rows options self w) in *.
  assert (Ht1' : db (with_aborted false (ensure_self_map self w)) !! table = Some t1)
    by (cbn [db with_aborted]; rewrite ensure_self_map_db; exact Ht1).
  unfold checked in Hdb1, Hab1.
  rewrite (ensure_column_noop table (with_aborted false (ensure_self_map self w)) t1
             eq_refl Ht1' Hcol) in Hdb1, Hab1.
  cbn [db aborted with_aborted] in Hdb1, Hab1. rewrite ensure_self_map_db in Hdb1.
  assert (Htp : db (fst p) !! table = Some t1) by (rewrite Hdb1; exact Ht1).
  destruct (select_finds table (snd p) (fst p) t1 Htp Hcol) as (existing & Hsel & Hsound & Hfind).
  set (em := make_existingMap existing) in *.
  assert (Hnone : toInsert_of em (fst p) (snd p) = []).
  { apply filter_nil. intros r Hr.
    destruct (truthy (mongo_id_of (fst p) r)) eqn:Htr; [|reflexivity].
    destruct (Hall r Hr Htr) as (m & Hm & Hin). rewrite Hm in Htr |- *.
    assert (Hmne : m <> "").
    { intros ->. simpl in Htr. discriminate. }
    destruct (Hfind r m Hr Hm Hmne Hin) as [id Hid].
    rewrite (proj2 (existing_has_VStr em m)) by eauto. reflexivity. }
  assert (Hups : upsert table self (snd p) (fst p)
                 = match sets_outcome (idsRegistry (fst p)) self
                         (skip_pairs em (fst p) (toSkip_of em (fst p) (snd p))) with
                   | Thrown msg =>
                       (Thrown msg,
                        World (heap (fst p)) (db (fst p))
                          (set_all self (skip_pairs em (fst p) (toSkip_of em (fst p) (snd p)))
                                   (idsRegistry (fst p)))
                          (console (fst p)
                           ++ match toSkip_of em (fst p) (snd p) with
                              | [] => []
                              | _ :: _ =>
                                  [LogAlreadyExist table
                                     (length (toSkip_of em (fst p) (snd p)))]
                              end) (serials (fst p)) false)
                   | Returned _ =>
                       (Returned tt,
                        World (heap (fst p)) (db (fst p))
                          (set_all self (skip_pairs em (fst p) (toSkip_of em (fst p) (snd p)))
                                   (idsRegistry (fst p)))
                          ((console (fst p)
                            ++ match toSkip_of em (fst p) (snd p) with
                               | [] => []
                               | _ :: _ =>
                                   [LogAlreadyExist table
                                      (length (toSkip_of em (fst p) (snd p)))]
                               end)
                           ++ [LogInserted table 0]) (serials (fst p)) false)
                   end).
  { rewrite upsert_eq. unfold trx_select. rewrite Hab1, Hsel. cbn zeta. fold em.
    rewrite Hnone. reflexivity. }
  assert (Hunit : db (snd (unit_result table rows options self w)) !! table = Some t1).
  { rewrite unit_result_eq. fold p.
    destruct (prepared_throws _ _ _ _ _); [exact Htp|].
    rewrite Hups. destruct (sets_outcome _ _ _) as [[]|msg]; [|exact Htp].
    pose proof (link_phase_untouched table self rows (links options)
                  (World (heap (fst p)) (db (fst p))
                     (set_all self (skip_pairs em (fst p) (toSkip_of em (fst p) (snd p)))
                              (idsRegistry (fst p)))
                     ((console (fst p)
                       ++ match toSkip_of em (fst p) (snd p) with
                          | [] => []
                          | _ :: _ =>
                              [LogAlreadyExist table (length (toSkip_of em (fst p) (snd p)))]
                          end)
                      ++ [LogInserted table 0]) (serials (fst p)) false) Hlk) as Hun.
    unfold table_untouched in Hun. rewrite Hun. exact Htp. }
  split.
  - destruct (_ || _); cbn [db with_db with_aborted]; [exact Ht1 | exact Hunit].
  - intros Hinh r m Hr Hm Hmne.
    destruct (prepared_throws table options (idsRegistry (ensure_self_map self w)) (heap w) rows)
      eqn:Hthrows; [rewrite Hprep in Hr; destruct Hr|].
    rewrite unit_result_registry, Hthrows. fold p. rewrite Hups.
    assert (Hown : obj_has (idsRegistry (fst p)) self = true)
      by (rewrite Hreg1; apply ensure_self_map_has, Hinh).
    assert (Hreg : idsRegistry
                     (snd (match sets_outcome (idsRegistry (fst p)) self
                                 (skip_pairs em (fst p) (toSkip_of em (fst p) (snd p))) with
                           | Returned _ =>
                               (Returned tt,
                                World (heap (fst p)) (db (fst p))
                                  (set_all self
                                     (skip_pairs em (fst p) (toSkip_of em (fst p) (snd p)))
                                     (idsRegistry (fst p)))
                                  ((console (fst p)
                                    ++ match toSkip_of em (fst p) (snd p) with
                                       | [] => []
                                       | _ :: _ =>
                                           [LogAlreadyExist table
                                              (length (toSkip_of em (fst p) (snd p)))]
                                       end)
                                   ++ [LogInserted table 0]) (serials (fst p)) false)
                           | Thrown msg =>
                               (Thrown msg,
                                World (heap (fst p)) (db (fst p))
                                  (set_all self
                                     (skip_pairs em (fst p) (toSkip_of em (fst p) (snd p)))
                                     (idsRegistry (fst p)))
                                  (console (fst p)
                                   ++ match toSkip_of em (fst p) (snd p) with
                                      | [] => []
                                      | _ :: _ =>
                                          [LogAlreadyExist table
                                             (length (toSkip_of em (fst p) (snd p)))]
                                      end) (serials (fst p)) false)
                           end))
                   = set_all self (skip_pairs em (fst p) (toSkip_of em (fst p) (snd p)))
                             (idsRegistry (fst p))).
    { destruct (sets_outcome _ _ _); reflexivity. }
    rewrite Hreg.
    assert (Htr : truthy (mongo_id_of (fst p) r) = true)
      by (rewrite Hm; apply truthy_string, Hmne).
    destruct (Hall r Hr Htr) as (m' & Hm' & Hin).
    assert (m' = m) by congruence. subst m'.
    destruct (Hfind r m Hr Hm Hmne Hin) as [id0 Hid0].
    rewrite resolve_set_all by exact Hown.
    destruct (last_binding_is_Some (skip_pairs em (fst p) (toSkip_of em (fst p) (snd p))) m)
      as [id Hid].
    { apply list_elem_of_In, in_map_iff. exists (m, id0). split; [reflexivity|].
      apply skip_pairs_In. exists r. split; [|auto].
      apply toSkip_In. rewrite Hm. split; [exact Hr|].
      split; [apply truthy_string, Hmne|]. apply existing_has_VStr. eauto. }
    rewrite Hid. apply last_binding_In, skip_pairs_In in Hid as (r' & _ & _ & Hem).
    destruct (Hsound m id Hem) as (cols & Hcols & Htext). eauto.
Qed.

End Rerun.


(** ** The properties on the concrete collections *)

Import Scenarios MoreScenarios.


(** C2, as stated, fails: [foreignKeys] names [awards] as the collection of
    [award_ids], where [x] is award 3; the link row gets 7, the id [x] has
    in [departments], the first map of the registry. *)
Lemma link_ignores_declared_collection :
  obj_get (foreignKeys twin_options) "award_ids" = Some "awards"
  /\ resolve (idsRegistry twin_world) "awards" "x" = Some 3%Z
  /\ fst twin_result = Returned tt
  /\ rows_of (db (snd twin_result)) "employees_awards"
     = [(1%Z, [("employee_id", VNum 1); ("award_id", VNum 7)])].
Proof. repeat split; vm_compute; reflexivity. Qed.

(** C3, as stated, fails: [e1] is registered with id 5, the table has it
    with id 9; the call returns, and [e1] is registered with 9. *)
Lemma registered_id_is_overwritten :
  resolve (idsRegistry conflict_world) "employees" "e1" = Some 5%Z
  /\ fst conflict_result = Returned tt
  /\ resolve (idsRegistry (snd conflict_result)) "employees" "e1" = Some 9%Z
  /\ resolve (registry_set "employees" "e1" 9 (idsRegistry conflict_world)) "employees" "e1"
     = Some 9%Z.
Proof. repeat split; vm_compute; reflexivity. Qed.


(** C5, as stated, fails: a foreign key that holds an empty array is there,
    is not null and finds no id; the field is set to [null], but no warning
    is printed.  And a record without [mongo_id] whose department is not
    registered has the field set to [null] with a warning, but is never
    written. *)
Lemma empty_array_is_nulled_silently :
  obj_get (after_redefine "employees" employees_options gil) "department" = Some (VArr [])
  /\ fk_resolves (idsRegistry (ensure_self_map "employees" empty_fk_world)) "departments"
                 (VArr []) = false
  /\ fst empty_fk_result = Returned tt
  /\ rows_of (db (snd empty_fk_result)) "employees"
     = [(1%Z, [("mongo_id", VStr "e7"); ("department", VNull)])]
  /\ console (snd empty_fk_result) = [LogInserted "employees" 1]
  /\ fst nameless_result = Returned tt
  /\ console (snd nameless_result)
     = [WarnMissingFk "employees" "department" (VStr "d9"); LogInserted "employees" 0]
  /\ rows_of (db (snd nameless_result)) "employees" = [].
Proof. repeat split; vm_compute; reflexivity. Qed.

(** C6 on a record with an array field named [constructor], which [links]
    does not name: [links[key]] is then [Object.prototype.constructor], so
    the test [!links[key]] fails, the field is not dropped, no warning is
    printed, and the array is in the row that is inserted. *)
Theorem inherited_name_array_is_kept :
  obj_get (after_fk "employees" no_options
                    (idsRegistry (ensure_self_map "employees" inherited_field_world)) hal)
          "constructor" = Some (VArr [VStr "a"; VStr "b"])
  /\ obj_has (links no_options) "constructor" = false
  /\ links_has (links no_options) "constructor" = true
  /\ obj_get (fst (transform_row "employees" no_options
                     (idsRegistry (ensure_self_map "employees" inherited_field_world)) hal))
             "constructor" = Some (VArr [VStr "a"; VStr "b"])
  /\ fst inherited_field_result = Returned tt
  /\ rows_of (db (snd inherited_field_result)) "employees" = [(1%Z, hal)]
  /\ console (snd inherited_field_result) = [LogInserted "employees" 1].
Proof. repeat split; vm_compute; reflexivity. Qed.

(** C8 on a mapper that throws [null]: the handler evaluates [e.message],
    which throws in its turn; no warning is printed, the record is not
    prepared, the call throws and nothing is stored. *)
Theorem mapper_throwing_null_aborts :
  obj_has (after_rename null_throw_options carl) "name" = true
  /\ prepare_throws "employees" null_throw_options
                    (idsRegistry (ensure_self_map "employees" carl_world)) carl
     = Some "Cannot read properties of null (reading 'message')"
  /\ fst null_throw_result = Thrown "Cannot read properties of null (reading 'message')"
  /\ console (snd null_throw_result) = []
  /\ rows_of (db (snd null_throw_result)) "employees" = [].
Proof. repeat split; vm_compute; reflexivity. Qed.

(** C7, as stated, fails: the only element of [award_ids] is registered,
    but the record has no [mongo_id], so it has no sql id and its links are
    skipped: no link row for one element. *)
Lemma link_rows_fewer_than_elements :
  Forall (fun e => scan_registry (idsRegistry anonymous_world) (String_ e) = Some 1%Z)
         (array_elems (prop (object_at anonymous_world 0) "award_ids"))
  /\ element_count anonymous_world "award_ids" [0%nat] = 1%nat
  /\ fst anonymous_result = Returned tt
  /\ rows_of (db (snd anonymous_result)) "employees_awards" = []
  /\ length (rows_of (db (snd anonymous_result)) "employees_awards")
     <> element_count anonymous_world "award_ids" [0%nat].
Proof.
  split; [repeat constructor|]. repeat split; try (vm_compute; reflexivity).
  intros H. vm_compute in H. discriminate H.
Qed.

(** the schema safeguard in a store that prohibits schema changes: its
    error is caught and logged, but the transaction is aborted by then, so
    the select throws and the call with it *)
Example schema_change_prohibited :
  fst locked_result
  = Thrown "current transaction is aborted, commands ignored until end of transaction block"
  /\ console (snd locked_result)
     = [LogSchemaCheck "employees" "must be owner of table employees"]
  /\ rows_of (db (snd locked_result)) "employees" = [].
Proof. repeat split; vm_compute; reflexivity. Qed.
(** ** The theorems at work on the concrete collections *)


Lemma link_target_is_first_match_witness :
  scan_registry (idsRegistry twin_world) "x" = Some 7%Z
  /\ link_element award_link 1 [] [] twin_world (VStr "x")
     = (Returned ([] ++ [link_base award_link 1 7]), twin_world)
  /\ prop (obj_assign (link_base overriding_link 1 7)
                      [("award_id", VNum 99); ("rank", VNum 1)]) "award_id" = VNum 99.
Proof.
  assert (H : scan_registry (idsRegistry twin_world) "x" = Some 7%Z) by reflexivity.
  split; [exact H|]. split.
  - apply (proj2 (proj1 (proj2 (link_target_is_first_match (idsRegistry twin_world) "x" 7%Z))
                    award_link 1%Z [] [] twin_world (VStr "x")
                    eq_refl eq_refl H ltac:(discriminate))).
  - apply (proj2 (proj2 (proj1 (proj2 (link_target_is_first_match (idsRegistry twin_world)
                                         "x" 7%Z))
                           overriding_link 1%Z [] [] twin_world (VStr "x")
                           eq_refl eq_refl H ltac:(discriminate)))).
Defined.

Lemma registry_set_overwrites_witness :
  obj_get (idsRegistry conflict_world) "employees" = Some {["e1" := 5%Z]}
  /\ resolve (registry_set "employees" "e1" 9 (idsRegistry conflict_world)) "employees" "e1"
     = Some 9%Z.
Proof.
  assert (H : obj_get (idsRegistry conflict_world) "employees" = Some {["e1" := 5%Z]})
    by reflexivity.
  split; [exact H|].
  apply (proj1 (proj2 (registry_set_overwrites "employees" (idsRegistry conflict_world)
                         {["e1" := 5%Z]} "e1" 9%Z H)) 5%Z).
  vm_compute. reflexivity.
Defined.


Lemma unresolved_fk_is_null_and_row_is_written_witness :
  fk_resolves (idsRegistry (ensure_self_map "employees" unresolved_world)) "departments"
              (VStr "d9") = false
  /\ obj_get (fst (transform_row "employees" employees_options
                     (idsRegistry (ensure_self_map "employees" unresolved_world))
                     (object_at unresolved_world 0))) "department" = Some VNull
  /\ (exists warning,
        fk_warning "employees" "department" warning = true
        /\ In warning (console (snd (putToPostgres "employees" [0%nat] employees_options
                                       "employees" unresolved_world))))
  /\ exists id,
       In (id, pg_store_row
                 (fst (transform_row "employees" employees_options
                         (idsRegistry (ensure_self_map "employees" unresolved_world))
                         (object_at unresolved_world 0))))
          (rows_of (db (snd (putToPostgres "employees" [0%nat] employees_options "employees"
                              unresolved_world))) "employees").
Proof.
  assert (H : fk_resolves (idsRegistry (ensure_self_map "employees" unresolved_world))
                          "departments" (VStr "d9") = false) by (vm_compute; reflexivity).
  split; [exact H|].
  destruct (unresolved_fk_is_null_and_row_is_written
              "employees" [0%nat] employees_options "employees" unresolved_world
              0%nat 0%nat "department" "departments" (VStr "d9"))
    as (_ & Hone & Hcall).
  - reflexivity.
  - simpl. lia.
  - apply (bool_decide_unpack _). vm_compute. exact I.
  - apply (bool_decide_unpack _). vm_compute. exact I.
  - left. reflexivity.
  - vm_compute. reflexivity.
  - reflexivity.
  - vm_compute. discriminate.
  - exact H.
  - destruct Hone as [Hnull _]; [vm_compute; reflexivity|].
    destruct Hcall as (_ & _ & _ & Hwarn & Hwritten); [vm_compute; reflexivity|].
    split; [exact Hnull|]. split; [apply Hwarn; discriminate|].
    apply (Hwritten "e1").
    + vm_compute. reflexivity.
    + discriminate.
    + intros t Ht. vm_compute in Ht. injection Ht as <-. intros [].
    + split; vm_compute; reflexivity.
Defined.

Lemma link_rows_complete_witness :
  exists linkRows,
    gather_linkRows "employees" "award_ids" award_link [0%nat] linked_world
    = (Returned linkRows, linked_world)
    /\ length linkRows = element_count linked_world "award_ids" [0%nat].
Proof.
  destruct (link_rows_complete "employees" "employees" "award_ids" award_link [0%nat]
              linked_world) as (linkRows & Hg & Hlen & _).
  - intros row [<-|[]] _. exists (Some 2%Z). split; vm_compute; reflexivity.
  - intros row e [<-|[]] [<-|[]]. vm_compute. reflexivity.
  - intros f a b o Hf. discriminate Hf.
  - exists linkRows. split; assumption.
Defined.

Lemma input_records_not_mutated_witness :
  heap awards_world !! 0%nat = Some bob
  /\ heap (snd (putToPostgres "employees" [0%nat] awards_options "employees" awards_world))
     !! 0%nat = Some bob.
Proof.
  split; [reflexivity|]. apply input_records_not_mutated. reflexivity.
Defined.


(** ** The stages, field by field *)

Section StageFrames.
Variable table : string.

Lemma keys_set_present {A} (o : jsobj A) k v :
  obj_has o k = true -> keys (obj_set k v o) = keys o.
Proof. intros Hh. unfold obj_set. rewrite Hh. apply keys_update. Qed.

Lemma redefine_entry_keys s e :
  keys (fst (snd (redefine_entry table s e))) = keys (fst s).
Proof.
  destruct s as [r warns], e as [field mapper]. rewrite redefine_entry_eq. cbn [fst].
  destruct (obj_has r field) eqn:Hh; [|reflexivity].
  destruct (mapper _ _) as [v|x]; cbn [fst snd]; [apply keys_set_present, Hh|].
  destruct (nullish x); reflexivity.
Qed.

Lemma redefine_loop_keys rd s :
  keys (fst (snd (stage_loop (redefine_entry table) rd s))) = keys (fst s).
Proof.
  apply (stage_loop_preserves (redefine_entry table)
           (fun s' => keys (fst s') = keys (fst s))); [|reflexivity].
  intros s' e _ Hs'. rewrite redefine_entry_keys. exact Hs'.
Qed.

(** X1.  The redefine stage neither adds nor removes nor reorders fields,
    and a field without an entry in [redefine] keeps its value: a mapper
    is only ever called for a field the record has, and only its own field
    is assigned. *)
Theorem redefine_stage_keeps_fields rd r :
  keys (fst (snd (redefine_stage table rd r))) = keys r
  /\ forall k, k ∉ keys rd -> obj_get (fst (snd (redefine_stage table rd r))) k = obj_get r k.
Proof.
  unfold redefine_stage. split.
  - apply redefine_loop_keys.
  - intros k Hk. apply (redefine_loop_other table rd (r, []) k Hk).
Qed.

Variable registry : jsobj idmap.

Lemma fk_assign_set fkMap field oldVal s :
  exists v, fst (fk_assign table fkMap field oldVal s) = obj_set field v (fst s).
Proof.
  destruct (fk_assign_shape table fkMap field oldVal s) as (more & v & ->).
  exists v. reflexivity.
Qed.

Lemma fk_entry_cases s e :
  fst (snd (fk_entry table registry s e)) = fst s
  \/ (obj_has (fst s) (fst e) = true
      /\ nullish (prop (fst s) (fst e)) = false
      /\ exists v, fst (snd (fk_entry table registry s e)) = obj_set (fst e) v (fst s)).
Proof.
  destruct e as [field fc]. unfold fk_entry. cbn [fst snd].
  destruct (obj_has (fst s) field) eqn:Hh; cbn [negb]; [|left; reflexivity].
  destruct (nullish (prop (fst s) field)) eqn:Hn; [left; reflexivity|].
  destruct (registry_get registry fc) as [fkMap| |]; cbn [fst snd].
  - right. split; [reflexivity|]. split; [reflexivity|]. apply fk_assign_set.
  - destruct (prop (fst s) field) as [| | | | |ids|]; try (left; reflexivity).
    destruct (forallb nullish ids); [|left; reflexivity]. cbn [fst snd].
    right. split; [reflexivity|]. split; [reflexivity|]. apply fk_assign_set.
  - right. split; [reflexivity|]. split; [reflexivity|]. eexists. reflexivity.
Qed.

Lemma fk_entry_keys s e : keys (fst (snd (fk_entry table registry s e))) = keys (fst s).
Proof.
  destruct (fk_entry_cases s e) as [->|(Hh & _ & v & ->)]; [reflexivity|].
  apply keys_set_present, Hh.
Qed.

Lemma fk_entry_null s e k v :
  obj_get (fst s) k = Some v -> nullish v = true ->
  obj_get (fst (snd (fk_entry table registry s e))) k = Some v.
Proof.
  intros Hget Hnull.
  destruct (fk_entry_cases s e) as [->|(_ & Hnn & v' & ->)]; [exact Hget|].
  destruct (decide (fst e = k)) as [Heq|Hne].
  - rewrite Heq in Hnn. unfold prop in Hnn. rewrite Hget in Hnn. congruence.
  - rewrite obj_get_set_ne by exact Hne. exact Hget.
Qed.

Lemma fk_loop_keys fks s :
  keys (fst (snd (stage_loop (fk_entry table registry) fks s))) = keys (fst s).
Proof.
  apply (stage_loop_preserves (fk_entry table registry)
           (fun s' => keys (fst s') = keys (fst s))); [|reflexivity].
  intros s' e _ Hs'. rewrite fk_entry_keys. exact Hs'.
Qed.

Lemma fk_loop_null fks s k v :
  obj_get (fst s) k = Some v -> nullish v = true ->
  obj_get (fst (snd (stage_loop (fk_entry table registry) fks s))) k = Some v.
Proof.
  intros Hget Hnull.
  apply (stage_loop_preserves (fk_entry table registry)
           (fun s' => obj_get (fst s') k = Some v)); [|exact Hget].
  intros s' e _ Hs'. apply fk_entry_null; assumption.
Qed.

(** X2.  The foreign-key stage neither adds nor removes nor reorders
    fields; a field that is not configured in [foreignKeys] keeps its
    value, and so does a configured field that is [null] or [undefined]
    (it is skipped, whatever the registry holds). *)
Theorem fk_stage_keeps_fields fks r :
  keys (fst (snd (fk_stage table registry fks r))) = keys r
  /\ (forall k, k ∉ keys fks ->
        obj_get (fst (snd (fk_stage table registry fks r))) k = obj_get r k)
  /\ (forall k v, obj_get r k = Some v -> nullish v = true ->
        obj_get (fst (snd (fk_stage table registry fks r))) k = Some v).
Proof.
  unfold fk_stage. split; [|split].
  - apply fk_loop_keys.
  - intros k Hk. apply (fk_loop_other table registry fks (r, []) k Hk).
  - intros k v Hget Hnull. apply fk_loop_null; assumption.
Qed.

(** every warning an entry adds is about its own field *)
Lemma fk_entry_own_warnings s e :
  exists more,
    snd (snd (fk_entry table registry s e)) = snd s ++ more
    /\ Forall (fun x => fk_warning table (fst e) x = true) more.
Proof.
  assert (Hw : forall t f, t = table -> f = fst e -> bool_decide (t = table ∧ f = fst e) = true).
  { intros. apply bool_decide_eq_true. auto. }
  assert (Hnone : exists more, snd s = snd s ++ more
                               /\ Forall (fun x => fk_warning table (fst e) x = true) more).
  { exists []. rewrite app_nil_r. auto. }
  assert (Hassign : forall fkMap oldVal, exists more,
             snd (fk_assign table fkMap (fst e) oldVal s) = snd s ++ more
             /\ Forall (fun x => fk_warning table (fst e) x = true) more).
  { intros fkMap oldVal. destruct s as [r warns]. unfold fk_assign. cbn [snd].
    destruct oldVal as [| | | | |ids|];
      try (destruct (fkMap !! _);
           [exists []; rewrite app_nil_r; split; [reflexivity | constructor]
           | eexists; split; [reflexivity | repeat constructor; apply Hw; reflexivity]]).
    destruct (bool_decide _).
    - exists []. rewrite app_nil_r. split; [reflexivity | constructor].
    - eexists. split; [reflexivity | repeat constructor; apply Hw; reflexivity]. }
  destruct e as [field fc]. unfold fk_entry. cbn [fst snd] in *.
  destruct (negb (obj_has (fst s) field)); [exact Hnone|].
  destruct (nullish (prop (fst s) field)); [exact Hnone|].
  destruct (registry_get registry fc) as [fkMap| |]; cbn [fst snd].
  - apply Hassign.
  - destruct (prop (fst s) field) as [| | | | |ids|]; try exact Hnone.
    destruct (forallb nullish ids); cbn [snd]; [apply Hassign | exact Hnone].
  - eexists; split; [reflexivity | repeat constructor; apply Hw; reflexivity].
Qed.

Lemma fk_loop_foreign_warnings fks field : forall s x,
  field ∉ keys fks ->
  In x (snd (snd (stage_loop (fk_entry table registry) fks s))) ->
  fk_warning table field x = true -> In x (snd s).
Proof.
  induction fks as [|e fks IH]; intros s x Hk Hin Hw; [exact Hin|].
  simpl in Hk. apply not_elem_of_cons in Hk as [Hne Hk].
  rewrite stage_loop_cons in Hin.
  assert (Hstep : In x (snd (snd (fk_entry table registry s e))) -> In x (snd s)).
  { intros H. destruct (fk_entry_own_warnings s e) as (more & Heq & Hall).
    rewrite Heq in H. apply in_app_or in H as [H|H]; [exact H|].
    exfalso. rewrite Forall_forall in Hall.
    specialize (Hall x (proj2 (list_elem_of_In _ _) H)).
    destruct x; simpl in Hw, Hall; try discriminate;
      apply bool_decide_eq_true in Hw as [_ ->];
      apply bool_decide_eq_true in Hall as [_ Hf]; congruence. }
  destruct (fst (fk_entry table registry s e)); cbn [snd] in Hin.
  - apply Hstep. apply (IH _ _ Hk Hin Hw).
  - apply Hstep, Hin.
Qed.

(** the first element of a foreign-key array that finds an id *)
Lemma map_fk_array_first fkMap ids :
  match map_fk_array fkMap ids with
  | first :: _ =>
      exists pre id post,
        ids = pre ++ id :: post
        /\ Forall (fun x => fk_element_resolves fkMap x = false) pre
        /\ nullish id = false /\ fkMap !! String_ id = Some first
  | [] => Forall (fun x => fk_element_resolves fkMap x = false) ids
  end.
Proof.
  unfold map_fk_array. induction ids as [|id ids IH]; simpl; [constructor|].
  assert (Hskip : fk_element_resolves fkMap id = false ->
            match omap (fun id0 => if nullish id0 then None else fkMap !! String_ id0) ids with
            | first :: _ =>
                exists pre id0 post,
                  id :: ids = pre ++ id0 :: post
                  /\ Forall (fun x => fk_element_resolves fkMap x = false) pre
                  /\ nullish id0 = false /\ fkMap !! String_ id0 = Some first
            | [] => Forall (fun x => fk_element_resolves fkMap x = false) (id :: ids)
            end).
  { intros Hid. destruct (omap _ ids) as [|first rest].
    - constructor; assumption.
    - destruct IH as (pre & id0 & post & -> & Hpre & Hn & Hf).
      exists (id :: pre), id0, post. split; [reflexivity|].
      split; [constructor; assumption | auto]. }
  unfold fk_element_resolves in *.
  destruct (nullish id) eqn:Hn; [apply Hskip; reflexivity|].
  destruct (fkMap !! String_ id) as [first|] eqn:Hl.
  - exists [], id, ids. split; [reflexivity|]. split; [constructor | auto].
  - apply Hskip. rewrite bool_decide_eq_false_2; [reflexivity|]. intros [? ?]. discriminate.
Qed.

End StageFrames.

(** X3.  A scalar foreign key that the registry knows, in a record that
    is prepared without a throw: the prepared row has the registered id in
    the field, and the stage gives no warning about the field.  The key is
    [String(oldVal)]: a number is looked up under its decimal digits, or,
    from 1e21 on, under its exponent form. *)
Theorem fk_resolved_field table options registry raw field fc oldVal fkMap id :
  NoDup (keys raw) ->
  NoDup (keys (foreignKeys options)) ->
  In (field, fc) (foreignKeys options) ->
  prepare_throws table options registry raw = None ->
  obj_get (after_redefine table options raw) field = Some oldVal ->
  nullish oldVal = false -> isArray oldVal = false ->
  obj_get registry fc = Some fkMap ->
  fkMap !! String_ oldVal = Some id ->
  obj_get (fst (transform_row table options registry raw)) field = Some (VNum id)
  /\ forall x,
       In x (snd (snd (fk_stage table registry (foreignKeys options)
                                (after_redefine table options raw)))) ->
       fk_warning table field x = false.
Proof.
  intros Hraw Hnd Hin Hp Hget Hnn Harr Hmap Hid.
  destruct (in_split _ _ Hin) as (pre & post & Hsplit).
  destruct (NoDup_keys_split _ _ _ _ _ Hnd Hsplit) as [Hpre Hpost].
  pose proof Hp as Hp'. apply prepare_throws_None in Hp' as [_ Hfk].
  set (r2 := after_redefine table options raw) in *.
  pose proof (fk_loop_other table registry pre (r2, []) field Hpre) as Hturn.
  cbn [fst] in Hturn. rewrite Hget in Hturn.
  unfold fk_stage in Hfk. rewrite Hsplit in Hfk.
  destruct (stage_loop_app_Returned _ pre ((field, fc) :: post) _ Hfk) as [_ Heq].
  assert (Hstage : fk_stage table registry (foreignKeys options) r2
                   = stage_loop (fk_entry table registry) post
                       (snd (fk_entry table registry
                               (snd (stage_loop (fk_entry table registry) pre (r2, [])))
                               (field, fc)))).
  { unfold fk_stage. rewrite Hsplit, Heq, stage_loop_cons.
    destruct (snd (stage_loop (fk_entry table registry) pre (r2, []))) as [r' warns].
    assert (Hown : fst (fk_entry table registry (r', warns) (field, fc)) = Returned tt).
    { apply fk_entry_returns. cbn [snd]. unfold registry_get. rewrite Hmap. discriminate. }
    rewrite Hown. reflexivity. }
  assert (Hpre_w : forall x,
             In x (snd (snd (stage_loop (fk_entry table registry) pre (r2, [])))) ->
             fk_warning table field x = false).
  { intros x Hx. destruct (fk_warning table field x) eqn:Hw; [|reflexivity].
    exfalso. apply (fk_loop_foreign_warnings table registry pre field (r2, []) x Hpre Hx Hw). }
  destruct (snd (stage_loop (fk_entry table registry) pre (r2, []))) as [r' warns] eqn:Hfold.
  cbn [fst snd] in *.
  assert (Hentry : fk_entry table registry (r', warns) (field, fc)
                   = (Returned tt, (obj_set field (VNum id) r', warns))).
  { rewrite (fk_entry_own table registry _ _ _ _ _ Hmap).
    assert (Hpr : prop r' field = oldVal) by (unfold prop; rewrite Hturn; reflexivity).
    assert (Hh : obj_has r' field = true) by (apply obj_has_true; eauto).
    rewrite Hh, Hpr, Hnn. cbn [negb].
    destruct oldVal; try discriminate; rewrite Hid; reflexivity. }
  rewrite Hentry in Hstage. cbn [snd] in Hstage.
  split.
  - apply (transform_row_keeps table options registry raw field (VNum id) Hp Hraw);
      [|reflexivity].
    unfold after_fk. fold r2. rewrite Hstage.
    rewrite (fk_loop_other table registry post _ field Hpost). cbn [fst].
    apply obj_get_set_eq.
  - intros x Hx. rewrite Hstage in Hx.
    destruct (fk_warning table field x) eqn:Hw; [|reflexivity].
    apply (fk_loop_foreign_warnings table registry post field _ x Hpost) in Hx; [|exact Hw].
    cbn [snd] in Hx. rewrite (Hpre_w x Hx) in Hw. discriminate.
Qed.

(** X4.  The defensive array branch: a foreign-key field that holds an
    array becomes the id of the first element, in order, that is not null
    and is registered in the map of the foreign collection, or [null] when
    there is none; a warning counts the elements that found nothing. *)
Theorem fk_array_takes_first_resolved table registry r warns field fc ids fkMap :
  obj_get r field = Some (VArr ids) ->
  obj_get registry fc = Some fkMap ->
  exists new warns',
    fk_entry table registry (r, warns) (field, fc)
    = (Returned tt, (obj_set field new r, warns'))
    /\ match map_fk_array fkMap ids with
       | first :: _ =>
           new = VNum first
           /\ exists pre id post,
                ids = pre ++ id :: post
                /\ Forall (fun x => fk_element_resolves fkMap x = false) pre
                /\ nullish id = false /\ fkMap !! String_ id = Some first
       | [] => new = VNull /\ Forall (fun x => fk_element_resolves fkMap x = false) ids
       end
    /\ warns' = (if bool_decide (length (map_fk_array fkMap ids) = length ids) then warns
                 else warns ++ [WarnLostFks table field
                                  (length ids - length (map_fk_array fkMap ids))]).
Proof.
  intros Hget Hmap. rewrite (fk_entry_own table registry _ _ _ _ _ Hmap).
  assert (Hp : prop r field = VArr ids) by (unfold prop; rewrite Hget; reflexivity).
  assert (Hh : obj_has r field = true) by (apply obj_has_true; eauto).
  rewrite Hh, Hp. cbn [negb nullish].
  eexists. eexists. split; [reflexivity|]. split; [|reflexivity].
  pose proof (map_fk_array_first fkMap ids) as Hfirst.
  destruct (map_fk_array fkMap ids); auto.
Qed.

(** ** Renaming *)

Section RenameFacts.

Implicit Types (c : jsobj value * prototype).

Lemma assign_other newName v c k :
  newName <> k -> obj_get (fst (assign newName v c)) k = obj_get (fst c) k.
Proof.
  destruct c as [r proto]. unfold assign. cbn [fst]. intros Hne.
  destruct (bool_decide _ && _ && _); [destruct v; reflexivity|].
  apply obj_get_set_ne, Hne.
Qed.

(** an assignment to another name than [__proto__] makes or updates the
    property *)
Lemma assign_plain newName v c :
  newName <> "__proto__" -> assign newName v c = (obj_set newName v (fst c), snd c).
Proof.
  destruct c as [r proto]. unfold assign. intros Hne.
  rewrite bool_decide_eq_false_2 by exact Hne. reflexivity.
Qed.

(** so does an assignment to a property the copy has *)
Lemma assign_own newName v c :
  obj_has (fst c) newName = true -> assign newName v c = (obj_set newName v (fst c), snd c).
Proof.
  destruct c as [r proto]. unfold assign. cbn [fst]. intros Hh. rewrite Hh.
  rewrite andb_false_r. reflexivity.
Qed.

Lemma assign_keys_sub newName v c k :
  k ∈ keys (fst (assign newName v c)) -> k ∈ keys (fst c) \/ k = newName.
Proof.
  destruct c as [r proto]. unfold assign. cbn [fst].
  destruct (bool_decide _ && _ && _); [destruct v; auto|]. cbn [fst].
  intros Hk. destruct (decide (k = newName)) as [->|Hne]; [auto|left].
  apply dec_stable. intros Hnot. apply obj_get_None_keys in Hnot.
  apply obj_get_None_keys in Hk; [exact Hk|].
  rewrite obj_get_set_ne by congruence. exact Hnot.
Qed.

Lemma rename_entry_other c e k :
  fst e <> k -> snd e <> k -> obj_get (fst (rename_entry c e)) k = obj_get (fst c) k.
Proof.
  destruct e as [oldName newName]. cbn [fst snd]. intros Ho Hn. unfold rename_entry.
  destruct (obj_has (fst c) oldName); [|reflexivity]. cbn [fst].
  rewrite obj_get_delete_ne by exact Ho. apply assign_other, Hn.
Qed.

Lemma rename_fold_other rn : forall c k,
  k ∉ keys rn -> k ∉ targets rn ->
  obj_get (fst (foldl rename_entry c rn)) k = obj_get (fst c) k.
Proof.
  induction rn as [|e rn IH]; intros c k Hk Ht; simpl; [reflexivity|].
  unfold targets in *. simpl in Hk, Ht.
  apply not_elem_of_cons in Hk as [Hk1 Hk2]. apply not_elem_of_cons in Ht as [Ht1 Ht2].
  rewrite IH by assumption. apply rename_entry_other; congruence.
Qed.

Lemma rename_entry_keys_sub c e k :
  k ∈ keys (fst (rename_entry c e)) -> k ∈ keys (fst c) \/ k = snd e.
Proof.
  destruct e as [oldName newName]. cbn [snd]. unfold rename_entry.
  destruct (obj_has (fst c) oldName); [|auto]. cbn [fst].
  intros Hk. apply keys_filter_sub in Hk. apply assign_keys_sub in Hk. exact Hk.
Qed.

Lemma rename_fold_keys_sub rn : forall c k,
  k ∈ keys (fst (foldl rename_entry c rn)) -> k ∈ keys (fst c) \/ k ∈ targets rn.
Proof.
  induction rn as [|e rn IH]; intros c k Hk; simpl in *; [auto|].
  unfold targets in *. simpl.
  apply IH in Hk as [Hk|Hk]; [|right; right; exact Hk].
  apply rename_entry_keys_sub in Hk as [Hk| ->]; [auto | right; left].
Qed.

(** the entries of [rename] around one of them name neither its old nor
    its new name *)
Lemma rename_split rn oldName newName :
  NoDup (keys rn) -> In (oldName, newName) rn ->
  (forall old', In (old', newName) rn -> old' = oldName) ->
  exists pre post,
    rn = pre ++ (oldName, newName) :: post
    /\ (oldName ∉ keys pre) /\ (oldName ∉ keys post)
    /\ (newName ∉ targets pre) /\ (newName ∉ targets post).
Proof.
  intros Hnd Hin Honly.
  destruct (in_split _ _ Hin) as (pre & post & Hsplit).
  destruct (NoDup_keys_split _ _ _ _ _ Hnd Hsplit) as [Hpre Hpost].
  exists pre, post. split; [exact Hsplit|]. split; [exact Hpre|]. split; [exact Hpost|].
  assert (Hside : forall part, (forall e, In e part -> In e rn) -> oldName ∉ keys part ->
                               newName ∉ targets part).
  { intros part Hsub Hk Ht. apply Hk. unfold targets in Ht.
    apply list_elem_of_In, in_map_iff in Ht as ([old' new'] & Heq & Hin').
    cbn [snd] in Heq. subst new'.
    rewrite <- (Honly old' (Hsub _ Hin')).
    apply list_elem_of_In. apply (in_map fst) in Hin'. exact Hin'. }
  split; apply Hside; try assumption; intros e He; rewrite Hsplit; apply in_or_app.
  - left. exact He.
  - right. right. exact He.
Qed.

End RenameFacts.

(** X5.  Renaming moves a field: when [rename] has the entry
    [oldName: newName] for two different names, [newName] is not
    [__proto__], no entry renames to [oldName], and [newName] is neither
    renamed itself nor the new name of another entry, a record with the
    field [oldName] ends up with its value under [newName] and without
    [oldName]. *)
Theorem rename_moves_field rn raw oldName newName v :
  NoDup (keys rn) -> In (oldName, newName) rn -> oldName <> newName ->
  newName <> "__proto__" ->
  oldName ∉ targets rn -> newName ∉ keys rn ->
  (forall old', In (old', newName) rn -> old' = oldName) ->
  obj_get raw oldName = Some v ->
  obj_get (fst (rename_stage rn raw)) newName = Some v
  /\ obj_get (fst (rename_stage rn raw)) oldName = None.
Proof.
  intros Hnd Hin Hne Hplain Hto Hnk Honly Hget.
  destruct (rename_split rn oldName newName Hnd Hin Honly)
    as (pre & post & Hsplit & Hpre & Hpost & Htpre & Htpost).
  assert (Hto' : (oldName ∉ targets pre) /\ (oldName ∉ targets post)).
  { unfold targets in *. rewrite Hsplit, map_app in Hto. simpl in Hto.
    apply not_elem_of_app in Hto as [H1 H2]. apply not_elem_of_cons in H2 as [_ H2]. auto. }
  assert (Hnk' : (newName ∉ keys pre) /\ (newName ∉ keys post)).
  { unfold keys in *. rewrite Hsplit, map_app in Hnk. simpl in Hnk.
    apply not_elem_of_app in Hnk as [H1 H2]. apply not_elem_of_cons in H2 as [_ H2]. auto. }
  destruct Hto' as [Hto1 Hto2], Hnk' as [Hnk1 Hnk2].
  unfold rename_stage. cbn [fst]. rewrite Hsplit, foldl_app. cbn [foldl].
  set (c1 := foldl rename_entry (raw, ObjectPrototype) pre).
  assert (Hr1 : obj_get (fst c1) oldName = Some v).
  { unfold c1. rewrite rename_fold_other by assumption. exact Hget. }
  assert (Hhas : obj_has (fst c1) oldName = true) by (apply obj_has_true; eauto).
  rewrite !rename_fold_other by assumption.
  unfold rename_entry. rewrite Hhas. cbn [fst].
  rewrite (assign_plain _ _ _ Hplain). cbn [fst].
  unfold prop. rewrite Hr1. split.
  - rewrite obj_get_delete_ne by exact Hne. apply obj_get_set_eq.
  - apply obj_get_delete_eq.
Qed.

(** X6.  An entry of [rename] that gives a field its own name deletes the
    field: the value is assigned to the same property, which is then
    deleted (no other entry renames to that name). *)
Theorem rename_to_same_name_deletes rn raw name :
  NoDup (keys rn) -> In (name, name) rn ->
  (forall old', In (old', name) rn -> old' = name) ->
  obj_get (fst (rename_stage rn raw)) name = None.
Proof.
  intros Hnd Hin Honly.
  destruct (rename_split rn name name Hnd Hin Honly)
    as (pre & post & Hsplit & Hpre & Hpost & Htpre & Htpost).
  unfold rename_stage. cbn [fst]. rewrite Hsplit, foldl_app. cbn [foldl].
  rewrite rename_fold_other by assumption.
  unfold rename_entry.
  destruct (obj_has _ name) eqn:Hhas.
  - cbn [fst]. apply obj_get_delete_eq.
  - apply obj_has_false, Hhas.
Qed.

(** ** Elision, exactly *)

Section ElisionExact.
Variable table : string.
Variable lk : jsobj link_cfg.

Lemma elide_fold_warnings es : forall r warns,
  snd (foldl (elide_entry table lk) (r, warns) es) = warns ++ dropped_warnings table lk es.
Proof.
  unfold dropped_warnings.
  induction es as [|[key val] es IH]; intros r warns; simpl.
  - rewrite app_nil_r. reflexivity.
  - destruct (isArray val && negb (links_has lk key)); simpl.
    + rewrite IH, <- app_assoc. reflexivity.
    + apply IH.
Qed.

Lemma dropped_own r e :
  NoDup (keys r) -> In e r ->
  dropped lk r (fst e) = isArray (snd e) && negb (links_has lk (fst e)).
Proof.
  intros Hnd Hin. destruct e as [key val]. cbn [fst snd].
  destruct (isArray val && negb (links_has lk key)) eqn:Hc.
  - apply andb_prop in Hc as [Ha Hl]. apply negb_true_iff in Hl.
    apply (dropped_intro lk r key val Hin Ha Hl).
  - destruct (dropped lk r key) eqn:Hd; [|reflexivity].
    apply dropped_elim in Hd as (val' & Hin' & Ha & Hl).
    apply (In_obj_get _ _ _ Hnd) in Hin. apply (In_obj_get _ _ _ Hnd) in Hin'.
    assert (val' = val) by congruence. subst val'. rewrite Ha, Hl in Hc. discriminate.
Qed.

Lemma filter_ext_In {A} (f g : A -> bool) (l : list A) :
  (forall x, In x l -> f x = g x) -> List.filter f l = List.filter g l.
Proof.
  induction l as [|x l IH]; intros H; simpl; [reflexivity|].
  rewrite (H x (or_introl eq_refl)), IH; [reflexivity|].
  intros y Hy. apply H. right. exact Hy.
Qed.

(** X7.  Array elision, exactly: the prepared object is the object the
    stage is given without the array-valued fields for which [links[key]]
    is undefined (fields that are neither keys of [links] nor named like a
    member of [Object.prototype]), the other fields in their order; and the
    stage warns once for each field it drops, in the order of the fields. *)
Theorem elide_stage_exact r :
  NoDup (keys r) ->
  fst (elide_stage table lk r)
  = List.filter (fun e => negb (isArray (snd e) && negb (links_has lk (fst e)))) r
  /\ snd (elide_stage table lk r) = dropped_warnings table lk r.
Proof.
  intros Hnd. unfold elide_stage. split.
  - rewrite elide_fold_object. apply filter_ext_In.
    intros e He. rewrite (dropped_own r e Hnd He). reflexivity.
  - apply elide_fold_warnings.
Qed.

End ElisionExact.

(** X8.  The pipeline invents no field: every field of a prepared row is a
    field of the record it was made from or a new name of [rename]. *)
Theorem prepared_fields_come_from_record table options registry raw k :
  k ∈ keys (fst (transform_row table options registry raw)) ->
  k ∈ keys raw \/ k ∈ targets (rename options).
Proof.
  intros Hk.
  assert (Hfk : k ∈ keys (fst (snd (fk_stage table registry (foreignKeys options)
                                      (after_redefine table options raw)))) ->
                k ∈ keys raw \/ k ∈ targets (rename options)).
  { unfold fk_stage. rewrite fk_loop_keys. cbn [fst].
    unfold after_redefine, redefine_stage. rewrite redefine_loop_keys. cbn [fst].
    unfold after_rename, rename_stage. cbn [fst].
    intros H. apply rename_fold_keys_sub in H. exact H. }
  unfold transform_row in Hk. cbn zeta in Hk.
  change (fst (rename_stage (rename options) raw)) with (after_rename options raw) in Hk.
  change (fst (snd (redefine_stage table (redefine options) (after_rename options raw))))
    with (after_redefine table options raw) in Hk.
  destruct (fst (redefine_stage table (redefine options) (after_rename options raw))).
  - destruct (fst (fk_stage table registry (foreignKeys options)
                     (after_redefine table options raw))); cbn [fst] in Hk.
    + unfold elide_stage in Hk. rewrite elide_fold_object in Hk.
      apply keys_filter_sub in Hk. apply Hfk, Hk.
    + apply Hfk, Hk.
  - cbn [fst] in Hk. apply Hfk. unfold fk_stage. rewrite fk_loop_keys. exact Hk.
Qed.

(** ** The call as a whole *)

Section CallRun.
Variable table : string.
Variable rows : list loc.
Variable options : PutOptions.
Variable self : string.

Lemma schema_kept_refl w : schema_kept w w.
Proof. intros tbl. reflexivity. Qed.

Lemma schema_kept_trans w1 w2 w3 : schema_kept w1 w2 -> schema_kept w2 w3 -> schema_kept w1 w3.
Proof. intros H1 H2 tbl. rewrite H2. apply H1. Qed.

Lemma pg_insert_schema d sq tbl batch d' inserted sq' :
  pg_insert d sq tbl batch = (Returned (d', inserted), sq') ->
  forall tbl', flags <$> (d' !! tbl') = flags <$> (d !! tbl').
Proof.
  intros Hins tbl'.
  destruct (pg_insert_Returned _ _ _ _ _ _ _ Hins) as (t & Ht & -> & _).
  destruct (decide (tbl = tbl')) as [<-|Hne].
  - rewrite lookup_insert_eq, Ht. reflexivity.
  - rewrite lookup_insert_ne by exact Hne. reflexivity.
Qed.

(** the upsert writes to the primary table only, and adds rows to it *)
Lemma upsert_store prepared w :
  rows_kept w (snd (upsert table self prepared w))
  /\ schema_kept w (snd (upsert table self prepared w))
  /\ forall tbl, tbl <> table -> table_untouched tbl w (snd (upsert table self prepared w)).
Proof.
  rewrite upsert_eq.
  assert (Hsame : forall (o : outcome unit) w',
             db w' = db w ->
             rows_kept w (snd (o, w')) /\ schema_kept w (snd (o, w'))
             /\ forall tbl, tbl <> table -> table_untouched tbl w (snd (o, w'))).
  { intros o w' Hdb. cbn [snd]. split; [|split].
    - intros tbl x H. rewrite Hdb. exact H.
    - intros tbl. rewrite Hdb. reflexivity.
    - intros tbl _. unfold table_untouched. rewrite Hdb. reflexivity. }
  destruct (trx_select_frame w table (List.filter truthy (map (mongo_id_of w) prepared)))
    as (_ & _ & _ & Hdb0 & _).
  destruct (trx_select w table _) as [[existing|msg] w0]; [|apply Hsame, Hdb0].
  cbn zeta. destruct (sets_outcome _ _ (skip_pairs _ _ _)); [|apply Hsame; reflexivity].
  destruct (toInsert_of _ _ _) as [|r0 rest]; [apply Hsame; reflexivity|].
  destruct (pg_insert _ _ _ _) as [[[d inserted]|msg] sq] eqn:Hins;
    [|apply Hsame; reflexivity].
  assert (Hd : forall (o : outcome unit) w',
             db w' = d ->
             rows_kept w (snd (o, w')) /\ schema_kept w (snd (o, w'))
             /\ forall tbl, tbl <> table -> table_untouched tbl w (snd (o, w'))).
  { intros o w' Hdb. cbn [snd]. split; [|split].
    - intros tbl x H. rewrite Hdb. eapply pg_insert_monotone; [exact Hins | exact H].
    - intros tbl. rewrite Hdb. apply (pg_insert_schema _ _ _ _ _ _ _ Hins).
    - intros tbl Hne. unfold table_untouched. rewrite Hdb.
      apply (pg_insert_other _ _ _ _ _ _ _ tbl Hins). congruence. }
  destruct (sets_outcome _ _ _); apply Hd; reflexivity.
Qed.

(** one field of [links] writes to its link table only *)
Lemma link_field_tables u w e :
  schema_kept w (snd (link_field table self rows u w e))
  /\ forall tbl, linkTable (snd e) <> tbl ->
       table_untouched tbl w (snd (link_field table self rows u w e)).
Proof.
  unfold link_field. destruct e as [arrayField cfg]. cbn [snd].
  pose proof (gather_linkRows_pure self arrayField cfg rows w) as (_ & _ & Hdb).
  destruct (gather_linkRows _ _ _ _ _) as [[[|l ls]|msg] w1]; cbn [snd] in *.
  - split; [intros tbl | intros tbl _; unfold table_untouched]; rewrite Hdb; reflexivity.
  - destruct (trx_insert w1 (linkTable cfg) (l :: ls)) as [[inserted|msg] w2] eqn:Hins.
    + apply trx_insert_Returned in Hins as (_ & d & sq & Hins & ->).
      split.
      * intros tbl. cbn [db emit with_db with_serials].
        rewrite (pg_insert_schema _ _ _ _ _ _ _ Hins), Hdb. reflexivity.
      * intros tbl Hne. unfold table_untouched. cbn [db emit with_db with_serials].
        rewrite (pg_insert_other _ _ _ _ _ _ _ tbl Hins Hne), Hdb. reflexivity.
    + apply trx_insert_Thrown in Hins as (Hdb2 & _).
      split; [intros tbl | intros tbl _; unfold table_untouched];
        cbn [db emit]; rewrite Hdb2, Hdb; reflexivity.
  - split; [intros tbl | intros tbl _; unfold table_untouched]; rewrite Hdb; reflexivity.
Qed.

Lemma link_phase_schema lk w :
  schema_kept w (snd (for_each (link_field table self rows) lk tt w)).
Proof.
  apply (for_each_preserves schema_kept schema_kept_refl schema_kept_trans).
  intros. apply link_field_tables.
Qed.

Lemma link_phase_other_tables lk w tbl :
  (forall cfg, In cfg (map snd lk) -> linkTable cfg <> tbl) ->
  table_untouched tbl w (snd (for_each (link_field table self rows) lk tt w)).
Proof.
  intros Hlk.
  apply (for_each_preserves_In (table_untouched tbl)
           (table_untouched_refl tbl) (table_untouched_trans tbl)).
  intros s w' e He. apply link_field_tables. apply Hlk. apply in_map, He.
Qed.

(** what the schema safeguard does to the schema: the table of the
    collection gets the unique column when it lacks it and its schema may
    be changed *)
Lemma ensure_column_flags w tbl :
  aborted w = false ->
  flags <$> (db (ensure_mongo_id_column table w) !! tbl)
  = match db w !! tbl with
    | Some t =>
        Some (if bool_decide (tbl = table) && negb (t_mongo_id t) && t_alter t
              then (true, true)
              else flags t)
    | None => None
    end.
Proof.
  intros Hab. unfold ensure_mongo_id_column. rewrite Hab.
  destruct (db w !! table) as [t|] eqn:Ht.
  - destruct (t_mongo_id t) eqn:Hcol; [|destruct (t_alter t) eqn:Halt].
    + destruct (db w !! tbl) as [t'|] eqn:Ht'; [|reflexivity]. cbn [fmap option_fmap option_map].
      destruct (bool_decide (tbl = table)) eqn:Hb; [|reflexivity].
      apply bool_decide_eq_true in Hb. subst tbl.
      assert (t' = t) by congruence. subst t'. rewrite Hcol. reflexivity.
    + cbn [db emit with_db]. destruct (decide (tbl = table)) as [->|Hne].
      * rewrite lookup_insert_eq, Ht, Hcol, Halt, bool_decide_eq_true_2 by reflexivity.
        reflexivity.
      * rewrite lookup_insert_ne by congruence.
        rewrite bool_decide_eq_false_2 by exact Hne. reflexivity.
    + cbn [db emit with_aborted].
      destruct (db w !! tbl) as [t'|] eqn:Ht'; [|reflexivity]. cbn [fmap option_fmap option_map].
      destruct (bool_decide (tbl = table)) eqn:Hb; [|reflexivity].
      apply bool_decide_eq_true in Hb. subst tbl.
      assert (t' = t) by congruence. subst t'. rewrite Halt, andb_false_r. reflexivity.
  - cbn [db emit with_aborted]. destruct (db w !! tbl) as [t'|] eqn:Ht'; [|reflexivity].
    rewrite bool_decide_eq_false_2 by congruence. reflexivity.
Qed.

Lemma ensure_column_other w tbl :
  tbl <> table -> db (ensure_mongo_id_column table w) !! tbl = db w !! tbl.
Proof.
  intros Hne. unfold ensure_mongo_id_column. destruct (aborted w); [reflexivity|].
  destruct (db w !! table) as [t|]; [|reflexivity].
  destruct (t_mongo_id t); [reflexivity|]. destruct (t_alter t); [|reflexivity].
  cbn [db emit with_db]. apply lookup_insert_ne. congruence.
Qed.

Lemma ensure_column_logged w t :
  aborted w = false ->
  db w !! table = Some t -> t_mongo_id t = false -> t_alter t = true ->
  In (LogAddedColumn table) (console (ensure_mongo_id_column table w)).
Proof.
  intros Hab Ht Hcol Halt. unfold ensure_mongo_id_column. rewrite Hab, Ht, Hcol, Halt.
  cbn [console emit]. apply in_or_app. right. left. reflexivity.
Qed.

Lemma prepared_of_console w :
  console (checked table self w)
    `prefix_of` console (fst (prepared_of table rows options self w)).
Proof.
  unfold prepared_of. fold (checked table self w). rewrite map_rows_spec. cbn [fst console].
  apply prefix_app_r. reflexivity.
Qed.

(** what the console holds when the preparation starts is still there when
    the call is done *)
Lemma call_console w :
  rows <> [] ->
  console (checked table self w)
    `prefix_of` console (snd (putToPostgres table rows options self w)).
Proof.
  intros Hne. destruct rows as [|row0 rest] eqn:Hrows; [contradiction|]. rewrite <- Hrows in *.
  etransitivity; [apply prepared_of_console|].
  apply (putToPostgres_console table rows options self w row0 rest Hrows).
Qed.

(** the registry when the call is done: the sets of the upsert on top of
    the registry with the map of the collection *)
Lemma call_registry w :
  rows <> [] ->
  exists skipped more,
    idsRegistry (snd (putToPostgres table rows options self w))
    = set_all self more (set_all self skipped (idsRegistry (ensure_self_map self w))).
Proof.
  intros Hne. destruct rows as [|row0 rest] eqn:Hrows; [contradiction|]. rewrite <- Hrows in *.
  rewrite (putToPostgres_registry table rows options self row0 rest w Hrows).
  rewrite unit_result_registry.
  destruct (prepared_throws _ _ _ _ _); [exists [], []; reflexivity|].
  destruct (upsert_registry table self (snd (prepared_of table rows options self w))
              (fst (prepared_of table rows options self w))) as (skipped & more & Hreg).
  destruct (prepared_of_world table rows options self w) as (_ & _ & Hr & _).
  rewrite Hr in Hreg. exists skipped, more. exact Hreg.
Qed.

(** the store a call leaves: the one it found, when it throws or its
    transaction is aborted, and the one its transaction made otherwise *)
Lemma call_store w :
  rows <> [] ->
  db (snd (putToPostgres table rows options self w))
  = if is_thrown (fst (unit_result table rows options self w))
       || aborted (snd (unit_result table rows options self w))
    then db w
    else db (snd (unit_result table rows options self w)).
Proof.
  intros Hne. destruct rows as [|row0 rest] eqn:Hrows; [contradiction|]. rewrite <- Hrows in *.
  rewrite (putToPostgres_eq table rows options self row0 rest w Hrows). cbn [snd].
  destruct (_ || _); reflexivity.
Qed.

(** what the transaction of a call does to the store, whatever it comes to *)
Lemma unit_result_store w :
  let w' := snd (unit_result table rows options self w) in
  rows_kept w w'
  /\ (forall tbl,
        tbl <> table ->
        (forall cfg, In cfg (map snd (links options)) -> linkTable cfg <> tbl) ->
        db w' !! tbl = db w !! tbl)
  /\ (forall tbl,
        flags <$> (db w' !! tbl) = flags <$> (db (checked table self w) !! tbl)).
Proof.
  cbn zeta. rewrite unit_result_eq.
  destruct (prepared_of_world table rows options self w) as (_ & Hd & _).
  assert (Hchecked : rows_kept w (fst (prepared_of table rows options self w))
                     /\ (forall tbl, tbl <> table ->
                           db (fst (prepared_of table rows options self w)) !! tbl
                           = db w !! tbl)).
  { split.
    - intros tbl x Hx. rewrite Hd. unfold checked. rewrite ensure_column_rows.
      unfold rows_of. cbn [db with_aborted]. rewrite ensure_self_map_db. exact Hx.
    - intros tbl Hne'. rewrite Hd. unfold checked.
      rewrite ensure_column_other by exact Hne'. cbn [db with_aborted].
      rewrite ensure_self_map_db. reflexivity. }
  destruct Hchecked as [Hck Hco].
  destruct (prepared_throws _ _ _ _ _); cbn [snd].
  { split; [exact Hck|]. split; [intros tbl Hne' _; apply Hco, Hne'|].
    intros tbl. rewrite Hd. reflexivity. }
  pose proof (upsert_store (snd (prepared_of table rows options self w))
                (fst (prepared_of table rows options self w))) as (Hrk & Hsch & Hun).
  destruct (upsert _ _ _ _) as [[[]|msg] w2]; cbn [snd] in *.
  - pose proof (link_phase_rows_kept table self rows (links options) w2) as Hlk.
    pose proof (link_phase_other_tables (links options) w2) as Hlo.
    pose proof (link_phase_schema (links options) w2) as Hls.
    split; [|split].
    + intros tbl x Hx. apply Hlk, Hrk, Hck, Hx.
    + intros tbl Hne' Hcfg. rewrite (Hlo tbl Hcfg), (Hun tbl Hne'). apply Hco, Hne'.
    + intros tbl. rewrite Hls, Hsch, Hd. reflexivity.
  - split; [|split].
    + intros tbl x Hx. apply Hrk, Hck, Hx.
    + intros tbl Hne' _. rewrite (Hun tbl Hne'). apply Hco, Hne'.
    + intros tbl. rewrite Hsch, Hd. reflexivity.
Qed.

End CallRun.

(** X9.  Whatever the call does, and however it ends, the registry keeps
    its collections in their order, the maps of the other collections are
    as they were, and every identifier the map of the collection could
    translate can still be translated; with no records, the registry is not
    touched at all. *)
Theorem registry_frame table rows options self w :
  (rows = [] -> idsRegistry (snd (putToPostgres table rows options self w)) = idsRegistry w)
  /\ (rows <> [] ->
      keys (idsRegistry (snd (putToPostgres table rows options self w)))
      = keys (idsRegistry (ensure_self_map self w)))
  /\ (forall c, c <> self ->
        obj_get (idsRegistry (snd (putToPostgres table rows options self w))) c
        = obj_get (idsRegistry w) c)
  /\ (forall k, is_Some (resolve (idsRegistry w) self k) ->
        is_Some (resolve (idsRegistry (snd (putToPostgres table rows options self w))) self k)).
Proof.
  destruct rows as [|row0 rest] eqn:Hrows.
  { split; [reflexivity|]. split; [contradiction|]. split; [reflexivity | auto]. }
  rewrite <- Hrows.
  assert (Hne : rows <> []) by (rewrite Hrows; discriminate).
  destruct (call_registry table rows options self w Hne) as (skipped & more & ->).
  split; [intros Habs; rewrite Habs in Hrows; discriminate|].
  split; [intros _; rewrite !set_all_keys; reflexivity|].
  split.
  - intros c Hc. rewrite !set_all_other by exact Hc. apply ensure_self_map_other, Hc.
  - intros k Hk.
    assert (Hhas : obj_has (idsRegistry (ensure_self_map self w)) self = true).
    { rewrite ensure_self_map_own; destruct Hk as [id Hid]; unfold resolve in Hid;
        unfold obj_has; destruct (obj_get (idsRegistry w) self);
        try reflexivity; discriminate. }
    apply set_all_is_Some; [rewrite set_all_has; exact Hhas | left].
    apply set_all_is_Some; [exact Hhas | left].
    rewrite ensure_self_map_resolve by exact Hk. exact Hk.
Qed.

(** X10.  A table that is not there: the schema check is caught and
    logged, which aborts the transaction; the rows are still prepared, and
    the select throws (unless preparing a row has thrown before); the call
    throws, the store is as it was, and the registry has gained at most the
    empty map of the collection. *)
Theorem missing_table_aborts table rows options self w :
  rows <> [] -> db w !! table = None ->
  is_thrown (fst (putToPostgres table rows options self w)) = true
  /\ db (snd (putToPostgres table rows options self w)) = db w
  /\ idsRegistry (snd (putToPostgres table rows options self w))
     = idsRegistry (ensure_self_map self w)
  /\ (exists msg, In (LogSchemaCheck table msg)
                     (console (snd (putToPostgres table rows options self w))))
  /\ (prepared_throws table options (idsRegistry (ensure_self_map self w)) (heap w) rows
      = None ->
      length (heap (snd (putToPostgres table rows options self w)))
      = length (heap w) + length rows).
Proof.
  intros Hne Hnone.
  assert (Hlog : exists msg, In (LogSchemaCheck table msg)
                   (console (snd (putToPostgres table rows options self w)))).
  { exists "relation does not exist".
    pose proof (call_console table rows options self w Hne) as [more ->].
    apply in_or_app. left. unfold checked, ensure_mongo_id_column.
    cbn [aborted db with_aborted]. rewrite ensure_self_map_db, Hnone. cbn [console emit].
    apply in_or_app. right. left. reflexivity. }
  destruct rows as [|row0 rest] eqn:Hrows; [contradiction|]. rewrite <- Hrows in *.
  assert (Hreg := putToPostgres_registry table rows options self row0 rest w Hrows).
  revert Hlog Hreg. rewrite (putToPostgres_eq table rows options self row0 rest w Hrows).
  intros Hlog Hreg.
  destruct (prepared_of_world table rows options self w) as (Hh & Hd & Hr & _ & Hab & Hp).
  assert (Haborted : aborted (fst (prepared_of table rows options self w)) = true).
  { rewrite Hab. unfold checked, ensure_mongo_id_column.
    cbn [aborted db with_aborted]. rewrite ensure_self_map_db, Hnone. reflexivity. }
  assert (Hunit : exists msg, unit_result table rows options self w
                  = (Thrown msg, fst (prepared_of table rows options self w))).
  { rewrite unit_result_eq. destruct (prepared_throws _ _ _ _ _) as [msg|]; [exists msg; reflexivity|].
    exists aborted_msg. rewrite upsert_eq. unfold trx_select. rewrite Haborted. reflexivity. }
  destruct Hunit as [msg Hunit].
  rewrite Hunit in *. cbn [fst snd is_thrown orb db with_db with_aborted heap] in *.
  split; [reflexivity|]. split; [reflexivity|]. split; [rewrite Hreg; exact Hr|].
  split; [exact Hlog|].
  intros Hno. rewrite Hh, length_app, (prepared_objects_length _ _ _ _ _ Hno). reflexivity.
Qed.


(** X12.  The store only gains rows: whatever the call does, every row a
    table held is still there, and a table that is neither the table of the
    collection nor a link table of [links] is exactly as it was. *)
Theorem store_only_gains_rows table rows options self w :
  (forall tbl x,
      In x (rows_of (db w) tbl) ->
      In x (rows_of (db (snd (putToPostgres table rows options self w))) tbl))
  /\ (forall tbl,
        tbl <> table ->
        (forall cfg, In cfg (map snd (links options)) -> linkTable cfg <> tbl) ->
        db (snd (putToPostgres table rows options self w)) !! tbl = db w !! tbl).
Proof.
  destruct rows as [|row0 rest] eqn:Hrows; [split; intros; [assumption | reflexivity]|].
  rewrite <- Hrows.
  assert (Hne : rows <> []) by (rewrite Hrows; discriminate).
  rewrite (call_store table rows options self w Hne).
  destruct (unit_result_store table rows options self w) as (Hrk & Hun & _).
  cbn zeta in Hrk, Hun.
  destruct (_ || _); [split; intros; [assumption | reflexivity]|].
  split; [exact Hrk | exact Hun].
Qed.

(** ** The link phase *)

Section LoopFacts.
Context {A S : Type}.
Variable body : S -> world -> A -> outcome S * world.

(** a loop whose body does not throw does not throw *)
Lemma for_each_returns xs :
  (forall s w x, In x xs -> is_thrown (fst (body s w x)) = false) ->
  forall s w, is_thrown (fst (for_each body xs s w)) = false.
Proof.
  induction xs as [|x xs IH]; intros Hbody s w; simpl; [reflexivity|].
  pose proof (Hbody s w x (or_introl eq_refl)) as Hx.
  destruct (body s w x) as [[s1|msg] w1]; [|discriminate].
  apply IH. intros. apply Hbody. right. assumption.
Qed.

(** an invariant of the worlds and of the accumulator of a loop *)
Lemma for_each_invariant (R : world -> Prop) (P : S -> Prop) xs :
  (forall s w x, In x xs -> R w -> P s ->
     R (snd (body s w x)) /\ forall s', fst (body s w x) = Returned s' -> P s') ->
  forall s w, R w -> P s ->
  forall s', fst (for_each body xs s w) = Returned s' -> P s'.
Proof.
  induction xs as [|x xs IH]; intros Hstep s w HR HP s' Hret; simpl in Hret.
  - injection Hret as <-. exact HP.
  - destruct (Hstep s w x (or_introl eq_refl) HR HP) as [HR' HP'].
    destruct (body s w x) as [[s1|msg] w1]; cbn [fst snd] in *; [|discriminate].
    apply (IH (fun s0 w0 x0 Hx => Hstep s0 w0 x0 (or_intror Hx)) s1 w1 HR'
              (HP' s1 eq_refl) s' Hret).
Qed.

End LoopFacts.

Section LinkPhase.
Variables table self : string.
Variable rows : list loc.

Lemma link_element_returns cfg selfSqlId raw acc w x :
  (forall f a b o, transform cfg = Some f -> is_thrown (f a b o) = false) ->
  is_thrown (fst (link_element cfg selfSqlId raw acc w x)) = false.
Proof.
  intros Htr. unfold link_element. destruct (no_id _); [reflexivity|].
  destruct (transform cfg) as [f|] eqn:Hf; [|reflexivity].
  specialize (Htr f selfSqlId (default 0%Z (scan_registry (idsRegistry w) (String_ x))) raw
                  eq_refl).
  destruct (f _ _ _); [reflexivity | discriminate].
Qed.

Lemma link_record_returns arrayField cfg acc w row :
  obj_has (idsRegistry w) self = true ->
  (forall f a b o, transform cfg = Some f -> is_thrown (f a b o) = false) ->
  is_thrown (fst (link_record self arrayField cfg acc w row)) = false.
Proof.
  intros Hown Htr. unfold link_record.
  destruct (prop _ arrayField) as [| | | | |[|e es]|]; try reflexivity.
  unfold self_sql_id, registry_get. unfold obj_has in Hown.
  destruct (obj_get (idsRegistry w) self) as [m|]; [|discriminate].
  destruct (no_id _); [reflexivity|].
  apply for_each_returns. intros. apply link_element_returns, Htr.
Qed.

Lemma for_each_returns_in {A S} (body : S -> world -> A -> outcome S * world)
    (R : world -> Prop) xs :
  (forall s w x, In x xs -> R w ->
     R (snd (body s w x)) /\ is_thrown (fst (body s w x)) = false) ->
  forall s w, R w -> is_thrown (fst (for_each body xs s w)) = false.
Proof.
  induction xs as [|x xs IH]; intros Hbody s w HR; simpl; [reflexivity|].
  destruct (Hbody s w x (or_introl eq_refl) HR) as [HR' Hx].
  destruct (body s w x) as [[s1|msg] w1]; [|discriminate].
  apply IH; [|exact HR']. intros. apply Hbody; [right|]; assumption.
Qed.

Lemma link_field_returns u w e :
  obj_has (idsRegistry w) self = true ->
  (forall f a b o, transform (snd e) = Some f -> is_thrown (f a b o) = false) ->
  fst (link_field table self rows u w e) = Returned tt.
Proof.
  intros Hown Htr. destruct e as [arrayField cfg]. cbn [snd] in Htr. unfold link_field.
  assert (Hg : is_thrown (fst (gather_linkRows self arrayField cfg rows w)) = false).
  { apply (for_each_returns_in _ (fun w' => obj_has (idsRegistry w') self = true));
      [|exact Hown].
    intros s w' x _ Hw'. split; [|apply link_record_returns; assumption].
    destruct (link_record_pure self arrayField cfg s w' x) as (_ & Hr & _).
    unfold same_registry in Hr. rewrite Hr. exact Hw'. }
  destruct (gather_linkRows _ _ _ _ _) as [[[|l ls]|msg] w1]; cbn [fst] in *;
    [reflexivity | reflexivity | discriminate].
Qed.

(** the link phase returns when the registry has the map of the collection
    and no [transform] throws: an error of a link insert is caught *)
Lemma link_phase_returns lk w :
  obj_has (idsRegistry w) self = true ->
  transforms_return lk ->
  fst (for_each (link_field table self rows) lk tt w) = Returned tt.
Proof.
  intros Hown Htr.
  assert (H : is_thrown (fst (for_each (link_field table self rows) lk tt w)) = false).
  { apply (for_each_returns_in _ (fun w' => obj_has (idsRegistry w') self = true));
      [|exact Hown].
    intros s w' e He Hw'. split.
    - destruct (link_field_keeps table self rows s w' e) as (_ & Hr).
      unfold same_registry in Hr. rewrite Hr. exact Hw'.
    - rewrite link_field_returns; [reflexivity | exact Hw' |].
      intros f a b o Hf. apply (Htr (snd e) f a b o); [apply in_map, He | exact Hf]. }
  destruct (for_each _ _ _ _) as [[[]|msg] w']; [reflexivity | discriminate].
Qed.

End LinkPhase.

Lemma no_id_false id : no_id id = false -> exists z, id = Some z /\ z <> 0%Z.
Proof.
  destruct id as [z|]; [|discriminate]. simpl. intros Hz.
  exists z. split; [reflexivity|]. apply Z.eqb_neq, Hz.
Qed.

(** X13.  Every link row gathered for a field of [links] pairs two
    registered ids: it comes from an element of the array of one of the
    records, its self id is the non-zero id the registry has for the
    [mongo_id] of that record in the collection, its foreign id is the
    non-zero id of the first registry map that has the element, and its
    other attributes are those of [transform]. *)
Theorem link_rows_pair_registered_ids self arrayField cfg rows w linkRows :
  fst (gather_linkRows self arrayField cfg rows w) = Returned linkRows ->
  Forall (fun linkRow =>
            exists row e selfSqlId foreignSqlId,
              In row rows
              /\ In e (array_elems (prop (object_at w row) arrayField))
              /\ self_sql_id self w (object_at w row) = Returned (Some selfSqlId)
              /\ selfSqlId <> 0%Z
              /\ scan_registry (idsRegistry w) (String_ e) = Some foreignSqlId
              /\ foreignSqlId <> 0%Z
              /\ linkRow = obj_assign (link_base cfg selfSqlId foreignSqlId)
                             (link_extra cfg selfSqlId foreignSqlId (object_at w row)))
         linkRows.
Proof.
  unfold gather_linkRows.
  set (Q := fun linkRow : jsobj value =>
              exists row e selfSqlId foreignSqlId,
                In row rows
                /\ In e (array_elems (prop (object_at w row) arrayField))
                /\ self_sql_id self w (object_at w row) = Returned (Some selfSqlId)
                /\ selfSqlId <> 0%Z
                /\ scan_registry (idsRegistry w) (String_ e) = Some foreignSqlId
                /\ foreignSqlId <> 0%Z
                /\ linkRow = obj_assign (link_base cfg selfSqlId foreignSqlId)
                               (link_extra cfg selfSqlId foreignSqlId (object_at w row))).
  set (R := fun w' : world => heap w' = heap w /\ idsRegistry w' = idsRegistry w).
  apply (for_each_invariant (link_record self arrayField cfg) R (Forall Q) rows);
    [|split; reflexivity | constructor].
  intros acc w1 row Hrow [Hh Hr] Hacc.
  assert (HR1 : R (snd (link_record self arrayField cfg acc w1 row))).
  { destruct (link_record_pure self arrayField cfg acc w1 row) as (Hh' & Hr' & _).
    unfold same_heap, same_registry in *. split; congruence. }
  split; [exact HR1|].
  assert (Hobj : object_at w1 row = object_at w row) by (unfold object_at; rewrite Hh; reflexivity).
  unfold link_record. rewrite Hobj.
  destruct (prop (object_at w row) arrayField) as [| | | | |[|e0 es]|] eqn:Hprop;
    try (intros acc' Hacc'; injection Hacc' as <-; exact Hacc).
  assert (Hself : self_sql_id self w1 (object_at w row) = self_sql_id self w (object_at w row))
    by (unfold self_sql_id; rewrite Hr; reflexivity).
  rewrite Hself.
  destruct (self_sql_id self w (object_at w row)) as [selfSqlId|msg] eqn:Hsql;
    [|intros ? H; discriminate H].
  destruct (no_id selfSqlId) eqn:Hno;
    [intros acc' Hacc'; injection Hacc' as <-; exact Hacc|].
  apply no_id_false in Hno as (sid & -> & Hsid0).
  change (default 0%Z (Some sid)) with sid.
  apply (for_each_invariant (link_element cfg sid (object_at w row)) R (Forall Q) (e0 :: es));
    [|split; assumption | exact Hacc].
  intros acc2 w2 e He [Hh2 Hr2] Hacc2.
  split.
  { destruct (link_element_pure cfg sid (object_at w row) acc2 w2 e) as (Hh' & Hr' & _).
    unfold same_heap, same_registry in *. split; congruence. }
  unfold link_element. rewrite Hr2.
  destruct (no_id (scan_registry (idsRegistry w) (String_ e))) eqn:Hnf;
    [intros acc' Hacc'; injection Hacc' as <-; exact Hacc2|].
  apply no_id_false in Hnf as (fid & Hfid & Hfid0). rewrite Hfid.
  change (default 0%Z (Some fid)) with fid.
  assert (HQ : forall extra,
             extra = link_extra cfg sid fid (object_at w row) ->
             Q (obj_assign (link_base cfg sid fid) extra)).
  { intros extra ->. exists row, e, sid, fid. rewrite Hprop. cbn [array_elems]. auto 10. }
  unfold link_extra in HQ.
  destruct (transform cfg) as [f|].
  - destruct (f sid fid (object_at w row)) as [extra|msg]; [|intros ? H; discriminate H].
    intros acc' Hacc'. injection Hacc' as <-.
    apply Forall_app. split; [exact Hacc2|]. constructor; [|constructor].
    apply HQ. reflexivity.
  - intros acc' Hacc'. injection Hacc' as <-.
    apply Forall_app. split; [exact Hacc2|]. constructor; [|constructor].
    apply (HQ [] eq_refl).
Qed.

(** ** What a committed call leaves *)

(** a returned upsert that had a row with a usable [mongo_id] has set an
    entry of [idsRegistry[self]], which is a [Map] of the registry's own *)
Lemma upsert_Returned_own table self prepared w w' r :
  upsert table self prepared w = (Returned tt, w') ->
  In r prepared -> truthy (mongo_id_of w r) = true ->
  obj_has (idsRegistry w) self = true.
Proof.
  rewrite upsert_eq. intros Hups Hr Htr.
  destruct (trx_select w table _) as [[existing|msg] w0]; [|discriminate].
  cbn zeta in Hups. set (em := make_existingMap existing) in *.
  destruct (existing_has em (mongo_id_of w r)) eqn:Hex.
  - assert (Hskip : In r (toSkip_of em w prepared)) by (apply toSkip_In; auto).
    apply existing_has_string in Hex as (k & id & Hk & Hid).
    assert (Hpair : In (k, id) (skip_pairs em w (toSkip_of em w prepared)))
      by (apply skip_pairs_In; eauto).
    unfold sets_outcome in Hups.
    destruct (set_error (idsRegistry w) self) eqn:Herr; [|apply set_error_None, Herr].
    destruct (skip_pairs em w (toSkip_of em w prepared)); [destruct Hpair | discriminate].
  - assert (Hins : In r (toInsert_of em w prepared)) by (apply toInsert_In; auto).
    destruct (sets_outcome _ _ (skip_pairs _ _ _)); [|discriminate].
    destruct (toInsert_of em w prepared) as [|r0 rest] eqn:Hti; [destruct Hins|].
    destruct (pg_insert _ _ _ _) as [[[d inserted]|msg] sq] eqn:Hpg; [|discriminate].
    apply pg_insert_Returned in Hpg as (t & _ & _ & -> & _).
    unfold sets_outcome in Hups.
    destruct (set_error (idsRegistry w) self) eqn:Herr; [|apply set_error_None, Herr].
    cbn in Hups. discriminate.
Qed.

(** X14.  Insert and look up: when the transaction of the call commits
    (its body returns and no statement had aborted it), the registry
    translates the [mongo_id] of every prepared row (a non-empty string) to
    the id of a row of the table that is stored under that [mongo_id],
    whether the row was inserted by this call or found in the table.  A
    call that returns after a caught error of the store does not commit,
    and nothing is said of it. *)
Theorem committed_ids_translate_to_stored_rows table rows options self w i row m :
  committed table rows options self w ->
  rows !! i = Some row -> row < length (heap w) ->
  prop (fst (transform_row table options (idsRegistry (ensure_self_map self w))
                           (object_at w row))) "mongo_id" = VStr m ->
  m <> "" ->
  fst (putToPostgres table rows options self w) = Returned tt
  /\ exists id cols,
       resolve (idsRegistry (snd (putToPostgres table rows options self w))) self m = Some id
       /\ In (id, cols) (rows_of (db (snd (putToPostgres table rows options self w))) table)
       /\ mongo_text cols = Some m.
Proof.
  intros Hcommitted Hi Hrow Hm Hmne.
  destruct rows as [|row0 rest] eqn:Hrows; [discriminate|]. rewrite <- Hrows in *.
  destruct (committed_store table rows options self w row0 rest Hrows Hcommitted)
    as (Hno & Hret & Hdb & w2 & Hups & Hunit).
  split; [exact Hret|].
  rewrite Hdb, (putToPostgres_registry table rows options self row0 rest w Hrows), Hunit.
  destruct (prepared_row_of table rows options self w i row Hno Hi Hrow) as [Hin Hobj].
  set (p := prepared_of table rows options self w) in *.
  assert (Hmid : mongo_id_of (fst p) (length (heap w) + i) = VStr m)
    by (unfold mongo_id_of; rewrite Hobj; exact Hm).
  assert (Hown : obj_has (idsRegistry (fst p)) self = true).
  { apply (upsert_Returned_own table self (snd p) (fst p) w2 _ Hups Hin).
    rewrite Hmid. apply truthy_string, Hmne. }
  destruct (upsert_records table self (snd p) (fst p) w2 Hown Hups _ m Hin Hmid Hmne)
    as (id & cols & Hres & Hstored & Htext).
  exists id, cols.
  pose proof (link_phase_keeps table self rows (links options) w2) as [_ Hk].
  unfold same_registry in Hk. rewrite Hk.
  split; [exact Hres|]. split; [|exact Htext].
  apply (link_phase_rows_kept table self rows (links options) w2), Hstored.
Qed.

(** ** When the call returns, and when it cannot *)

Lemma heap_tail_objects (h l : list (jsobj value)) :
  map (fun r => default [] ((h ++ l) !! r)) (seq (length h) (length l)) = l.
Proof.
  revert h. induction l as [|x l IH]; intros h; [reflexivity|].
  cbn [length seq map]. rewrite list_lookup_middle by reflexivity.
  cbn [from_option id]. f_equal.
  specialize (IH (h ++ [x])). rewrite length_app in IH. cbn [length] in IH.
  rewrite <- app_assoc in IH. cbn [app] in IH.
  replace (length h + 1) with (S (length h)) in IH by list_lia. exact IH.
Qed.

Lemma map_filter_comm {A B} (f : A -> B) (q : B -> bool) (l : list A) :
  map f (List.filter (fun x => q (f x)) l) = List.filter q (map f l).
Proof.
  induction l as [|x l IH]; simpl; [reflexivity|].
  destruct (q (f x)); simpl; rewrite IH; reflexivity.
Qed.

Lemma insert_texts_sublist (q : value -> bool) ids :
  (forall v, q v = true -> truthy v = true) ->
  map pg_text (List.filter q ids) `sublist_of` omap id_text ids.
Proof.
  intros Hq. induction ids as [|v ids IH]; simpl; [constructor|].
  unfold id_text at 1. destruct (q v) eqn:Hv.
  - rewrite (Hq v Hv). simpl. apply sublist_skip, IH.
  - destruct (truthy v); simpl; [apply sublist_cons, IH | exact IH].
Qed.

Lemma omap_cons_Some {A B} (f : A -> option B) x y (l : list A) :
  f x = Some y -> omap f (x :: l) = y :: omap f l.
Proof. intros H. cbn. rewrite H. reflexivity. Qed.

Lemma stored_texts w l :
  (forall r, In r l -> truthy (mongo_id_of w r) = true) ->
  omap mongo_text (map pg_store_row (map (object_at w) l))
  = map (fun r => pg_text (mongo_id_of w r)) l.
Proof.
  induction l as [|r l IH]; intros Htr; [reflexivity|]. cbn [map].
  destruct (stored_text w r (Htr r (or_introl eq_refl))) as [Htext _].
  rewrite (omap_cons_Some _ _ _ _ Htext).
  rewrite IH; [reflexivity|]. intros r' Hr'. apply Htr. right. exact Hr'.
Qed.

Lemma NoDup_map_In {A B} (f : A -> B) (l : list A) a b :
  NoDup (map f l) -> In a l -> In b l -> f a = f b -> a = b.
Proof.
  induction l as [|x l IH]; intros Hnd Ha Hb Hf; [destruct Ha|].
  simpl in Hnd. apply NoDup_cons in Hnd as [Hx Hnd].
  destruct Ha as [->|Ha], Hb as [->|Hb]; auto.
  - exfalso. apply Hx. rewrite Hf. apply list_elem_of_In, in_map, Hb.
  - exfalso. apply Hx. rewrite <- Hf. apply list_elem_of_In, in_map, Ha.
Qed.

Lemma map_sublist {A B} (f : A -> B) (l k : list A) :
  l `sublist_of` k -> map f l `sublist_of` map f k.
Proof. intros H. induction H; simpl; [constructor | apply sublist_skip | apply sublist_cons]; assumption. Qed.

Lemma filter_sublist_of {A} (q : A -> bool) (l : list A) : List.filter q l `sublist_of` l.
Proof.
  induction l as [|x l IH]; simpl; [constructor|].
  destruct (q x); [apply sublist_skip | apply sublist_cons]; exact IH.
Qed.

Section Upsert.
Variable table : string.
Variable rows : list loc.
Variable options : PutOptions.
Variable self : string.

(** the prepared rows of records of the heap carry the ids of
    [prepared_ids] *)
Lemma prepared_ids_of w :
  prepared_throws table options (idsRegistry (ensure_self_map self w)) (heap w) rows = None ->
  Forall (fun row => row < length (heap w)) rows ->
  map (mongo_id_of (fst (prepared_of table rows options self w)))
      (snd (prepared_of table rows options self w))
  = prepared_ids table options (idsRegistry (ensure_self_map self w)) w rows.
Proof.
  intros Hno Hvalid.
  destruct (prepared_of_world table rows options self w) as (Hh & _ & _ & _ & _ & Hp).
  rewrite Hno in Hp. rewrite Hp. unfold mongo_id_of, object_at. rewrite Hh.
  pose proof (prepared_objects_length table options (idsRegistry (ensure_self_map self w))
                rows (heap w) Hno) as Hlen.
  unfold jsobj in *. rewrite <- Hlen.
  rewrite <- (map_map (fun r => default [] ((heap w ++ _) !! r))
                      (fun o => prop o "mongo_id")).
  rewrite heap_tail_objects.
  pose proof (prepared_objects_valid table options (idsRegistry (ensure_self_map self w))
                rows (heap w) Hno Hvalid) as Hobjs.
  unfold jsobj in *. rewrite Hobjs.
  rewrite map_map. reflexivity.
Qed.

(** the rows the upsert of a call sends to the table are among the stored
    prepared rows *)
Lemma toInsert_stored w em :
  prepared_throws table options (idsRegistry (ensure_self_map self w)) (heap w) rows = None ->
  Forall (fun row => row < length (heap w)) rows ->
  map pg_store_row
      (map (object_at (fst (prepared_of table rows options self w)))
           (toInsert_of em (fst (prepared_of table rows options self w))
                        (snd (prepared_of table rows options self w))))
    `sublist_of` stored_rows table options self w rows.
Proof.
  intros Hno Hvalid.
  destruct (prepared_of_world table rows options self w) as (Hh & _ & _ & _ & _ & Hp).
  rewrite Hno in Hp.
  assert (Hall : map (object_at (fst (prepared_of table rows options self w)))
                     (snd (prepared_of table rows options self w))
                 = map (fun row => fst (transform_row table options
                                          (idsRegistry (ensure_self_map self w))
                                          (object_at w row))) rows).
  { rewrite Hp. unfold object_at at 1. rewrite Hh.
    pose proof (prepared_objects_length table options (idsRegistry (ensure_self_map self w))
                  rows (heap w) Hno) as Hlen.
    unfold jsobj in *. rewrite <- Hlen. rewrite heap_tail_objects.
    apply (prepared_objects_valid table options (idsRegistry (ensure_self_map self w))
             rows (heap w) Hno Hvalid). }
  unfold stored_rows. rewrite <- Hall. unfold toInsert_of.
  apply map_sublist, map_sublist, filter_sublist_of.
Qed.

(** the table the upsert of a call works on *)
Lemma upsert_table w t :
  db w !! table = Some t ->
  t_mongo_id t = true \/ t_alter t = true ->
  exists t0,
    db (fst (prepared_of table rows options self w)) !! table = Some t0
    /\ t_mongo_id t0 = true /\ t_rows t0 = t_rows t
    /\ t_unique t0 = (if t_mongo_id t then t_unique t else true)
    /\ t_check t0 = t_check t
    /\ aborted (fst (prepared_of table rows options self w)) = false.
Proof.
  intros Ht Hcan.
  destruct (prepared_of_world table rows options self w) as (_ & Hd & _ & _ & Hab & _).
  assert (Ht' : db (with_aborted false (ensure_self_map self w)) !! table = Some t)
    by (cbn [db with_aborted]; rewrite ensure_self_map_db; exact Ht).
  destruct (ensure_column_table table (with_aborted false (ensure_self_map self w)) t
              eq_refl Ht' Hcan) as (t0 & Ht0 & Hcol0 & Hrows0 & Hcheck0 & Hab0).
  pose proof (ensure_column_flags table (with_aborted false (ensure_self_map self w)) table
                eq_refl) as Hfl.
  rewrite Ht0, Ht' in Hfl. rewrite bool_decide_eq_true_2 in Hfl by reflexivity.
  cbn [fmap option_fmap option_map andb] in Hfl. unfold flags in Hfl.
  exists t0. rewrite Hd, Hab. unfold checked.
  split; [exact Ht0|]. split; [exact Hcol0|]. split; [exact Hrows0|].
  split; [|split; [exact Hcheck0 | exact Hab0]].
  destruct (t_mongo_id t); cbn [negb andb] in Hfl; [injection Hfl as _ Hu; exact Hu|].
  destruct Hcan as [Hcan|Halt]; [discriminate|]. rewrite Halt in Hfl.
  injection Hfl as _ Hu. exact Hu.
Qed.

End Upsert.

(** the upsert of a call returns when the table is there, has the
    [mongo_id] column or can be given it, and accepts the rows,
    [idsRegistry[self]] is a [Map], and the usable ids of the prepared rows
    are strings, no two of them the same; it leaves the transaction as it
    was, not aborted *)
Lemma upsert_returns table rows options self w t :
  db w !! table = Some t ->
  t_mongo_id t = true \/ t_alter t = true ->
  Forall (fun row => row < length (heap w)) rows ->
  registry_get (idsRegistry w) self <> Inherited ->
  prepared_throws table options (idsRegistry (ensure_self_map self w)) (heap w) rows = None ->
  Forall (fun v => id_is_string v = true)
         (prepared_ids table options (idsRegistry (ensure_self_map self w)) w rows) ->
  NoDup (omap id_text
              (prepared_ids table options (idsRegistry (ensure_self_map self w)) w rows)) ->
  table_accepts table options self w rows t ->
  fst (upsert table self (snd (prepared_of table rows options self w))
              (fst (prepared_of table rows options self w))) = Returned tt
  /\ aborted (snd (upsert table self (snd (prepared_of table rows options self w))
                          (fst (prepared_of table rows options self w)))) = false
  /\ obj_has (idsRegistry (snd (upsert table self (snd (prepared_of table rows options self w))
                                       (fst (prepared_of table rows options self w))))) self
     = true.
Proof.
  intros Ht Hcan Hvalid Hinh Hno Hstr Hnd Hacc.
  pose proof (prepared_ids_of table rows options self w Hno Hvalid) as Hids.
  pose proof (fun em => toInsert_stored table rows options self w em Hno Hvalid) as Hsub.
  destruct (upsert_table table rows options self w t Ht Hcan)
    as (t0 & Ht0 & Hcol0 & Hrows0 & _ & Hcheck0 & Hab0).
  destruct (prepared_of_world table rows options self w) as (_ & Hd & Hreg & _).
  assert (Hown : obj_has (idsRegistry (fst (prepared_of table rows options self w))) self
                 = true)
    by (rewrite Hreg; apply ensure_self_map_has, Hinh).
  set (p := prepared_of table rows options self w) in *.
  rewrite upsert_eq.
  destruct (select_finds table (snd p) (fst p) t0 Ht0 Hcol0)
    as (existing & Hsel & Hsound & Hfind).
  unfold trx_select. rewrite Hab0, Hsel. cbn zeta. set (em := make_existingMap existing).
  rewrite (sets_outcome_own self _ _ Hown).
  destruct (toInsert_of em (fst p) (snd p)) as [|r0 rest'] eqn:Hti.
  { cbn [fst snd aborted idsRegistry]. rewrite set_all_has. auto. }
  rewrite <- Hti.
  assert (Hu : unique_ok t0 (map pg_store_row
                                 (map (object_at (fst p)) (toInsert_of em (fst p) (snd p))))
               = true).
  { unfold unique_ok. apply orb_true_iff. right. apply bool_decide_eq_true_2.
    rewrite stored_texts by (intros r Hr; apply toInsert_In in Hr as (_ & H & _); exact H).
    split.
    - unfold toInsert_of.
      rewrite <- (map_map (mongo_id_of (fst p)) pg_text).
      rewrite (map_filter_comm (mongo_id_of (fst p))
                 (fun v => truthy v && negb (existing_has em v))).
      rewrite Hids.
      eapply sublist_NoDup; [exact Hnd|].
      apply insert_texts_sublist. intros v Hv. apply andb_prop in Hv as [Hv _]. exact Hv.
    - apply Forall_forall. intros s Hs.
      apply list_elem_of_In, in_map_iff in Hs as (r & <- & Hr).
      apply toInsert_In in Hr as (Hr & Htruthy & Hex).
      assert (Hid : id_is_string (mongo_id_of (fst p) r) = true).
      { rewrite Forall_forall in Hstr. apply Hstr. rewrite <- Hids.
        apply list_elem_of_In, in_map, Hr. }
      destruct (mongo_id_of (fst p) r) as [| | | |m| |] eqn:Hm;
        try (simpl in Hid, Htruthy; rewrite Htruthy in Hid; discriminate);
        try discriminate.
      cbn [pg_text String_]. intros Hin.
      assert (Hmne : m <> "").
      { intros ->. simpl in Htruthy. discriminate. }
      apply list_elem_of_In in Hin.
      destruct (Hfind r m Hr Hm Hmne Hin) as [id Hid'].
      rewrite (proj2 (existing_has_VStr em m)) in Hex by eauto. discriminate. }
  assert (Hc : t_check t0 (rows_of (db (fst p)))
                 (map pg_store_row (map (object_at (fst p)) (toInsert_of em (fst p) (snd p))))
               = None).
  { rewrite Hcheck0, Hd. apply Hacc, Hsub. }
  unfold pg_insert. rewrite Ht0, Hcol0, Hc, Hu. cbn [negb andb].
  rewrite (sets_outcome_own self _ _ Hown).
  cbn [fst snd aborted idsRegistry]. rewrite !set_all_has. auto.
Qed.

(** when the upsert of a call returns: the call returns if no [transform]
    throws, and its transaction commits if there are no link tables *)
Lemma returns_and_commits table rows options self w t :
  db w !! table = Some t ->
  t_mongo_id t = true \/ t_alter t = true ->
  Forall (fun row => row < length (heap w)) rows ->
  registry_get (idsRegistry w) self <> Inherited ->
  prepares table options self w rows ->
  Forall (fun v => id_is_string v = true)
         (prepared_ids table options (idsRegistry (ensure_self_map self w)) w rows) ->
  NoDup (omap id_text
              (prepared_ids table options (idsRegistry (ensure_self_map self w)) w rows)) ->
  table_accepts table options self w rows t ->
  transforms_return (links options) ->
  fst (putToPostgres table rows options self w) = Returned tt
  /\ (links options = [] -> committed table rows options self w).
Proof.
  intros Ht Hcan Hvalid Hinh Hprep Hstr Hnd Hacc Htr.
  assert (Hno : prepared_throws table options (idsRegistry (ensure_self_map self w))
                                (heap w) rows = None)
    by (apply prepared_throws_valid; assumption).
  destruct (upsert_returns table rows options self w t Ht Hcan Hvalid Hinh Hno Hstr Hnd Hacc)
    as (Hup & Hab & Hown).
  split.
  - destruct rows as [|row0 rest] eqn:Hrows; [reflexivity|]. rewrite <- Hrows in *.
    rewrite (putToPostgres_eq table rows options self row0 rest w Hrows). cbn [fst].
    rewrite unit_result_eq, Hno.
    destruct (upsert _ _ _ _) as [[[]|msg] w2]; [|discriminate].
    cbn [snd] in Hown.
    apply (link_phase_returns table self rows (links options) w2 Hown Htr).
  - intros Hlinks. unfold committed. rewrite unit_result_eq, Hno.
    destruct (upsert _ _ _ _) as [[[]|msg] w2]; [|discriminate].
    rewrite Hlinks. cbn [for_each fst snd] in *. auto.
Qed.


(** a table without the column, whose schema may not be changed: the
    safeguard is caught, and has aborted the transaction *)
Lemma schema_change_refused table rows options self w t :
  db w !! table = Some t ->
  (t_mongo_id t = true \/ t_alter t = true)
  \/ aborted (fst (prepared_of table rows options self w)) = true.
Proof.
  intros Ht.
  destruct (t_mongo_id t) eqn:Hcol; [auto|]. destruct (t_alter t) eqn:Halt; [auto|].
  right. destruct (prepared_of_world table rows options self w) as (_ & _ & _ & _ & -> & _).
  unfold checked, ensure_mongo_id_column. cbn [aborted db with_aborted].
  rewrite ensure_self_map_db, Ht, Hcol, Halt. reflexivity.
Qed.

(** two prepared rows with the same new [mongo_id] make the transaction
    of the call throw *)
Lemma duplicate_unit_throws table rows options self w t i j row row' m :
  db w !! table = Some t ->
  (t_mongo_id t = true -> t_unique t = true) ->
  i <> j -> rows !! i = Some row -> rows !! j = Some row' ->
  row < length (heap w) -> row' < length (heap w) ->
  prop (fst (transform_row table options (idsRegistry (ensure_self_map self w))
                           (object_at w row))) "mongo_id" = VStr m ->
  prop (fst (transform_row table options (idsRegistry (ensure_self_map self w))
                           (object_at w row'))) "mongo_id" = VStr m ->
  m <> "" ->
  ~ In m (table_ids t) ->
  is_thrown (fst (unit_result table rows options self w)) = true.
Proof.
  intros Ht Huniq Hij Hi Hj Hrow Hrow' Hm Hm' Hmne Hfresh.
  rewrite unit_result_eq.
  destruct (prepared_throws table options (idsRegistry (ensure_self_map self w))
              (heap w) rows) eqn:Hno; [reflexivity|].
  destruct (prepared_row_of table rows options self w i row Hno Hi Hrow) as [Hin Hobj].
  destruct (prepared_row_of table rows options self w j row' Hno Hj Hrow') as [Hin' Hobj'].
  assert (Hup : is_thrown (fst (upsert table self
                                  (snd (prepared_of table rows options self w))
                                  (fst (prepared_of table rows options self w)))) = true);
    [|destruct (upsert table self _ _) as [[[]|msg] w2]; [discriminate | reflexivity]].
  rewrite upsert_eq.
  destruct (schema_change_refused table rows options self w t Ht) as [Hcan|Hrefused];
    [|unfold trx_select; rewrite Hrefused; reflexivity].
  destruct (upsert_table table rows options self w t Ht Hcan)
    as (t0 & Ht0 & Hcol0 & Hrows0 & Hu0 & _ & Hab0).
  set (p := prepared_of table rows options self w) in *.
  destruct (select_finds table (snd p) (fst p) t0 Ht0 Hcol0)
    as (existing & Hsel & Hsound & _).
  unfold trx_select. rewrite Hab0, Hsel. cbn zeta.
  set (em := make_existingMap existing).
  destruct (sets_outcome _ _ (skip_pairs _ _ _)); [|reflexivity].
  assert (Hnew : existing_has em (VStr m) = false).
  { destruct (existing_has em (VStr m)) eqn:Hex; [|reflexivity].
    apply existing_has_VStr in Hex as [id Hid].
    destruct (Hsound m id Hid) as (cols & Hcols & Htext).
    exfalso. apply Hfresh. apply table_ids_In. exists id, cols.
    rewrite <- Hrows0. auto. }
  assert (Hboth : forall k row1,
             In (length (heap w) + k) (snd p) ->
             object_at (fst p) (length (heap w) + k)
             = fst (transform_row table options (idsRegistry (ensure_self_map self w))
                                  (object_at w row1)) ->
             prop (fst (transform_row table options (idsRegistry (ensure_self_map self w))
                                      (object_at w row1))) "mongo_id" = VStr m ->
             In (length (heap w) + k) (toInsert_of em (fst p) (snd p))
             /\ pg_text (mongo_id_of (fst p) (length (heap w) + k)) = m).
  { intros k row1 Hk Ho Hid. unfold mongo_id_of. rewrite Ho, Hid. split; [|reflexivity].
    apply toInsert_In. unfold mongo_id_of. rewrite Ho, Hid.
    split; [exact Hk|]. split; [apply truthy_string, Hmne | exact Hnew]. }
  destruct (Hboth i row Hin Hobj Hm) as [Hti Htxt].
  destruct (Hboth j row' Hin' Hobj' Hm') as [Htj Htxt'].
  destruct (toInsert_of em (fst p) (snd p)) as [|r0 rest'] eqn:Heq; [destruct Hti|].
  rewrite <- Heq in *.
  destruct (pg_insert _ _ _ _) as [[[d inserted]|msg] sq] eqn:Hpg; [|reflexivity].
  exfalso.
  apply pg_insert_Returned in Hpg as (t1 & Ht1 & _ & _ & _ & _ & Hu).
  assert (t1 = t0) by congruence. subst t1.
  unfold unique_ok in Hu. rewrite Hu0 in Hu.
  assert (Hflag : (if t_mongo_id t then t_unique t else true) = true)
    by (destruct (t_mongo_id t); [apply Huniq; reflexivity | reflexivity]).
  rewrite Hflag in Hu. cbn [negb orb] in Hu.
  apply bool_decide_eq_true in Hu as [Hnd _].
  rewrite stored_texts in Hnd
    by (intros r Hr; apply toInsert_In in Hr as (_ & H & _); exact H).
  assert (Hsame : length (heap w) + i = length (heap w) + j)
    by (apply (NoDup_map_In _ _ _ _ Hnd Hti Htj); congruence).
  list_lia.
Qed.

(** X16.  One duplicate aborts the collection: when two of the records
    are prepared with the same [mongo_id] (a non-empty string no row of the
    table has) and the [mongo_id] column is unique (as the column the call
    adds is), the batch cannot be inserted; the call throws and the tables
    are as they were.  The serial counters are not part of the tables: the
    failed insert may have drawn ids, and the counters only move forward. *)
Theorem duplicate_new_id_aborts table rows options self w t i j row row' m :
  db w !! table = Some t ->
  (t_mongo_id t = true -> t_unique t = true) ->
  i <> j -> rows !! i = Some row -> rows !! j = Some row' ->
  row < length (heap w) -> row' < length (heap w) ->
  prop (fst (transform_row table options (idsRegistry (ensure_self_map self w))
                           (object_at w row))) "mongo_id" = VStr m ->
  prop (fst (transform_row table options (idsRegistry (ensure_self_map self w))
                           (object_at w row'))) "mongo_id" = VStr m ->
  m <> "" ->
  ~ In m (table_ids t) ->
  is_thrown (fst (putToPostgres table rows options self w)) = true
  /\ db (snd (putToPostgres table rows options self w)) = db w
  /\ serials_grow w (snd (putToPostgres table rows options self w)).
Proof.
  intros Ht Huniq Hij Hi Hj Hrow Hrow' Hm Hm' Hmne Hfresh.
  pose proof (duplicate_unit_throws table rows options self w t i j row row' m
                Ht Huniq Hij Hi Hj Hrow Hrow' Hm Hm' Hmne Hfresh) as Hth.
  split; [|split; [|apply putToPostgres_serials]].
  all: destruct rows as [|row0 rest] eqn:Hrows; [discriminate|]; rewrite <- Hrows in *.
  all: rewrite (putToPostgres_eq table rows options self row0 rest w Hrows); cbn [fst snd].
  - exact Hth.
  - rewrite Hth. reflexivity.
Qed.

(** ** The extractor *)

Section Extractor.
Import Mongo.

(** a document with an [_id]: [mongo_id] is its string, [_id] is gone *)
Lemma clean_mongo_id d id :
  obj_get d "_id" = Some id -> nullish id = false ->
  obj_get (clean d) "mongo_id" = Some (VStr (String_ id))
  /\ obj_get (clean d) "_id" = None.
Proof.
  intros Hid Hn. unfold clean, prop. rewrite Hid, Hn.
  rewrite !obj_get_delete_ne by discriminate.
  rewrite obj_get_set_eq, obj_get_delete_eq. auto.
Qed.

(** X17.  What cleaning does to a document: [__v] is gone; a document with
    an [_id] that is not null gets [mongo_id], the string of the [_id], and
    loses [_id]; a document without one keeps [mongo_id] and [_id] as they
    are; every other field is kept. *)
Theorem clean_document d :
  obj_get (clean d) "__v" = None
  /\ (forall k, k <> "_id" -> k <> "__v" -> k <> "mongo_id" ->
        obj_get (clean d) k = obj_get d k)
  /\ (forall id, obj_get d "_id" = Some id -> nullish id = false ->
        obj_get (clean d) "mongo_id" = Some (VStr (String_ id))
        /\ obj_get (clean d) "_id" = None)
  /\ (nullish (prop d "_id") = true ->
        obj_get (clean d) "mongo_id" = obj_get d "mongo_id"
        /\ obj_get (clean d) "_id" = obj_get d "_id").
Proof.
  unfold clean. split; [apply obj_get_delete_eq|]. split; [|split].
  - intros k H1 H2 H3. rewrite obj_get_delete_ne by congruence.
    destruct (nullish (prop d "_id")); [reflexivity|].
    rewrite obj_get_delete_ne by congruence. apply obj_get_set_ne. congruence.
  - intros id Hid Hn. apply (clean_mongo_id d id Hid Hn).
  - intros Hn. rewrite Hn. rewrite !obj_get_delete_ne by discriminate. auto.
Qed.

Lemma clean_NoDup d : NoDup (keys d) -> NoDup (keys (clean d)).
Proof.
  intros Hnd. unfold clean. apply NoDup_delete.
  destruct (nullish (prop d "_id")); [exact Hnd|]. apply NoDup_delete, NoDup_set, Hnd.
Qed.

Variable src : source.

Lemma read_collection_seen st col : seen (read_collection src st col) = seen st ++ [col].
Proof. unfold read_collection. destruct (find src _ col); reflexivity. Qed.

Lemma read_fold_seen cols : forall st,
  seen (foldl (read_collection src) st cols) = seen st ++ cols.
Proof.
  induction cols as [|c cols IH]; intros st; simpl; [rewrite app_nil_r; reflexivity|].
  rewrite IH, read_collection_seen, <- app_assoc. reflexivity.
Qed.

Lemma read_collection_other st col c :
  col <> c ->
  obj_get (data (so_far (read_collection src st col))) c = obj_get (data (so_far st)) c
  /\ obj_get (counts (so_far (read_collection src st col))) c = obj_get (counts (so_far st)) c.
Proof.
  intros Hne. unfold read_collection.
  destruct (find src _ col); cbn [so_far data counts]; split; apply obj_get_set_ne, Hne.
Qed.

Lemma read_fold_other cols c : forall st,
  c ∉ cols ->
  obj_get (data (so_far (foldl (read_collection src) st cols))) c = obj_get (data (so_far st)) c
  /\ obj_get (counts (so_far (foldl (read_collection src) st cols))) c
     = obj_get (counts (so_far st)) c.
Proof.
  induction cols as [|col cols IH]; intros st Hc; simpl; [auto|].
  apply not_elem_of_cons in Hc as [Hne Hc].
  destruct (IH (read_collection src st col) Hc) as [-> ->].
  apply read_collection_other. congruence.
Qed.

Lemma read_fold_printed cols : forall st e,
  In e (printed st) -> In e (printed (foldl (read_collection src) st cols)).
Proof.
  induction cols as [|col cols IH]; intros st e He; simpl; [exact He|].
  apply IH. unfold read_collection.
  destruct (find src _ col); cbn [printed]; apply in_or_app; left; exact He.
Qed.

Lemma read_fold_counts cols : forall st,
  (forall c, obj_get (counts (so_far st)) c = length <$> obj_get (data (so_far st)) c) ->
  forall c,
    obj_get (counts (so_far (foldl (read_collection src) st cols))) c
    = length <$> obj_get (data (so_far (foldl (read_collection src) st cols))) c.
Proof.
  induction cols as [|col cols IH]; intros st Hst; simpl; [exact Hst|].
  apply IH. intros c. unfold read_collection.
  destruct (find src _ col); cbn [so_far data counts]; rewrite !obj_get_set;
    destruct (decide (col = c)); try reflexivity; apply Hst.
Qed.

Lemma read_fold_keys cols : forall st c,
  is_Some (obj_get (data (so_far (foldl (read_collection src) st cols))) c)
  <-> is_Some (obj_get (data (so_far st)) c) \/ In c cols.
Proof.
  induction cols as [|col cols IH]; intros st c; simpl.
  - split; [auto | intros [H|[]]; exact H].
  - rewrite IH. unfold read_collection.
    destruct (find src _ col); cbn [so_far data]; rewrite obj_get_set;
      destruct (decide (col = c)); split; intros H;
      try (destruct H as [H|H]; eauto; fail); try (destruct H as [H|[H|H]]; eauto; fail);
      try (left; eauto; fail); try contradiction.
    all: destruct H as [H|[H|H]]; eauto; contradiction.
Qed.

(** one read: what the collection holds afterwards *)
Lemma read_collection_result st col :
  match find src (seen st) col with
  | Returned docs =>
      obj_get (data (so_far (read_collection src st col))) col = Some (map clean docs)
      /\ obj_get (counts (so_far (read_collection src st col))) col = Some (length docs)
      /\ In (LogFetched col (length docs)) (printed (read_collection src st col))
  | Thrown msg =>
      obj_get (data (so_far (read_collection src st col))) col = Some []
      /\ obj_get (counts (so_far (read_collection src st col))) col = Some 0%nat
      /\ In (WarnReading col msg) (printed (read_collection src st col))
  end.
Proof.
  unfold read_collection.
  destruct (find src (seen st) col) as [docs|msg]; cbn [so_far data counts printed];
    rewrite !obj_get_set_eq, ?length_map;
    (split; [reflexivity|]; split; [reflexivity|]; apply in_or_app; right; left; reflexivity).
Qed.

(** the result of a call that returns *)
Lemma getFromMongo_Returned uri collections res :
  fst (getFromMongo src uri collections) = Returned res ->
  res = so_far (read_all src collections)
  /\ snd (getFromMongo src uri collections) = printed (read_all src collections).
Proof.
  unfold getFromMongo. destruct (negb (truthy uri)); [discriminate|].
  destruct (connect src uri); [|discriminate].
  destruct (close src); [|discriminate].
  cbn [fst snd]. intros H. injection H as <-. auto.
Qed.



End Extractor.

(** ** Fields that no option names, and documents of the extractor *)

Section PassThrough.
Variable table : string.
Variable options : PutOptions.
Variable registry : jsobj idmap.

(** a field that [rename], [redefine] and [foreignKeys] do not name is the
    same after the foreign-key stage *)
Lemma unnamed_after_fk raw k :
  k ∉ keys (rename options) -> k ∉ targets (rename options) ->
  k ∉ keys (redefine options) -> k ∉ keys (foreignKeys options) ->
  obj_get (after_fk table options registry raw) k = obj_get raw k.
Proof.
  intros Hrn Hrt Hrd Hfk. unfold after_fk, fk_stage.
  rewrite (fk_loop_other table registry _ _ k Hfk). cbn [fst].
  unfold after_redefine, redefine_stage.
  rewrite (redefine_loop_other table _ _ k Hrd). cbn [fst].
  unfold after_rename, rename_stage. cbn [fst].
  rewrite rename_fold_other by assumption. reflexivity.
Qed.

End PassThrough.

(** X20.  A field that no option names passes through the pipeline: when
    [rename] has it neither as an old nor as a new name, and [redefine]
    and [foreignKeys] have no entry for it, the row prepared from a record
    has the field with the value of the record, unless the value is an
    array and [links[key]] is falsy ([links] has no entry for the field,
    and [Object.prototype] no member of that name); and it has no such
    field when the record has none. *)
Theorem unnamed_field_passes_through table options registry raw k :
  NoDup (keys raw) ->
  prepare_throws table options registry raw = None ->
  k ∉ keys (rename options) -> k ∉ targets (rename options) ->
  k ∉ keys (redefine options) -> k ∉ keys (foreignKeys options) ->
  obj_get (fst (transform_row table options registry raw)) k
  = match obj_get raw k with
    | Some v => if isArray v && negb (links_has (links options) k) then None else Some v
    | None => None
    end.
Proof.
  intros Hnd Hp Hrn Hrt Hrd Hfk. rewrite transform_row_fst by exact Hp.
  rewrite elide_get by (apply after_fk_NoDup, Hnd).
  rewrite unnamed_after_fk by assumption. reflexivity.
Qed.

(** X24.  An array field that [links] names stays in the prepared row:
    when [links[key]] is truthy, the field is in the row with its array, and
    in the row as it is sent to the table of the collection (which so needs
    a column for it), unless it is [mongo_id], which is sent as text. *)
Theorem linked_array_stays_in_row table options registry raw key val :
  NoDup (keys raw) ->
  prepare_throws table options registry raw = None ->
  obj_get (after_fk table options registry raw) key = Some val ->
  isArray val = true ->
  links_has (links options) key = true ->
  obj_get (fst (transform_row table options registry raw)) key = Some val
  /\ (key <> "mongo_id" ->
      obj_get (pg_store_row (fst (transform_row table options registry raw))) key
      = Some val).
Proof.
  intros Hnd Hp Hget Ha Hl.
  assert (Hrow : obj_get (fst (transform_row table options registry raw)) key = Some val).
  { rewrite transform_row_fst by exact Hp.
    rewrite elide_get by (apply after_fk_NoDup, Hnd).
    rewrite Hget, Hl, andb_false_r. reflexivity. }
  split; [exact Hrow|].
  intros Hne. unfold pg_store_row.
  destruct (obj_get (fst (transform_row table options registry raw)) "mongo_id") as [v|];
    [|exact Hrow].
  destruct (nullish v); [exact Hrow|].
  rewrite obj_get_update_ne by congruence. exact Hrow.
Qed.

Section Load.
Import Mongo.

Lemma usable_string v : id_is_string v = true -> truthy v = true -> exists s, v = VStr s.
Proof.
  destruct v; simpl; intros Hs Htr; eauto; try discriminate; rewrite Htr in Hs; discriminate.
Qed.

Lemma usable_ids_NoDup (ids : list value) :
  NoDup ids -> Forall (fun v => id_is_string v = true) ids -> NoDup (omap id_text ids).
Proof.
  induction ids as [|v ids IH]; intros Hnd Hstr; [constructor|].
  apply NoDup_cons in Hnd as [Hv Hnd]. apply Forall_cons in Hstr as [Hs Hstr].
  specialize (IH Hnd Hstr). cbn. unfold id_text at 1.
  destruct (truthy v) eqn:Htr; [|exact IH].
  apply NoDup_cons. split; [|exact IH].
  intros Hin. apply Hv. apply list_elem_of_omap in Hin as (v' & Hv' & Heq).
  unfold id_text in Heq. destruct (truthy v') eqn:Htr'; [|discriminate].
  injection Heq as Heq. rewrite Forall_forall in Hstr. pose proof (Hstr v' Hv') as Hs'.
  destruct (usable_string v Hs Htr) as [s ->].
  destruct (usable_string v' Hs' Htr') as [s' ->].
  simpl in Heq. subst. exact Hv'.
Qed.

(** X21.  Extract, then load: records that are cleaned documents with an
    [_id], no two with the same [mongo_id], are loaded by a call that
    returns, when the table is there, has the [mongo_id] column or can be
    given it, and accepts the rows it is sent, preparing the records does
    not throw, [idsRegistry[self]] is a [Map] or nothing, the options do
    not name [mongo_id] or [__proto__], and no [transform] throws; without
    link tables, the transaction of the call commits. *)
Theorem cleaned_documents_load table rows options self w t :
  db w !! table = Some t ->
  t_mongo_id t = true \/ t_alter t = true ->
  Forall (fun row => exists d, heap w !! row = Some (clean d)
                               /\ NoDup (keys d) /\ nullish (prop d "_id") = false) rows ->
  NoDup (map (fun row => prop (object_at w row) "mongo_id") rows) ->
  registry_get (idsRegistry w) self <> Inherited ->
  plain_rows options ->
  prepares table options self w rows ->
  table_accepts table options self w rows t ->
  "mongo_id" ∉ keys (rename options) -> "mongo_id" ∉ targets (rename options) ->
  "mongo_id" ∉ keys (redefine options) -> "mongo_id" ∉ keys (foreignKeys options) ->
  transforms_return (links options) ->
  fst (putToPostgres table rows options self w) = Returned tt
  /\ (links options = [] -> committed table rows options self w).
Proof.
  intros Ht Hcan Hdocs Hnd Hinh _ Hprep Hacc Hrn Hrt Hrd Hfk Htr.
  assert (Hvalid : Forall (fun row => row < length (heap w)) rows).
  { eapply Forall_impl; [exact Hdocs|]. intros row (d & Hd & _).
    apply lookup_lt_Some in Hd. exact Hd. }
  assert (Hsame : prepared_ids table options (idsRegistry (ensure_self_map self w)) w rows
                  = map (fun row => prop (object_at w row) "mongo_id") rows
                  /\ Forall (fun v => id_is_string v = true)
                            (map (fun row => prop (object_at w row) "mongo_id") rows)).
  { unfold prepared_ids. unfold prepares in Hprep. clear Hnd Hvalid Hacc.
    induction Hdocs as [|row rest (d & Hd & Hkeys & Hid) _ IH]; [split; constructor|].
    apply Forall_cons in Hprep as [Hp0 Hprep].
    destruct (IH Hprep) as [IH1 IH2]. cbn [map]. rewrite IH1.
    assert (Hobj : object_at w row = clean d)
      by (unfold object_at; etransitivity;
          [apply (f_equal (default [])); exact Hd | reflexivity]).
    destruct (obj_get d "_id") as [id|] eqn:Hget;
      [|unfold prop in Hid; rewrite Hget in Hid; discriminate].
    assert (Hnn : nullish id = false) by (unfold prop in Hid; rewrite Hget in Hid; exact Hid).
    destruct (clean_mongo_id d id Hget Hnn) as [Hm _].
    rewrite Hobj in Hp0.
    assert (Hrow : obj_get (fst (transform_row table options
                                   (idsRegistry (ensure_self_map self w)) (clean d)))
                           "mongo_id" = Some (VStr (String_ id))).
    { apply transform_row_keeps; [exact Hp0 | apply clean_NoDup, Hkeys | | reflexivity].
      rewrite unnamed_after_fk by assumption. exact Hm. }
    rewrite Hobj. unfold prop at 1 3. rewrite Hrow. unfold prop. rewrite Hm.
    split; [reflexivity|]. constructor; [reflexivity | exact IH2]. }
  destruct Hsame as [Hids Hstr].
  apply (returns_and_commits table rows options self w t); try assumption; rewrite Hids;
    [exact Hstr | apply usable_ids_NoDup; assumption].
Qed.

End Load.

(** ** The further theorems at work *)

(** a table that checks the columns of the rows takes every part of a
    batch it takes *)
Lemma columns_check_sublist cols rs rs' (batch all : list (jsobj value)) :
  batch `sublist_of` all ->
  MoreScenarios.columns_check cols rs all = None ->
  MoreScenarios.columns_check cols rs' batch = None.
Proof.
  unfold MoreScenarios.columns_check. intros Hsub Hall.
  destruct (forallb _ all) eqn:Hf; [|discriminate].
  assert (Hb : forallb (fun o => forallb (fun k => bool_decide (k ∈ cols)) (keys o)) batch
               = true).
  { clear Hall. induction Hsub as [|x l k Hsub IH|x l k Hsub IH]; simpl in *;
      [reflexivity | |].
    - apply andb_prop in Hf as [Hx Hk]. rewrite Hx. apply IH, Hk.
    - apply andb_prop in Hf as [_ Hk]. apply IH, Hk. }
  rewrite Hb. reflexivity.
Qed.

Section MoreWitnesses.
Import MoreScenarios.

Lemma redefine_stage_keeps_fields_witness :
  keys (fst (snd (redefine_stage "employees" (redefine redefine_options) carl))) = keys carl
  /\ obj_get (fst (snd (redefine_stage "employees" (redefine redefine_options) carl)))
             "mongo_id"
     = obj_get carl "mongo_id".
Proof.
  split.
  - exact (proj1 (redefine_stage_keeps_fields "employees" (redefine redefine_options) carl)).
  - apply (proj2 (redefine_stage_keeps_fields "employees" (redefine redefine_options) carl)).
    apply (bool_decide_unpack _). vm_compute. exact I.
Defined.

Lemma fk_stage_keeps_fields_witness :
  keys (fst (snd (fk_stage "employees" two_departments (foreignKeys employees_options) eve)))
  = keys eve
  /\ obj_get (fst (snd (fk_stage "employees" two_departments (foreignKeys employees_options)
                                 eve)))
             "department" = Some VNull.
Proof.
  split.
  - exact (proj1 (fk_stage_keeps_fields "employees" two_departments
                    (foreignKeys employees_options) eve)).
  - apply (proj2 (proj2 (fk_stage_keeps_fields "employees" two_departments
                           (foreignKeys employees_options) eve))); reflexivity.
Defined.

Lemma fk_resolved_field_witness :
  obj_get (fst (transform_row "employees" employees_options (idsRegistry employees_world) ann))
          "department" = Some (VNum 1).
Proof.
  apply (proj1 (fk_resolved_field "employees" employees_options (idsRegistry employees_world)
                  ann "department" "departments" (VStr "d1") {["d1" := 1%Z]} 1%Z
                  ltac:(apply (bool_decide_unpack _); vm_compute; exact I)
                  ltac:(apply (bool_decide_unpack _); vm_compute; exact I)
                  ltac:(left; reflexivity)
                  ltac:(vm_compute; reflexivity)
                  ltac:(reflexivity) ltac:(reflexivity) ltac:(reflexivity)
                  ltac:(reflexivity) ltac:(vm_compute; reflexivity))).
Defined.

Lemma fk_array_takes_first_resolved_witness :
  exists new warns',
    fk_entry "employees" two_departments (fay, []) ("department", "departments")
    = (Returned tt, (obj_set "department" new fay, warns'))
    /\ match map_fk_array {["d1" := 1%Z; "d2" := 2%Z]}
                          [VNull; VStr "d9"; VStr "d1"; VStr "d2"] with
       | first :: _ =>
           new = VNum first
           /\ exists pre id post,
                [VNull; VStr "d9"; VStr "d1"; VStr "d2"] = pre ++ id :: post
                /\ Forall (fun x => fk_element_resolves {["d1" := 1%Z; "d2" := 2%Z]} x = false)
                          pre
                /\ nullish id = false
                /\ ({["d1" := 1%Z; "d2" := 2%Z]} : idmap) !! String_ id = Some first
       | [] => new = VNull
               /\ Forall (fun x => fk_element_resolves {["d1" := 1%Z; "d2" := 2%Z]} x = false)
                         [VNull; VStr "d9"; VStr "d1"; VStr "d2"]
       end
    /\ warns' = (if bool_decide (length (map_fk_array {["d1" := 1%Z; "d2" := 2%Z]}
                                           [VNull; VStr "d9"; VStr "d1"; VStr "d2"])
                                 = length [VNull; VStr "d9"; VStr "d1"; VStr "d2"])
                 then []
                 else [] ++ [WarnLostFks "employees" "department"
                               (length [VNull; VStr "d9"; VStr "d1"; VStr "d2"]
                                - length (map_fk_array {["d1" := 1%Z; "d2" := 2%Z]}
                                            [VNull; VStr "d9"; VStr "d1"; VStr "d2"]))]).
Proof.
  apply (fk_array_takes_first_resolved "employees" two_departments fay [] "department"
           "departments" [VNull; VStr "d9"; VStr "d1"; VStr "d2"]
           {["d1" := 1%Z; "d2" := 2%Z]}); reflexivity.
Defined.

Lemma rename_moves_field_witness :
  obj_get (fst (rename_stage (rename rename_options) dora)) "name" = Some (VStr "Dora")
  /\ obj_get (fst (rename_stage (rename rename_options) dora)) "fullName" = None.
Proof.
  apply (rename_moves_field (rename rename_options) dora "fullName" "name" (VStr "Dora")).
  - apply (bool_decide_unpack _). vm_compute. exact I.
  - left. reflexivity.
  - discriminate.
  - discriminate.
  - apply (bool_decide_unpack _). vm_compute. exact I.
  - apply (bool_decide_unpack _). vm_compute. exact I.
  - intros old' [H|[]]. injection H as <-. reflexivity.
  - reflexivity.
Defined.

Lemma rename_to_same_name_deletes_witness :
  obj_get (fst (rename_stage [("name", "name")] ann_row)) "name" = None.
Proof.
  apply (rename_to_same_name_deletes [("name", "name")] ann_row "name").
  - apply (bool_decide_unpack _). vm_compute. exact I.
  - left. reflexivity.
  - intros old' [H|[]]. injection H as <-. reflexivity.
Defined.

Lemma elide_stage_exact_witness :
  fst (elide_stage "employees" [] tags_row) = [("mongo_id", VStr "e4")]
  /\ snd (elide_stage "employees" [] tags_row) = [WarnDroppedArray "employees" "tags"].
Proof.
  assert (Hnd : NoDup (keys tags_row)) by (apply (bool_decide_unpack _); vm_compute; exact I).
  split.
  - exact (eq_trans (proj1 (elide_stage_exact "employees" [] tags_row Hnd)) eq_refl).
  - exact (eq_trans (proj2 (elide_stage_exact "employees" [] tags_row Hnd)) eq_refl).
Defined.

Lemma prepared_fields_come_from_record_witness :
  "name" ∈ keys (fst (transform_row "employees" rename_options [] dora))
  /\ ("name" ∈ keys dora \/ "name" ∈ targets (rename rename_options)).
Proof.
  assert (H : "name" ∈ keys (fst (transform_row "employees" rename_options [] dora)))
    by (apply (bool_decide_unpack _); vm_compute; exact I).
  split; [exact H|].
  exact (prepared_fields_come_from_record "employees" rename_options [] dora "name" H).
Defined.

Lemma registry_frame_witness :
  obj_get (idsRegistry (snd (putToPostgres "employees" [0%nat; 1%nat] throwing_options
                               "employees" rollback_world))) "awards"
  = obj_get (idsRegistry rollback_world) "awards".
Proof.
  apply (proj1 (proj2 (proj2 (registry_frame "employees" [0%nat; 1%nat] throwing_options
                                "employees" rollback_world)))).
  discriminate.
Defined.

Lemma missing_table_aborts_witness :
  is_thrown (fst (putToPostgres "employees" [0%nat] no_options "employees" no_table_world))
  = true
  /\ db (snd (putToPostgres "employees" [0%nat] no_options "employees" no_table_world))
     = db no_table_world
  /\ length (heap (snd (putToPostgres "employees" [0%nat] no_options "employees"
                           no_table_world))) = 2.
Proof.
  assert (Hne : [0%nat] <> []) by discriminate.
  assert (Hnone : db no_table_world !! "employees" = None) by reflexivity.
  destruct (missing_table_aborts "employees" [0%nat] no_options "employees"
              no_table_world Hne Hnone) as (Hthrown & Hdb & _ & _ & Hheap).
  split; [exact Hthrown|]. split; [exact Hdb|].
  apply Hheap. reflexivity.
Defined.


Lemma store_only_gains_rows_witness :
  In (9%Z, ann_row)
     (rows_of (db (snd (putToPostgres "employees" [0%nat] no_options "employees"
                          conflict_world))) "employees").
Proof.
  apply (proj1 (store_only_gains_rows "employees" [0%nat] no_options "employees"
                  conflict_world)).
  vm_compute. left. reflexivity.
Defined.

Lemma link_rows_pair_registered_ids_witness :
  Forall (fun linkRow =>
            exists row e selfSqlId foreignSqlId,
              In row [0%nat]
              /\ In e (array_elems (prop (object_at linked_world row) "award_ids"))
              /\ self_sql_id "employees" linked_world (object_at linked_world row)
                 = Returned (Some selfSqlId)
              /\ selfSqlId <> 0%Z
              /\ scan_registry (idsRegistry linked_world) (String_ e) = Some foreignSqlId
              /\ foreignSqlId <> 0%Z
              /\ linkRow = obj_assign (link_base award_link selfSqlId foreignSqlId)
                             (link_extra award_link selfSqlId foreignSqlId
                                         (object_at linked_world row)))
         [link_base award_link 2 1].
Proof.
  apply (link_rows_pair_registered_ids "employees" "award_ids" award_link [0%nat]
           linked_world [link_base award_link 2 1]).
  vm_compute. reflexivity.
Defined.

Lemma committed_ids_translate_to_stored_rows_witness :
  fst (putToPostgres "departments" [0%nat] no_options "departments" departments_world)
  = Returned tt
  /\ exists id cols,
    resolve (idsRegistry (snd (putToPostgres "departments" [0%nat] no_options "departments"
                                 departments_world))) "departments" "d1" = Some id
    /\ In (id, cols)
          (rows_of (db (snd (putToPostgres "departments" [0%nat] no_options "departments"
                               departments_world))) "departments")
    /\ mongo_text cols = Some "d1".
Proof.
  apply (committed_ids_translate_to_stored_rows "departments" [0%nat] no_options
           "departments" departments_world 0%nat 0%nat "d1").
  - split; vm_compute; reflexivity.
  - reflexivity.
  - simpl. lia.
  - vm_compute. reflexivity.
  - discriminate.
Defined.


Lemma duplicate_new_id_aborts_witness :
  is_thrown (fst (putToPostgres "employees" [0%nat; 1%nat; 1%nat] no_options "employees"
                    rollback_world)) = true
  /\ db (snd (putToPostgres "employees" [0%nat; 1%nat; 1%nat] no_options "employees"
                rollback_world)) = db rollback_world
  /\ serials_grow rollback_world
       (snd (putToPostgres "employees" [0%nat; 1%nat; 1%nat] no_options "employees"
               rollback_world)).
Proof.
  apply (duplicate_new_id_aborts "employees" [0%nat; 1%nat; 1%nat] no_options "employees"
           rollback_world (PgTable true true [(1%Z, ann_row)] accept_all true)
           1%nat 2%nat 1%nat 1%nat "e2").
  - reflexivity.
  - reflexivity.
  - discriminate.
  - reflexivity.
  - reflexivity.
  - simpl. lia.
  - simpl. lia.
  - vm_compute. reflexivity.
  - vm_compute. reflexivity.
  - discriminate.
  - vm_compute. intros [H|[]]. discriminate H.
Defined.

Lemma clean_document_witness :
  obj_get (Mongo.clean eng) "mongo_id" = Some (VStr "64a")
  /\ obj_get (Mongo.clean eng) "_id" = None.
Proof.
  apply (proj1 (proj2 (proj2 (clean_document eng))) (VStr "64a")); reflexivity.
Defined.



Lemma unnamed_field_passes_through_witness :
  obj_get (fst (transform_row "employees" employees_options (idsRegistry employees_world) ann))
          "name" = Some (VStr "Ann").
Proof.
  refine (eq_trans (unnamed_field_passes_through "employees" employees_options
                      (idsRegistry employees_world) ann "name" _ eq_refl _ _ _ _) eq_refl);
    apply (bool_decide_unpack _); vm_compute; exact I.
Defined.

Lemma cleaned_documents_load_witness :
  fst (putToPostgres "departments" [0%nat; 1%nat] no_options "departments" cleaned_world)
  = Returned tt
  /\ committed "departments" [0%nat; 1%nat] no_options "departments" cleaned_world.
Proof.
  destruct (cleaned_documents_load "departments" [0%nat; 1%nat] no_options "departments"
              cleaned_world departments_table) as [Hret Hcommitted].
  - reflexivity.
  - right. reflexivity.
  - constructor; [|constructor; [|constructor]].
    + exists eng. split; [reflexivity|]. split; [|reflexivity].
      apply (bool_decide_unpack _). vm_compute. exact I.
    + exists ops. split; [reflexivity|]. split; [|reflexivity].
      apply (bool_decide_unpack _). vm_compute. exact I.
  - vm_compute. apply NoDup_cons. split; [|apply NoDup_singleton].
    intros H. apply list_elem_of_In in H. destruct H as [H|[]]. discriminate H.
  - discriminate.
  - apply (bool_decide_unpack _). vm_compute. exact I.
  - repeat constructor.
  - intros batch Hsub. apply (columns_check_sublist _ (fun _ => []) _ _ _ Hsub). reflexivity.
  - apply (bool_decide_unpack _). vm_compute. exact I.
  - apply (bool_decide_unpack _). vm_compute. exact I.
  - apply (bool_decide_unpack _). vm_compute. exact I.
  - apply (bool_decide_unpack _). vm_compute. exact I.
  - intros cfg f a b o [].
  - split; [exact Hret | apply Hcommitted; reflexivity].
Defined.

Lemma redefine_turn_witness :
  obj_get (after_redefine "employees" redefine_options carl) "name" = Some (VStr "Carl")
  /\ In (WarnRedefineFail "employees" "name" "bad name")
        (snd (transform_row "employees" redefine_options [] carl))
  /\ obj_get (after_redefine "employees" redefine_options carl) "age" = Some (VStr "41").
Proof.
  assert (Hnd : NoDup (keys (redefine redefine_options)))
    by (apply (bool_decide_unpack _); vm_compute; exact I).
  destruct (redefine_turn "employees" redefine_options [] carl "name"
              (fun _ _ => Throw (Error_ "bad name")) Hnd
              (or_introl eq_refl) eq_refl eq_refl)
    as (pre & post & _ & H).
  destruct (redefine_turn "employees" redefine_options [] carl "age"
              (fun v _ => Normal (VStr (String_ v))) Hnd
              (or_intror (or_introl eq_refl)) eq_refl eq_refl)
    as (pre' & post' & _ & H').
  cbn zeta in H, H'. destruct H as (_ & _ & _ & Hkeep & Hwarn). destruct H' as (_ & _ & Hage).
  split; [exact Hkeep|]. split; [exact Hwarn | exact Hage].
Defined.

Lemma unlinked_arrays_elided_witness :
  obj_get (after_fk "employees" no_options [] tags_row) "tags"
  = Some (VArr [VStr "a"; VStr "b"])
  /\ links_has (links no_options) "tags" = false
  /\ obj_get (fst (transform_row "employees" no_options [] tags_row)) "tags" = None.
Proof.
  split; [reflexivity|]. split; [reflexivity|].
  apply (proj1 (unlinked_arrays_elided "employees" [0%nat] no_options "employees" tags_world)
           [] tags_row "tags" (VArr [VStr "a"; VStr "b"])); reflexivity.
Defined.

Lemma linked_array_stays_in_row_witness :
  obj_get (pg_store_row (fst (transform_row "employees" awards_options
                                (idsRegistry schema_world) bob))) "award_ids"
  = Some (VArr [VStr "a1"; VStr "a9"])
  /\ fst schema_result = Thrown "rejected by the table".
Proof.
  split; [|vm_compute; reflexivity].
  apply (proj2 (linked_array_stays_in_row "employees" awards_options (idsRegistry schema_world)
                  bob "award_ids" (VArr [VStr "a1"; VStr "a9"])
                  ltac:(apply (bool_decide_unpack _); vm_compute; exact I)
                  eq_refl eq_refl eq_refl eq_refl)).
  discriminate.
Defined.

End MoreWitnesses.
